(** * Caltrix: the Notion-to-Discord schedule synchronisation pipeline

    A shallow embedding of [index.cjs]: the per-guild configuration, the
    Notion property parsers, the cached relation resolver, the month
    keys and the month query, the line renderer and the embed builder
    with the limits it enforces, and the persistent-message upsert,
    followed by the properties established about them.

    Conventions of the embedding.
    - JavaScript strings are [string]s holding UTF-8 bytes; the length
      of a string is the number of UTF-16 code units it has in
      JavaScript.
    - A [Date] is its time value, an integer number of milliseconds since
      the epoch; a date that may be invalid is an [option Z].
    - [async] functions run sequentially: every [await] completes before
      the next statement starts, so they are state-passing functions over
      [State], and a rejected promise is a thrown exception.
    - Everything the program observes of the outside (Notion's answers,
      the Discord channels, the meta file) is explicit data. *)

From Stdlib Require Import ZArith Lia Ascii String List Sorted Permutation.
From stdpp Require Import base option list gmap strings pretty.
Import ListNotations.
Local Open Scope Z_scope.

(** ** JavaScript strings *)

Module JsString.

(** [if (s)] on a string: only the empty string is falsy. *)
Definition truthy (s : string) : bool :=
  match s with EmptyString => false | String _ _ => true end.

(** [s || d] on strings. *)
Definition or_else (s d : string) : string := if truthy s then s else d.

(** [arr.join(sep)]. *)
Fixpoint join (sep : string) (l : list string) : string :=
  match l with
  | [] => ""
  | [x] => x
  | x :: rest => x +:+ sep +:+ join sep rest
  end.

Fixpoint rev_acc (s acc : string) : string :=
  match s with
  | EmptyString => acc
  | String c s' => rev_acc s' (String c acc)
  end.
Definition rev (s : string) : string := rev_acc s "".

Definition of_codes (l : list nat) : string :=
  fold_right (fun n s => String (ascii_of_nat n) s) "" l.

(** The UTF-8 encodings of ECMAScript's WhiteSpace and LineTerminator code
    points, the characters [String.prototype.trim] removes: TAB, LF, VT,
    FF, CR, SP, U+00A0, U+1680, U+2000..U+200A, U+2028, U+2029, U+202F,
    U+205F, U+3000 and U+FEFF. *)
Definition white_space : list string :=
  List.map of_codes
    [ [9]; [10]; [11]; [12]; [13]; [32]; [194; 160]; [225; 154; 128];
      [226; 128; 128]; [226; 128; 129]; [226; 128; 130]; [226; 128; 131];
      [226; 128; 132]; [226; 128; 133]; [226; 128; 134]; [226; 128; 135];
      [226; 128; 136]; [226; 128; 137]; [226; 128; 138]; [226; 128; 168];
      [226; 128; 169]; [226; 128; 175]; [226; 129; 159]; [227; 128; 128];
      [239; 187; 191] ]%nat.

(** [drop_prefix p s] is [Some r] when [s = p ++ r]. *)
Fixpoint drop_prefix (p s : string) : option string :=
  match p, s with
  | EmptyString, _ => Some s
  | String a p', String b s' =>
      if Ascii.eqb a b then drop_prefix p' s' else None
  | String _ _, EmptyString => None
  end.

Fixpoint drop_first_of (tokens : list string) (s : string) : option string :=
  match tokens with
  | [] => None
  | t :: rest =>
      match drop_prefix t s with
      | Some r => Some r
      | None => drop_first_of rest s
      end
  end.

Fixpoint strip_leading (tokens : list string) (fuel : nat) (s : string) : string :=
  match fuel with
  | O => s
  | S fuel' =>
      match drop_first_of tokens s with
      | Some r => strip_leading tokens fuel' r
      | None => s
      end
  end.

Definition trimStart (s : string) : string :=
  strip_leading white_space (String.length s) s.

Definition trimEnd (s : string) : string :=
  rev (strip_leading (List.map rev white_space) (String.length s) (rev s)).

(** [s.trim()]. *)
Definition trim (s : string) : string := trimEnd (trimStart s).

Definition upper_ascii (c : ascii) : ascii :=
  let n := nat_of_ascii c in
  if ((97 <=? n)%nat && (n <=? 122)%nat)%bool then ascii_of_nat (n - 32) else c.

(** [s.toUpperCase()] on the ASCII letters; the month abbreviations it is
    applied to contain nothing else. *)
Fixpoint toUpperCase (s : string) : string :=
  match s with
  | EmptyString => EmptyString
  | String c s' => String (upper_ascii c) (toUpperCase s')
  end.

(** [s.padStart(n, "0")]. *)
Definition padStart0 (n : nat) (s : string) : string :=
  of_codes (repeat 48%nat (n - String.length s)) +:+ s.

(** [s.split(c)] for a one-character separator. *)
Fixpoint split_on (c : ascii) (s : string) : list string :=
  match s with
  | EmptyString => [""]
  | String a s' =>
      if Ascii.eqb a c then "" :: split_on c s'
      else match split_on c s' with
           | [] => [String a ""]
           | w :: ws => String a w :: ws
           end
  end.

Definition digit_value (c : ascii) : option Z :=
  let n := nat_of_ascii c in
  if ((48 <=? n)%nat && (n <=? 57)%nat)%bool then Some (Z.of_nat n - 48) else None.

Fixpoint digits_value (s : string) (acc : Z) : option Z :=
  match s with
  | EmptyString => Some acc
  | String c s' =>
      match digit_value c with
      | Some d => digits_value s' (10 * acc + d)
      | None => None
      end
  end.

(** [s.length], the number of UTF-16 code units of the string the
    bytes encode: one for a character of up to three bytes, two for a
    character of four. *)
Definition units_of_byte (c : ascii) : nat :=
  let n := nat_of_ascii c in
  if (n <? 128)%nat then 1%nat
  else if (n <? 192)%nat then 0%nat
  else if (n <? 240)%nat then 1%nat
  else 2%nat.

Fixpoint length (s : string) : nat :=
  match s with
  | EmptyString => 0%nat
  | String c s' => (units_of_byte c + length s')%nat
  end.

(** [Number(s)] on the strings a month key is made of: a run of decimal
    digits is its value (the empty string is 0); [None] is NaN.  The
    function is exact on runs of digits and on the strings that
    [Number] reads as NaN.  Signs, fractions, exponents, radix prefixes,
    Infinity and surrounding blanks, which [Number] also reads, are not
    part of a month key as the program builds it; they are outside
    this function, and the statements about month keys keep to keys
    made of digits or of parts that are no number whatever follows. *)
Definition Number (s : string) : option Z := digits_value s 0.

End JsString.

(** ** Dates: the ECMAScript time-value arithmetic the program relies on *)

Module JsDate.

Definition msPerDay : Z := 86400000.

(** Day(t), TimeWithinDay is not needed. *)
Definition Day (t : Z) : Z := t / msPerDay.

Definition DayFromYear (y : Z) : Z :=
  365 * (y - 1970) + (y - 1969) / 4 - (y - 1901) / 100 + (y - 1601) / 400.

Definition InLeapYear (y : Z) : bool :=
  ((y mod 4 =? 0) && negb (y mod 100 =? 0) || (y mod 400 =? 0))%bool.

(** Day number within the year of the first day of month [m] (0-based). *)
Definition month_offset (m : Z) (leap : bool) : Z :=
  let l := if leap then 1 else 0 in
  match m with
  | 0 => 0 | 1 => 31 | 2 => 59 + l | 3 => 90 + l | 4 => 120 + l
  | 5 => 151 + l | 6 => 181 + l | 7 => 212 + l | 8 => 243 + l
  | 9 => 273 + l | 10 => 304 + l | _ => 334 + l
  end.

(** MakeDay(year, month, date): the month may lie outside 0..11 and
    carries into the year. *)
Definition MakeDay (year month date : Z) : Z :=
  let ym := year + month / 12 in
  let mn := month mod 12 in
  DayFromYear ym + month_offset mn (InLeapYear ym) + date - 1.

Definition MakeDate (day time : Z) : Z := day * msPerDay + time.

(** TimeClip: a time value beyond 8.64e15 ms is an invalid date. *)
Definition TimeClip (t : Z) : option Z :=
  if Z.abs t <=? 8640000000000000 then Some t else None.

(** The year argument of the [Date] constructor: 0..99 mean 1900..1999. *)
Definition full_year (y : Z) : Z :=
  if ((0 <=? y) && (y <=? 99))%bool then 1900 + y else y.

(** Year, month (0-based) and day of the month of a day number, in the
    proleptic Gregorian calendar: YearFromTime, MonthFromTime and
    DateFromTime, computed per 400-year era. *)
Definition civil_from_days (day : Z) : Z * Z * Z :=
  let z := day + 719468 in
  let era := z / 146097 in
  let doe := z - era * 146097 in
  let yoe := (doe - doe / 1460 + doe / 36524 - doe / 146096) / 365 in
  let doy := doe - (365 * yoe + yoe / 4 - yoe / 100) in
  let mp := (5 * doy + 2) / 153 in
  let d := doy - (153 * mp + 2) / 5 + 1 in
  let m := if mp <? 10 then mp + 3 else mp - 9 in
  let y := yoe + era * 400 + (if m <=? 2 then 1 else 0) in
  (y, m - 1, d).

Definition month_short_en_US : list string :=
  ["Jan"; "Feb"; "Mar"; "Apr"; "May"; "Jun";
   "Jul"; "Aug"; "Sep"; "Oct"; "Nov"; "Dec"].

Definition month_long_en_US : list string :=
  ["January"; "February"; "March"; "April"; "May"; "June";
   "July"; "August"; "September"; "October"; "November"; "December"].

Section LocalTime.

(** The host's time zone: [LocalTZA t true] is the offset of local time
    from UTC at the UTC instant [t], [LocalTZA t false] the offset at
    the local time [t]. *)
Variable LocalTZA : Z -> bool -> Z.

Definition LocalTime (t : Z) : Z := t + LocalTZA t true.
Definition UTC (t : Z) : Z := t - LocalTZA t false.

(** [new Date(Y, M, D, 0, 0, 0, 0)] on numbers that may be NaN. *)
Definition new_Date_local (Y M : option Z) (D : Z) : option Z :=
  match Y, M with
  | Some y, Some m => TimeClip (UTC (MakeDate (MakeDay (full_year y) m D) 0))
  | _, _ => None
  end.

Definition getFullYear (d : Z) : Z := (civil_from_days (Day (LocalTime d))).1.1.
Definition getMonth (d : Z) : Z := (civil_from_days (Day (LocalTime d))).1.2.
Definition getDate (d : Z) : Z := (civil_from_days (Day (LocalTime d))).2.

(** [d.toLocaleString("en-US", { month: "short" })]. *)
Definition toLocale_month_short (d : Z) : string :=
  nth (Z.to_nat (getMonth d)) month_short_en_US "".

(** [d.toLocaleString("en-US", { month: "long" })]; an invalid date
    prints as such. *)
Definition toLocale_month_long (d : option Z) : string :=
  match d with
  | Some t => nth (Z.to_nat (getMonth t)) month_long_en_US ""
  | None => "Invalid Date"
  end.

End LocalTime.

End JsDate.

(** ** Notion's data: pages and their typed properties *)

Record RichText := { plain_text : string }.
Record SelectOption := { name : string }.
Record DateValue := { start : string }.
Record PageRef := { ref_id : string }.

(** A property object, tagged by its [type]; the payload sits under the
    key of the same name and may be null. *)
Inductive Property :=
  | PTitle (title : option (list RichText))
  | PRichText (rich_text : option (list RichText))
  | PSelect (select : option SelectOption)
  | PUrl (url : option string)
  | PDate (date : option DateValue)
  | PRelation (relation : option (list PageRef))
  | POther (other_type : string).

(** A page object; [properties] lists the keys in the order [Object.keys]
    gives them. *)
Record Page := { properties : option (list (string * Property)) }.

(** [p[key]] on a parsed JSON object, whose keys are distinct. *)
Fixpoint prop_get (key : string) (p : list (string * Property)) : option Property :=
  match p with
  | [] => None
  | (k, v) :: rest => if String.eqb k key then Some v else prop_get key rest
  end.

(** The body of a database query, as [queryNotionForMonth] builds it.
    The two bounds stand for the ISO strings [toISOString] prints, which
    name their instants one to one. *)
Record QueryBody := {
  filter_status_equals : string;
  filter_date_on_or_after : Z;
  filter_date_before : Z;
  sorts_property : string;
  sorts_ascending : bool;
  page_size : Z
}.

Record QueryResult := { results : option (list Page) }.

(** What [fetch] gives back: it rejects, or it yields a response with its
    status, its body parsed as JSON ([None] when [res.json()] fails) and
    the text [data?.message || JSON.stringify(data)] of that body. *)
Inductive Fetched (A : Type) :=
  | Rejected
  | Response (status : Z) (data : option A) (message : string).
Arguments Rejected {A}.
Arguments Response {A} status data message.

(** The Notion workspace as the program sees it through its token. *)
Record Notion := {
  databases : string -> QueryBody -> Fetched QueryResult;
  pages : string -> Fetched Page
}.

(** ** Discord's data and the meta file *)

Definition Snowflake := N.

Record Embed := { embed_title : string; description : string; footer : string }.
Record Message := { content : string; embeds : list Embed }.

(** [channels !! id] is [None] when fetching the channel rejects,
    [Some None] when it resolves to null, and the messages of the thread
    otherwise. *)
Record Discord := {
  channels : gmap string (option (gmap Snowflake Message));
  next_id : Snowflake
}.

(** One entry of meta.json. *)
Record MetaEntry := { messageId : Snowflake }.

(** ** Effects: exceptions, the observable trace and the state *)

(** What the program throws: a rejected [fetch], a Notion answer
    outside 2xx, [toISOString] on an invalid date, the error of
    [publishSchedule] for a thread that resolves to null, a failure of
    the Discord API, and the error of an [EmbedBuilder] setter for a
    text outside its limits. *)
Inductive Exn :=
  | FetchFailed
  | NotionApiError (status : Z) (message : string)
  | RangeError
  | ThreadNotFound (threadId : string)
  | DiscordApiError
  | ValidationError.

Inductive Event :=
  | EvNotionDbQuery (databaseId : string) (body : QueryBody)
  | EvNotionGetPage (pageId : string)
  | EvChannelsFetch (threadId : string)
  | EvMessagesFetch (threadId : string) (msgId : Snowflake)
  | EvSend (threadId : string) (msgId : Snowflake)
  | EvEdit (threadId : string) (msgId : Snowflake) (msg : Message)
  | EvMetaRead
  | EvMetaWrite.

(** [meta_file] is the content of meta.json, as the mapping its JSON text
    denotes: [None] when the file is missing or does not parse. *)
Record State := mkState {
  pageTitleCache : gmap string string;
  meta_file : option (gmap string MetaEntry);
  discord : Discord;
  trace : list Event
}.

Inductive Result (A : Type) :=
  | Ok (a : A)
  | Throw (e : Exn).
Arguments Ok {A} a.
Arguments Throw {A} e.

Definition M (A : Type) : Type := State -> Result A * State.

Definition ret {A} (a : A) : M A := fun s => (Ok a, s).
Definition throw {A} (e : Exn) : M A := fun s => (Throw e, s).
Definition bind {A B} (m : M A) (k : A -> M B) : M B :=
  fun s => match m s with
           | (Ok a, s') => k a s'
           | (Throw e, s') => (Throw e, s')
           end.
(** A call that is not asynchronous and returns or throws. *)
Definition lift {A} (r : Result A) : M A := fun s => (r, s).
(** [try { m } catch { h }]. *)
Definition try_catch {A} (m : M A) (h : M A) : M A :=
  fun s => match m s with
           | (Ok a, s') => (Ok a, s')
           | (Throw _, s') => h s'
           end.
Definition gets {A} (f : State -> A) : M A := fun s => (Ok (f s), s).
Definition modify (f : State -> State) : M unit := fun s => (Ok tt, f s).

Notation "x <- m ;; k" := (bind m (fun x => k))
  (at level 20, m at level 99, k at level 200, right associativity).
Notation "m ;;; k" := (bind m (fun _ => k))
  (at level 100, k at level 200, right associativity).

Definition set_cache (c : gmap string string) (s : State) : State :=
  mkState c (meta_file s) (discord s) (trace s).
Definition set_meta_file (m : option (gmap string MetaEntry)) (s : State) : State :=
  mkState (pageTitleCache s) m (discord s) (trace s).
Definition set_discord (d : Discord) (s : State) : State :=
  mkState (pageTitleCache s) (meta_file s) d (trace s).
Definition append_trace (e : Event) (s : State) : State :=
  mkState (pageTitleCache s) (meta_file s) (discord s) (trace s ++ [e]).
Definition log (e : Event) : M unit := modify (append_trace e).

(** ** NOTION REST *)

Definition res_ok (status : Z) : bool := (200 <=? status) && (status <=? 299).

(** [notionRequest]: [empty] is the value the empty object reads as at
    the type of the answer. *)
Definition notionRequest {A} (empty : A) (ev : Event) (r : Fetched A) : M A :=
  log ev ;;;
  match r with
  | Rejected => throw FetchFailed
  | Response status data message =>
      if res_ok status then ret (default empty data)
      else throw (NotionApiError status message)
  end.

Definition notionDbQuery (W : Notion) (databaseId : string) (body : QueryBody)
  : M QueryResult :=
  notionRequest {| results := None |} (EvNotionDbQuery databaseId body)
    (databases W databaseId body).

Definition notionGetPage (W : Notion) (pageId : string) : M Page :=
  notionRequest {| properties := None |} (EvNotionGetPage pageId) (pages W pageId).

(** ** NOTION PROPS *)

Definition NOTION_PROPS_title := "Title".
Definition NOTION_PROPS_date := "Date".
Definition NOTION_PROPS_time := "Time".
Definition NOTION_PROPS_type := "Type".
Definition NOTION_PROPS_artist := "Artist".
Definition NOTION_PROPS_member := "Member".
Definition NOTION_PROPS_location := "Location".
Definition NOTION_PROPS_status := "Status".
Definition NOTION_PROPS_link := "Link".

(** ** NOTION PARSING *)

Definition rtPlain (arr : option (list RichText)) : string :=
  match arr with
  | None => ""
  | Some l => JsString.join "" (List.map plain_text l)
  end.

Definition titlePlain (prop : option Property) : string :=
  match prop with
  | Some (PTitle t) => rtPlain t
  | _ => ""
  end.

Definition richTextPlain (prop : option Property) : string :=
  match prop with
  | Some (PRichText t) => rtPlain t
  | _ => ""
  end.

Definition selectPlain (prop : option Property) : string :=
  match prop with
  | Some (PSelect (Some o)) => JsString.or_else (name o) ""
  | _ => ""
  end.

Definition urlPlain (prop : option Property) : string :=
  match prop with
  | Some (PUrl (Some u)) => JsString.or_else u ""
  | _ => ""
  end.

(** [null] is [None]; a result is never the empty string. *)
Definition dateStart (prop : option Property) : option string :=
  match prop with
  | Some (PDate (Some d)) => if JsString.truthy (start d) then Some (start d) else None
  | _ => None
  end.

Definition relationIds (prop : option Property) : list string :=
  match prop with
  | Some (PRelation r) => List.map ref_id (default [] r)
  | _ => []
  end.

(** ** RELATION RESOLUTION (cached) *)

Definition is_title (kv : string * Property) : bool :=
  match kv.2 with PTitle _ => true | _ => false end.

Definition firstTitleFromPage (page : Page) : string :=
  let props := default [] (properties page) in
  match List.find is_title props with
  | None => ""
  | Some (_, PTitle t) => rtPlain t
  | Some _ => ""
  end.

Definition getPageTitleCached (W : Notion) (pageId : string) : M string :=
  cache <- gets pageTitleCache ;;
  match cache !! pageId with
  | Some t => ret t
  | None =>
      page <- notionGetPage W pageId ;;
      let title := JsString.or_else (firstTitleFromPage page) "" in
      modify (fun s => set_cache (<[pageId := title]> (pageTitleCache s)) s) ;;;
      ret title
  end.

(** [ids.slice(0, max)]: a negative [max] counts from the end. *)
Definition slice0 {A} (ids : list A) (max : Z) : list A :=
  let len := Z.of_nat (length ids) in
  let final := if max <? 0 then Z.max (len + max) 0 else Z.min max len in
  take (Z.to_nat final) ids.

(** The [for (const id of sliced)] loop, [names] being the array it
    pushes to. *)
Fixpoint resolve_loop (W : Notion) (sliced : list string) (names : list string)
  : M (list string) :=
  match sliced with
  | [] => ret names
  | id :: rest =>
      t <- getPageTitleCached W id ;;
      resolve_loop W rest (if JsString.truthy t then names ++ [t] else names)
  end.

Definition resolveRelationNames (W : Notion) (prop : option Property) (max : Z)
  : M (list string) :=
  let ids := relationIds prop in
  match ids with
  | [] => ret []
  | _ =>
      names <- resolve_loop W (slice0 ids max) [] ;;
      ret (if Z.of_nat (length ids) >? max
           then names ++ ["+" +:+ pretty (Z.of_nat (length ids) - max)]
           else names)
  end.

(** ** The normalised record *)

Record Item := {
  title : string;
  type : string;
  dateObj : Z;
  timeText : string;
  location : string;
  link : string;
  artistText : string;
  memberText : string
}.

(** [items.sort((a, b) => a.dateObj - b.dateObj)].  The comparator is the
    difference of two integers, hence consistent, and [sort] is stable:
    the outcome is the one stable arrangement by [dateObj], computed here
    by insertion. *)
Fixpoint insert_by_date (x : Item) (l : list Item) : list Item :=
  match l with
  | [] => [x]
  | y :: l' =>
      if dateObj y <? dateObj x then y :: insert_by_date x l' else x :: y :: l'
  end.

Definition sort_by_date (l : list Item) : list Item :=
  fold_right insert_by_date [] l.

(** ** Notion database links *)

(** [[0-9a-fA-F]]. *)
Definition is_hex (c : ascii) : bool :=
  let n := nat_of_ascii c in
  ((48 <=? n)%nat && (n <=? 57)%nat) ||
  ((65 <=? n)%nat && (n <=? 70)%nat) ||
  ((97 <=? n)%nat && (n <=? 102)%nat).

Fixpoint all_hex (s : string) : bool :=
  match s with
  | EmptyString => true
  | String c s' => is_hex c && all_hex s'
  end.

(** The first [n] characters of [s] when they are hexadecimal digits: a
    match of [[0-9a-fA-F]{n}] at the start of [s]. *)
Fixpoint take_hex (n : nat) (s : string) : option string :=
  match n with
  | O => Some ""
  | S n' =>
      match s with
      | String c s' => if is_hex c then String c <$> take_hex n' s' else None
      | EmptyString => None
      end
  end.

(** [String(url).match(/([0-9a-fA-F]{32})/)] and its first group: the
    regular expression is tried at each position from the left. *)
Fixpoint extractNotionDbIdFromUrl (url : string) : option string :=
  match take_hex 32 url with
  | Some id => Some id
  | None =>
      match url with
      | EmptyString => None
      | String _ rest => extractNotionDbIdFromUrl rest
      end
  end.

(** ** CONFIG STORAGE (per guild) *)

(** One guild's entry of guild-config.json.  A key that is absent is
    [None]; a thread slot that is null is [Some None]. *)
Record GuildCfg := {
  staffChannelId : option string;
  threads : option (gmap string (option string));
  notion : option (gmap string string)
}.

(** [{}]. *)
Definition empty_cfg : GuildCfg :=
  {| staffChannelId := None; threads := None; notion := None |}.

(** [loadJson(GUILD_CFG_FILE, {})] on the content of the file, [None]
    when it is missing or does not parse. *)
Definition loadGuildConfigAll (file : option (gmap string GuildCfg))
  : gmap string GuildCfg :=
  default ∅ file.

(** [all[guildId] || null]. *)
Definition getGuildCfg (guildId : string) (file : option (gmap string GuildCfg))
  : option GuildCfg :=
  loadGuildConfigAll file !! guildId.

(** The object [setGuildCfg] stores: the spread of [existing] and
    [patch], with [threads] and [notion] each spread key by key. *)
Definition merge_cfg (existing patch : GuildCfg) : GuildCfg :=
  {| staffChannelId :=
       match staffChannelId patch with
       | Some v => Some v
       | None => staffChannelId existing
       end;
     threads := Some (default ∅ (threads patch) ∪ default ∅ (threads existing));
     notion := Some (default ∅ (notion patch) ∪ default ∅ (notion existing)) |}.

(** [setGuildCfg]: the entry it returns and the file it leaves. *)
Definition setGuildCfg (guildId : string) (patch : GuildCfg)
    (file : option (gmap string GuildCfg))
  : GuildCfg * option (gmap string GuildCfg) :=
  let all := loadGuildConfigAll file in
  let existing := default empty_cfg (all !! guildId) in
  let merged := merge_cfg existing patch in
  (merged, Some (<[guildId := merged]> all)).

(** The two errors [requireGuildCfg] throws. *)
Inductive ConfigError :=
  | NotConfigured
  | NotionDbNotConfigured.

Definition config_error_message (e : ConfigError) : string :=
  match e with
  | NotConfigured => "This server is not configured. Run /caltrix setup first."
  | NotionDbNotConfigured =>
      "Notion DB not configured. Run /caltrix notion set <database_link> first."
  end.

(** Truthiness of a value that is a string, null or undefined. *)
Definition truthy_opt (v : option string) : bool :=
  match v with
  | Some s => JsString.truthy s
  | None => false
  end.

(** [cfg?.threads?.[scope]], null and undefined alike being [None]. *)
Definition thread_of (cfg : option GuildCfg) (scope : string) : option string :=
  match cfg with
  | Some c =>
      match threads c with
      | Some t => match t !! scope with Some v => v | None => None end
      | None => None
      end
  | None => None
  end.

(** [cfg?.notion?.databaseId]. *)
Definition databaseId_of (cfg : option GuildCfg) : option string :=
  match cfg with
  | Some c => match notion c with Some n => n !! "databaseId" | None => None end
  | None => None
  end.

(** [requireGuildCfg]: [inl] is the error thrown. *)
Definition requireGuildCfg (guildId : string) (file : option (gmap string GuildCfg))
  : ConfigError + GuildCfg :=
  let cfg := getGuildCfg guildId file in
  if negb (truthy_opt (cfg ≫= staffChannelId)) || negb (truthy_opt (thread_of cfg "thisMonth"))
  then inl NotConfigured
  else if negb (truthy_opt (databaseId_of cfg))
  then inl NotionDbNotConfigured
  else match cfg with
       | Some c => inr c
       | None => inl NotConfigured
       end.

(** [v || null] on an optional string option of a command. *)
Definition or_null (v : option string) : option string :=
  if truthy_opt v then v else None.

(** The patch the setup command stores. *)
Definition setup_patch (staffChannel threadThis : string)
    (threadLast threadNext threadArchive : option string) : GuildCfg :=
  {| staffChannelId := Some staffChannel;
     threads := Some (<["thisMonth" := Some threadThis]>
                     (<["lastMonth" := or_null threadLast]>
                     (<["nextMonth" := or_null threadNext]>
                     (<["archive" := or_null threadArchive]> ∅))));
     notion := None |}.

(** The patch the notion command stores. *)
Definition notion_patch (dbId : string) : GuildCfg :=
  {| staffChannelId := None;
     threads := None;
     notion := Some {[ "databaseId" := dbId ]} |}.

(** ** A concrete host and workspace, used to run the definitions *)

Module Demo.

(** Korea Standard Time, UTC+9 without daylight saving. *)
Definition kst (t : Z) (utc : bool) : Z := 9 * 3600000.

(** Reads the ten characters of a [YYYY-MM-DD] start as midnight UTC
    of that day, as [new Date] does for a date without a time. *)
Definition parse_ymd (ds : string) : Z :=
  match List.map JsString.Number (JsString.split_on "-" ds) with
  | [Some y; Some m; Some d] => JsDate.MakeDate (JsDate.MakeDay y (m - 1) d) 0
  | _ => 0
  end.

Definition rel (ids : list string) : Property :=
  PRelation (Some (List.map Build_PageRef ids)).

Definition titled (t : string) : Page :=
  {| properties := Some [("Name", PTitle (Some [ {| plain_text := t |} ]))] |}.

Definition event (t ty ds : string) (artists : list string) : Page :=
  {| properties := Some
       [ ("Title", PTitle (Some [ {| plain_text := t |} ]));
         ("Type", PSelect (Some {| name := ty |}));
         ("Status", PSelect (Some {| name := "Upcoming" |}));
         ("Date", PDate (Some {| start := ds |}));
         ("Artist", rel artists) ] |}.

Definition no_date (t : string) : Page :=
  {| properties := Some
       [ ("Title", PTitle (Some [ {| plain_text := t |} ]));
         ("Date", PDate None) ] |}.

(** Pages a, b and c have titles, d has an empty title, and every other
    page is not shared with the integration. *)
Definition page_of (pid : string) : Fetched Page :=
  if String.eqb pid "a" then Response 200 (Some (titled "Aria")) "" else
  if String.eqb pid "b" then Response 200 (Some (titled "Bo")) "" else
  if String.eqb pid "c" then Response 200 (Some (titled "Cy")) "" else
  if String.eqb pid "d" then Response 200 (Some (titled "")) "" else
  Response 404 None "Could not find page".

(** A workspace whose database answers every query with [rows], in that
    order. *)
Definition workspace (rows : list Page) : Notion :=
  {| databases := fun _ _ => Response 200 (Some {| results := Some rows |}) "";
     pages := page_of |}.

(** Whether a row passes the filter of a query body. *)
Definition passes (body : QueryBody) (row : Page) : bool :=
  let p := default [] (properties row) in
  String.eqb (selectPlain (prop_get "Status" p)) (filter_status_equals body) &&
  match dateStart (prop_get "Date" p) with
  | Some ds =>
      (filter_date_on_or_after body <=? parse_ymd ds) &&
      (parse_ymd ds <? filter_date_before body)
  | None => false
  end.

(** A workspace whose database holds [rows] and answers a query with the
    rows that pass its filter. *)
Definition filtering_workspace (rows : list Page) : Notion :=
  {| databases := fun _ body =>
       Response 200 (Some {| results := Some (List.filter (passes body) rows) |}) "";
     pages := page_of |}.

Definition server : Discord :=
  {| channels := {[ "thread-1" := Some ∅ ]}; next_id := 1000%N |}.

Definition s0 : State :=
  {| pageTitleCache := ∅; meta_file := None; discord := server; trace := [] |}.

(** A state whose meta file already binds the key of another guild. *)
Definition s_shared : State :=
  {| pageTitleCache := ∅;
     meta_file := Some {[ "guild-2:thisMonth" := {| messageId := 7%N |} ]};
     discord := server;
     trace := [] |}.

(** The records of a result, none when it is an exception. *)
Definition ok_items {A} (r : Result (list A)) : list A :=
  match r with Ok l => l | Throw _ => [] end.

Definition february : list Page :=
  [ event "Album X" "Release" "2026-02-03" [];
    event "Fan meeting" "Event" "2026-02-01" ["a"; "d"; "b"];
    event "Showcase" "Event" "2026-02-01" ["a"; "a"] ].

Definition february_later : list Page :=
  [ event "Album X" "Release" "2026-02-03" [] ].

Definition winter : list Page :=
  [ event "New year" "Event" "2027-01-01" [];
    event "Year-end stage" "Event" "2026-12-31" ["b"];
    event "Autumn" "Event" "2026-11-30" [];
    event "Advent" "Birthday" "2026-12-01" [] ].

Definition album_x : Item :=
  {| title := "Album X"; type := "Release"; dateObj := parse_ymd "2026-02-03";
     timeText := ""; location := ""; link := "";
     artistText := ""; memberText := "" |}.

(** A workspace whose database is not shared with the integration. *)
Definition unshared : Notion :=
  {| databases := fun _ _ => Response 404 None "Could not find database";
     pages := page_of |}.

(** A server on which thread-1 holds a message of someone else and
    thread-0 resolves to null. *)
Definition busy_server : Discord :=
  {| channels :=
       {[ "thread-1" := Some {[ 5%N := {| content := "pinned"; embeds := [] |} ]};
          "thread-0" := None ]};
     next_id := 1000%N |}.

(** A state whose meta file binds the key to a message that is gone. *)
Definition s_stale : State :=
  {| pageTitleCache := ∅;
     meta_file := Some {[ "guild-1:thisMonth" := {| messageId := 7%N |} ]};
     discord := busy_server;
     trace := [] |}.

(** A full page of results, the hundred records a query asks for at
    most: their lines come to more than the description of an embed
    may hold. *)
Definition overlong : list Page :=
  repeat (event "An evening of music with friends and guests" "Event" "2026-02-03" [])
         100.

(** Nine in the morning of 15 December 2026 in Seoul. *)
Definition mid_december : Z := parse_ymd "2026-12-15".

End Demo.

Section Program.

(** The host: its time zone, and how [new Date(string)] reads the start
    of a Notion date property.  Notion prints those as ISO 8601 dates or
    date-times, which always denote an instant. *)
Variable LocalTZA : Z -> bool -> Z.
Variable Date_parse : string -> Z.

(** *** DATE HELPERS *)

(** [monthKey.split("-").map(Number)], destructured into [Y, M]; a
    missing [M] behaves as NaN in all its uses. *)
Definition month_key_fields (monthKey : string) : option Z * option Z :=
  match List.map JsString.Number (JsString.split_on "-" monthKey) with
  | y :: m :: _ => (y, m)
  | [y] => (y, None)
  | [] => (None, None)
  end.

Definition monthStartEnd (monthKey : string) : option Z * option Z :=
  let '(Y, M) := month_key_fields monthKey in
  (JsDate.new_Date_local LocalTZA Y ((fun m => m - 1) <$> M) 1,
   JsDate.new_Date_local LocalTZA Y M 1).

Definition print_number (n : option Z) : string :=
  match n with Some z => pretty z | None => "NaN" end.

Definition fmtMonthTitle (monthKey : string) : string :=
  let '(Y, M) := month_key_fields monthKey in
  let name :=
    JsDate.toLocale_month_long LocalTZA
      (JsDate.new_Date_local LocalTZA Y ((fun m => m - 1) <$> M) 1) in
  name +:+ " " +:+ print_number Y.

(** [d.toISOString()], which throws on an invalid date. *)
Definition toISOString (d : option Z) : M Z :=
  match d with
  | Some t => ret t
  | None => throw RangeError
  end.

(** *** QUERY NOTION (month) *)

(** The [for (const page of res.results || [])] loop, [items] being the
    array it pushes to. *)
Fixpoint normalize_loop (W : Notion) (pgs : list Page) (items : list Item)
  : M (list Item) :=
  match pgs with
  | [] => ret items
  | page :: rest =>
      let p := default [] (properties page) in
      let title := JsString.or_else (titlePlain (prop_get NOTION_PROPS_title p)) "(Untitled)" in
      let type := selectPlain (prop_get NOTION_PROPS_type p) in
      match dateStart (prop_get NOTION_PROPS_date p) with
      | None => normalize_loop W rest items
      | Some ds =>
          let dateObj := Date_parse ds in
          let timeProp := prop_get NOTION_PROPS_time p in
          let timeText :=
            match timeProp with
            | Some (PRichText _) => richTextPlain timeProp
            | _ => ""
            end in
          let location := selectPlain (prop_get NOTION_PROPS_location p) in
          let link := urlPlain (prop_get NOTION_PROPS_link p) in
          artistNames <- resolveRelationNames W (prop_get NOTION_PROPS_artist p) 2 ;;
          memberNames <- resolveRelationNames W (prop_get NOTION_PROPS_member p) 2 ;;
          normalize_loop W rest
            (items ++ [ {| title := title;
                           type := type;
                           dateObj := dateObj;
                           timeText := JsString.trim (JsString.or_else timeText "");
                           location := JsString.trim (JsString.or_else location "");
                           link := JsString.trim (JsString.or_else link "");
                           artistText := JsString.join ", " artistNames;
                           memberText := JsString.join ", " memberNames |} ])
      end
  end.

Definition queryNotionForMonth (W : Notion) (databaseId monthKey : string)
  : M (list Item) :=
  let '(start, end_) := monthStartEnd monthKey in
  modify (set_cache ∅) ;;;
  on_or_after <- toISOString start ;;
  before <- toISOString end_ ;;
  res <- notionDbQuery W databaseId
           {| filter_status_equals := "Upcoming";
              filter_date_on_or_after := on_or_after;
              filter_date_before := before;
              sorts_property := NOTION_PROPS_date;
              sorts_ascending := true;
              page_size := 100 |} ;;
  items <- normalize_loop W (default [] (results res)) [] ;;
  ret (sort_by_date items).

(** *** DISCORD FORMATTING *)

Definition fmtLine (evt : Item) : string :=
  let d := dateObj evt in
  let mon := JsString.toUpperCase (JsDate.toLocale_month_short LocalTZA d) in
  let day := JsString.padStart0 2 (pretty (JsDate.getDate LocalTZA d)) in
  let timePart := if JsString.truthy (timeText evt) then " | " +:+ timeText evt else "" in
  let emoji :=
    if String.eqb (type evt) "Birthday" then "🎂 " else
    if String.eqb (type evt) "Comeback" then "🔔 " else
    if String.eqb (type evt) "Release" then "💿 " else
    if String.eqb (type evt) "Event" then "📍 " else
    "" in
  let metaParts :=
    (if JsString.truthy (artistText evt) then [artistText evt] else []) ++
    (if JsString.truthy (memberText evt) then [memberText evt] else []) ++
    (if JsString.truthy (location evt) then [location evt] else []) in
  let meta :=
    match metaParts with
    | [] => ""
    | _ => " — " +:+ JsString.join " • " metaParts
    end in
  let link := if JsString.truthy (link evt) then " · " +:+ link evt else "" in
  JsString.trim
    ("[" +:+ mon +:+ " " +:+ day +:+ timePart +:+ "] " +:+ emoji +:+ title evt +:+ meta +:+ link).

(** The check an [EmbedBuilder] setter of discord.js makes on a text: a
    length from 1 to [max], or else it throws. *)
Definition embed_text_ok (max : nat) (text : string) : bool :=
  (1 <=? JsString.length text)%nat && (JsString.length text <=? max)%nat.

(** [tzLabel] is [None] when the argument is left out.  The builder
    throws when [setDescription] is given more than 4096 characters or
    [setFooter] a text of more than 2048.  The check [setTitle] makes
    (1 to 256 characters) is left out: a title is the word Schedule, a
    dash, a month name (or Invalid Date), a space and the print of a
    number, which stays under 50 characters. *)
Definition buildEmbed (monthKey : string) (events : list Item) (tzLabel : option string)
  : Result Embed :=
  let title := "Schedule — " +:+ fmtMonthTitle monthKey in
  let body :=
    match events with
    | [] => "_No upcoming entries._"
    | _ => JsString.join (JsString.of_codes [10%nat]) (List.map fmtLine events)
    end in
  let text := "Synced from Notion • " +:+ default "KST" tzLabel in
  if embed_text_ok 4096 body then
    if embed_text_ok 2048 text then
      Ok {| embed_title := title; description := body; footer := text |}
    else Throw ValidationError
  else Throw ValidationError.

(** *** The discord.js calls the program makes *)

(** [discord.channels.fetch(threadId)]; the handle of a thread is its
    identifier. *)
Definition channels_fetch (threadId : string) : M (option string) :=
  log (EvChannelsFetch threadId) ;;;
  d <- gets discord ;;
  match channels d !! threadId with
  | None => throw DiscordApiError
  | Some None => ret None
  | Some (Some _) => ret (Some threadId)
  end.

(** [thread.messages.fetch(msgId)]; the handle of a message is its
    identifier, within its thread. *)
Definition messages_fetch (thread : string) (msgId : Snowflake) : M Snowflake :=
  log (EvMessagesFetch thread msgId) ;;;
  d <- gets discord ;;
  match channels d !! thread with
  | Some (Some msgs) =>
      match msgs !! msgId with
      | Some _ => ret msgId
      | None => throw DiscordApiError
      end
  | _ => throw DiscordApiError
  end.

(** [thread.send(text)]: Discord gives the new message the next
    identifier. *)
Definition send (thread : string) (text : string) : M Snowflake :=
  d <- gets discord ;;
  match channels d !! thread with
  | Some (Some msgs) =>
      let created := next_id d in
      log (EvSend thread created) ;;;
      modify (set_discord
                {| channels :=
                     <[thread := Some (<[created := {| content := text; embeds := [] |}]> msgs)]>
                       (channels d);
                   next_id := N.succ created |}) ;;;
      ret created
  | _ => throw DiscordApiError
  end.

(** [msg.edit(payload)]. *)
Definition message_edit (thread : string) (msgId : Snowflake) (payload : Message)
  : M unit :=
  log (EvEdit thread msgId payload) ;;;
  d <- gets discord ;;
  match channels d !! thread with
  | Some (Some msgs) =>
      match msgs !! msgId with
      | Some _ =>
          modify (set_discord
                    {| channels := <[thread := Some (<[msgId := payload]> msgs)]> (channels d);
                       next_id := next_id d |})
      | None => throw DiscordApiError
      end
  | _ => throw DiscordApiError
  end.

(** *** PERSISTENT MESSAGE PER THREAD (per guild + per scope) *)

(** [loadJson(META_FILE, {})]: a missing or unreadable file is the
    empty object. *)
Definition loadMetaAll : M (gmap string MetaEntry) :=
  log EvMetaRead ;;;
  gets (fun s => default ∅ (meta_file s)).

Definition saveMetaAll (meta : gmap string MetaEntry) : M unit :=
  log EvMetaWrite ;;;
  modify (set_meta_file (Some meta)).

(** The tail of [ensureScheduleMessage], reached when there is no
    stored identifier or its message cannot be fetched. *)
Definition create_message (channelOrThread : string) (metaKey : string)
    (meta : gmap string MetaEntry) : M Snowflake :=
  created <- send channelOrThread "Initializing schedule…" ;;
  saveMetaAll (<[metaKey := {| messageId := created |}]> meta) ;;;
  ret created.

Definition ensureScheduleMessage (channelOrThread : string) (metaKey : string)
  : M Snowflake :=
  meta <- loadMetaAll ;;
  match messageId <$> meta !! metaKey with
  | Some msgId =>
      try_catch (messages_fetch channelOrThread msgId)
                (create_message channelOrThread metaKey meta)
  | None => create_message channelOrThread metaKey meta
  end.

(** [if (threadId)]: null and the empty string are falsy. *)
Definition configured (threadId : option string) : option string :=
  match threadId with
  | Some t => if JsString.truthy t then Some t else None
  | None => None
  end.

Definition publishSchedule (W : Notion) (threadId : option string)
    (databaseId monthKey metaKey : string) (tzLabel : option string) : M Z :=
  match configured threadId with
  | None => ret 0
  | Some tid =>
      events <- queryNotionForMonth W databaseId monthKey ;;
      thread <- channels_fetch tid ;;
      match thread with
      | None => throw (ThreadNotFound tid)
      | Some thread =>
          msg <- ensureScheduleMessage thread metaKey ;;
          embed <- lift (buildEmbed monthKey events tzLabel) ;;
          message_edit thread msg {| content := ""; embeds := [embed] |} ;;;
          ret (Z.of_nat (length events))
      end
  end.

(** *** Auxiliary notions used in the statements *)

(** The value [notionRequest] produces, apart from the trace. *)
Definition request_outcome {A} (empty : A) (r : Fetched A) : Result A :=
  match r with
  | Rejected => Throw FetchFailed
  | Response status data message =>
      if res_ok status then Ok (default empty data)
      else Throw (NotionApiError status message)
  end.

(** The title a page resolves to when Notion answers for it. *)
Definition fetched_title (W : Notion) (pageId : string) : Result string :=
  match request_outcome {| properties := None |} (pages W pageId) with
  | Ok page => Ok (firstTitleFromPage page)
  | Throw e => Throw e
  end.

(** An identifier resolves in state [s] when its title is cached or
    Notion answers for its page. *)
Definition resolvable (W : Notion) (s : State) (pageId : string) : Prop :=
  is_Some (pageTitleCache s !! pageId) \/ exists t, fetched_title W pageId = Ok t.

(** The display name an identifier stands for in state [s]: the cached
    title, else the title Notion answers with. *)
Definition title_of (W : Notion) (s : State) (pageId : string) : string :=
  match pageTitleCache s !! pageId with
  | Some t => t
  | None => match fetched_title W pageId with Ok t => t | Throw _ => "" end
  end.

(** The trailing marker of [resolveRelationNames]. *)
Definition overflow_marker (ids : list string) (max : Z) : list string :=
  match ids with
  | [] => []
  | _ => if Z.of_nat (length ids) >? max
         then ["+" +:+ pretty (Z.of_nat (length ids) - max)]
         else []
  end.

(** Non-decreasing order of two records by [dateObj]. *)
Definition date_le (a b : Item) : Prop := dateObj a <= dateObj b.

(** The body [queryNotionForMonth] posts for a window. *)
Definition month_query (on_or_after before : Z) : QueryBody :=
  {| filter_status_equals := "Upcoming";
     filter_date_on_or_after := on_or_after;
     filter_date_before := before;
     sorts_property := NOTION_PROPS_date;
     sorts_ascending := true;
     page_size := 100 |}.

(** A raw record without a usable date: [dateStart] of its Date
    property is null. *)
Definition undated (page : Page) : Prop :=
  dateStart (prop_get NOTION_PROPS_date (default [] (properties page))) = None.

(** The page identifiers requested from Notion along a trace, in order. *)
Fixpoint page_fetches (t : list Event) : list string :=
  match t with
  | [] => []
  | EvNotionGetPage pid :: t' => pid :: page_fetches t'
  | _ :: t' => page_fetches t'
  end.

(** How many get-by-id requests a trace holds for one identifier. *)
Definition fetch_count (pageId : string) (t : list Event) : nat :=
  length (List.filter (String.eqb pageId) (page_fetches t)).

(** Since the trace was [t0], no page was requested twice and the cache
    holds only pages requested. *)
Definition fetched_once (t0 : list Event) (s : State) : Prop :=
  exists t, trace s = t0 ++ t /\ NoDup (page_fetches t) /\
    forall pid, is_Some (pageTitleCache s !! pid) -> In pid (page_fetches t).

(** Since the trace was [t0], no page was requested twice and the cache
    holds exactly the pages requested. *)
Definition cache_tracks (t0 : list Event) (s : State) : Prop :=
  exists t, trace s = t0 ++ t /\ NoDup (page_fetches t) /\
    forall pid, In pid (page_fetches t) <-> is_Some (pageTitleCache s !! pid).

(** A computation that maintains [P] when it returns and establishes [Q]
    when it throws. *)
Definition preserves {A} (P Q : State -> Prop) (m : M A) : Prop :=
  forall s, P s ->
    match m s with
    | (Ok _, s') => P s'
    | (Throw _, s') => Q s'
    end.

(** A month key of the form YYYY-MM: four digits, a dash, two digits
    that name a month from 01 to 12. *)
Definition valid_month_key (monthKey : string) : bool :=
  match JsString.split_on "-" monthKey with
  | [y; m] =>
      (String.length y =? 4)%nat && (String.length m =? 2)%nat &&
      match JsString.Number y, JsString.Number m with
      | Some _, Some mv => (1 <=? mv) && (mv <=? 12)
      | _, _ => false
      end
  | _ => false
  end.

(** Local midnight of the first day of month [m] (1..12) of year [y], as
    an instant. *)
Definition first_instant_of_month (y m : Z) : Z :=
  JsDate.UTC LocalTZA (JsDate.MakeDate (JsDate.MakeDay y (m - 1) 1) 0).

(** The month after month [m] of year [y]: January of the next year
    after December. *)
Definition following_month (y m : Z) : Z * Z :=
  if m =? 12 then (y + 1, 1) else (y, m + 1).

(** The database honours the date filter it is sent: every record of an
    answer that has a date has it on or after the lower bound and before
    the upper one. *)
Definition honours_date_filter (W : Notion) (databaseId : string) : Prop :=
  forall body status rows message,
    databases W databaseId body = Response status (Some {| results := Some rows |}) message ->
    forall page ds,
      In page rows ->
      dateStart (prop_get NOTION_PROPS_date (default [] (properties page))) = Some ds ->
      filter_date_on_or_after body <= Date_parse ds < filter_date_before body.

(** The short upper-case month names of the line format, January first. *)
Definition MON : list string :=
  ["JAN"; "FEB"; "MAR"; "APR"; "MAY"; "JUN";
   "JUL"; "AUG"; "SEP"; "OCT"; "NOV"; "DEC"].

(** The events of the Notion side. *)
Definition notion_event (e : Event) : Prop :=
  match e with
  | EvNotionDbQuery _ _ | EvNotionGetPage _ => True
  | _ => False
  end.

(** State [s] comes from [s0] by talking to Notion only: the meta file
    and Discord are as they were and the trace grew by Notion requests. *)
Definition notion_frame (s0 s : State) : Prop :=
  meta_file s = meta_file s0 /\
  discord s = discord s0 /\
  exists t, trace s = trace s0 ++ t /\ Forall notion_event t.

(** A computation that talks to Notion only. *)
Definition notion_only {A} (m : M A) : Prop :=
  forall s, notion_frame s (m s).2.

(** The messages Discord created along a trace. *)
Fixpoint sent (t : list Event) : list (string * Snowflake) :=
  match t with
  | [] => []
  | EvSend thread msgId :: t' => (thread, msgId) :: sent t'
  | _ :: t' => sent t'
  end.

(** How many times the meta file was written along a trace. *)
Fixpoint meta_writes (t : list Event) : nat :=
  match t with
  | [] => 0
  | EvMetaWrite :: t' => S (meta_writes t')
  | _ :: t' => meta_writes t'
  end.

(** The content of the meta file as the program reads it. *)
Definition meta_of (s : State) : gmap string MetaEntry := default ∅ (meta_file s).

(** The payload [publishSchedule] edits the message to. *)
Definition schedule_payload (embed : Embed) : Message :=
  {| content := ""; embeds := [embed] |}.

(** Message [msgId] exists in thread [thread]. *)
Definition has_message (s : State) (thread : string) (msgId : Snowflake) : Prop :=
  exists msgs, channels (discord s) !! thread = Some (Some msgs) /\ is_Some (msgs !! msgId).

(** A run of 32 hexadecimal digits. *)
Definition hex_run32 (id : string) : Prop :=
  String.length id = 32%nat /\ all_hex id = true.

(** The start of a raw record's Date property, when it is usable. *)
Definition row_date (row : Page) : option string :=
  dateStart (prop_get NOTION_PROPS_date (default [] (properties row))).

(** The title a raw record is given. *)
Definition row_title (row : Page) : string :=
  JsString.or_else
    (titlePlain (prop_get NOTION_PROPS_title (default [] (properties row))))
    "(Untitled)".

(** Title and instant of the record a raw record with a date becomes. *)
Definition row_key (row : Page) : option (string * Z) :=
  (fun ds => (row_title row, Date_parse ds)) <$> row_date row.

Definition item_key (it : Item) : string * Z := (title it, dateObj it).

(** The keys of a list that are of instant [d], in order. *)
Definition at_instant (d : Z) (keys : list (string * Z)) : list (string * Z) :=
  List.filter (fun k => k.2 =? d) keys.

(** The database answers every query with the rows [rows]. *)
Definition answers_with (W : Notion) (databaseId : string) (rows : list Page) : Prop :=
  forall body, exists status message,
    res_ok status = true /\
    databases W databaseId body
      = Response status (Some {| results := Some rows |}) message.

(** The line [fmtLine] builds, before it is trimmed. *)
Definition untrimmed_line (evt : Item) : string :=
  let d := dateObj evt in
  let mon := JsString.toUpperCase (JsDate.toLocale_month_short LocalTZA d) in
  let day := JsString.padStart0 2 (pretty (JsDate.getDate LocalTZA d)) in
  let timePart := if JsString.truthy (timeText evt) then " | " +:+ timeText evt else "" in
  let emoji :=
    if String.eqb (type evt) "Birthday" then "🎂 " else
    if String.eqb (type evt) "Comeback" then "🔔 " else
    if String.eqb (type evt) "Release" then "💿 " else
    if String.eqb (type evt) "Event" then "📍 " else
    "" in
  let metaParts :=
    (if JsString.truthy (artistText evt) then [artistText evt] else []) ++
    (if JsString.truthy (memberText evt) then [memberText evt] else []) ++
    (if JsString.truthy (location evt) then [location evt] else []) in
  let meta :=
    match metaParts with
    | [] => ""
    | _ => " — " +:+ JsString.join " • " metaParts
    end in
  let link := if JsString.truthy (link evt) then " · " +:+ link evt else "" in
  "[" +:+ mon +:+ " " +:+ day +:+ timePart +:+ "] " +:+ emoji +:+ title evt +:+ meta +:+ link.

(** The bracketed date of a line: [MON DD], with the time label when
    there is one. *)
Definition line_head (evt : Item) : string :=
  let d := dateObj evt in
  "[" +:+ JsString.toUpperCase (JsDate.toLocale_month_short LocalTZA d) +:+ " "
      +:+ JsString.padStart0 2 (pretty (JsDate.getDate LocalTZA d))
      +:+ (if JsString.truthy (timeText evt) then " | " +:+ timeText evt else "")
      +:+ "]".

Fixpoint has_char (c : ascii) (s : string) : bool :=
  match s with
  | EmptyString => false
  | String a s' => Ascii.eqb a c || has_char c s'
  end.

(** [monthKeyFromDate(d)]; the parts of an invalid date print as NaN. *)
Definition monthKeyFromDate (d : option Z) : string :=
  let y := JsDate.getFullYear LocalTZA <$> d in
  let m := JsString.padStart0 2
             (print_number ((fun m => m + 1) <$> (JsDate.getMonth LocalTZA <$> d))) in
  print_number y +:+ "-" +:+ m.

(** The month keys the sync command computes from the present instant:
    this month, last month and next month. *)
Definition sync_month_keys (now : Z) : string * string * string :=
  let Y := Some (JsDate.getFullYear LocalTZA now) in
  (monthKeyFromDate (Some now),
   monthKeyFromDate
     (JsDate.new_Date_local LocalTZA Y (Some (JsDate.getMonth LocalTZA now - 1)) 1),
   monthKeyFromDate
     (JsDate.new_Date_local LocalTZA Y (Some (JsDate.getMonth LocalTZA now + 1)) 1)).

(** The host keeps one offset from UTC all year. *)
Definition fixed_offset (off : Z) : Prop :=
  (forall t utc, LocalTZA t utc = off) /\ Z.abs off <= JsDate.msPerDay.

(** [f] holds of the [n] integers from [z] on. *)
Fixpoint all_from (f : Z -> bool) (n : nat) (z : Z) : bool :=
  match n with
  | O => true
  | S n' => f z && all_from f n' (z + 1)
  end.

(** Equality of calendar dates: year, month (0-based), day of the month. *)
Definition civil_eqb (a b : Z * Z * Z) : bool :=
  (a.1.1 =? b.1.1) && (a.1.2 =? b.1.2) && (a.2 =? b.2).

(** Walks [n] days from [day], which lies in month [m] of year [y], a
    month that starts on day [S] and ends before day [E], and compares
    the calendar date of each day with the one the walk has reached. *)
Fixpoint walk_days (n : nat) (day y m S E : Z) : bool :=
  match n with
  | O => true
  | S n' =>
      if day <? E then
        civil_eqb (JsDate.civil_from_days day) (y, m, day - S + 1) &&
        walk_days n' (day + 1) y m S E
      else
        let y' := if m =? 11 then y + 1 else y in
        let m' := if m =? 11 then 0 else m + 1 in
        let E' := JsDate.MakeDay y' (m' + 1) 1 in
        (E =? JsDate.MakeDay y' m' 1) && (E <? E') &&
        civil_eqb (JsDate.civil_from_days day) (y', m', 1) &&
        walk_days n' (day + 1) y' m' E E'
  end.

(** Day [day] has the calendar date [c]: it is day [c.2] of a month
    that starts on or before it, and the first day of the following
    month comes after it. *)
Definition in_month (day : Z) (c : Z * Z * Z) : Prop :=
  0 <= c.1.2 <= 11 /\ 1 <= c.2 /\
  JsDate.MakeDay c.1.1 c.1.2 1 + (c.2 - 1) = day /\
  day < JsDate.MakeDay c.1.1 (c.1.2 + 1) 1.

(** A calendar date [q] times 400 years later. *)
Definition shift_years (q : Z) (c : Z * Z * Z) : Z * Z * Z :=
  (c.1.1 + 400 * q, c.1.2, c.2).

(** The characters a numeric literal can begin with: a digit, a sign,
    a point, or the I of Infinity. *)
Definition begins_number (c : ascii) : bool :=
  existsb (Ascii.eqb c) (list_ascii_of_string "0123456789+-.I").

(** A string that [Number] reads as NaN whatever it goes on with: after
    the blanks it may begin with comes a character that no numeric
    literal begins with. *)
Definition starts_no_number (s : string) : bool :=
  match JsString.trimStart s with
  | String c _ => negb (begins_number c)
  | EmptyString => false
  end.

(** *** Proof automation *)

(** Runs the creation path of [ensureScheduleMessage] on the state at
    hand. *)
Ltac run_create :=
  unfold create_message, send, saveMetaAll, bind, log, modify, gets, ret, throw; simpl.

(** ** Properties *)

(** *** The resolver *)

Lemma notionRequest_run {A} (empty : A) ev r s :
  notionRequest empty ev r s = (request_outcome empty r, append_trace ev s).
Proof.
  unfold notionRequest, bind, log, modify, request_outcome; simpl.
  destruct r as [|st data msg]; [reflexivity|].
  destruct (res_ok st); reflexivity.
Qed.

Lemma or_else_empty s : JsString.or_else s "" = s.
Proof. destruct s; reflexivity. Qed.

Lemma getPageTitleCached_hit W pageId s t :
  pageTitleCache s !! pageId = Some t ->
  getPageTitleCached W pageId s = (Ok t, s).
Proof.
  intros H. unfold getPageTitleCached, bind, gets; simpl. rewrite H. reflexivity.
Qed.

Lemma getPageTitleCached_miss W pageId s :
  pageTitleCache s !! pageId = None ->
  getPageTitleCached W pageId s =
    match fetched_title W pageId with
    | Ok t => (Ok t, set_cache (<[pageId := t]> (pageTitleCache s))
                       (append_trace (EvNotionGetPage pageId) s))
    | Throw e => (Throw e, append_trace (EvNotionGetPage pageId) s)
    end.
Proof.
  intros H. unfold getPageTitleCached, bind, gets; simpl. rewrite H.
  unfold notionGetPage, fetched_title. rewrite notionRequest_run.
  destruct (request_outcome _ _) as [page|e]; [|reflexivity].
  rewrite or_else_empty. reflexivity.
Qed.

Lemma getPageTitleCached_cache_grows W pageId s r s' :
  getPageTitleCached W pageId s = (r, s') ->
  forall k, is_Some (pageTitleCache s !! k) -> is_Some (pageTitleCache s' !! k).
Proof.
  intros H k Hk.
  destruct (pageTitleCache s !! pageId) as [t|] eqn:E.
  - rewrite (getPageTitleCached_hit _ _ _ _ E) in H. by inversion H; subst.
  - rewrite (getPageTitleCached_miss _ _ _ E) in H.
    destruct (fetched_title W pageId); inversion H; subst; simpl; [|done].
    destruct (decide (pageId = k)) as [->|Hne].
    + rewrite lookup_insert_eq. eauto.
    + by rewrite lookup_insert_ne.
Qed.

Lemma getPageTitleCached_resolvable W pageId s :
  resolvable W s pageId -> exists t s', getPageTitleCached W pageId s = (Ok t, s').
Proof.
  intros [[t Ht]|[t Ht]].
  - exists t, s. by apply getPageTitleCached_hit.
  - destruct (pageTitleCache s !! pageId) as [t'|] eqn:E.
    + exists t', s. by apply getPageTitleCached_hit.
    + rewrite (getPageTitleCached_miss _ _ _ E), Ht. eauto.
Qed.

(** What the resolution loop adds to [names]: at most one non-empty name
    per identifier. *)
Lemma resolve_loop_ok W sliced : forall names s names' s',
  resolve_loop W sliced names s = (Ok names', s') ->
  exists extra, names' = names ++ extra /\
    (length extra <= length sliced)%nat /\
    Forall (fun t => JsString.truthy t = true) extra.
Proof.
  induction sliced as [|pid rest IH]; intros names s names' s' H; simpl in H.
  - inversion H; subst. exists []. rewrite app_nil_r. repeat split; auto.
  - unfold bind in H.
    destruct (getPageTitleCached W pid s) as [[t|e] s1]; [|discriminate].
    apply IH in H as (extra & -> & Hlen & Hall).
    destruct (JsString.truthy t) eqn:Ht.
    + exists (t :: extra). rewrite <- app_assoc. simpl.
      repeat split; [lia | by constructor].
    + exists extra. repeat split; [simpl; lia | done].
Qed.

Lemma resolve_loop_returns W sliced : forall names s,
  (forall pid, In pid sliced -> resolvable W s pid) ->
  exists names' s', resolve_loop W sliced names s = (Ok names', s').
Proof.
  induction sliced as [|pid rest IH]; intros names s Hres; simpl.
  - by exists names, s.
  - unfold bind.
    destruct (getPageTitleCached_resolvable W pid s) as (t & s1 & E);
      [apply Hres; by left|].
    rewrite E. apply IH. intros k Hk.
    destruct (Hres k (or_intror Hk)) as [Hc|Hf]; [left|by right].
    eapply getPageTitleCached_cache_grows; eauto.
Qed.

Lemma slice0_length {A} (ids : list A) (max : Z) :
  0 <= max -> Z.of_nat (length (slice0 ids max)) = Z.min max (Z.of_nat (length ids)).
Proof.
  intros H. unfold slice0.
  destruct (max <? 0) eqn:E; [lia|].
  rewrite length_take. lia.
Qed.

(** C5. For a display count [max], [resolveRelationNames] returns
    whenever the identifiers it looks at resolve, and what it returns has
    at most [max + 1] names; with [max = 2] and five identifiers there
    are at most three names, the list ends with the marker "+3", and a
    third name, when present, is exactly "+3". *)
Theorem resolveRelationNames_bounded W prop (max : nat) s :
  let ids := relationIds prop in
  ((forall pid, In pid (slice0 ids (Z.of_nat max)) -> resolvable W s pid) ->
   exists names s', resolveRelationNames W prop (Z.of_nat max) s = (Ok names, s')) /\
  (forall names s',
     resolveRelationNames W prop (Z.of_nat max) s = (Ok names, s') ->
     (length names <= max + 1)%nat /\
     (max = 2%nat -> length ids = 5%nat ->
      (length names <= 3)%nat /\
      last names = Some "+3" /\
      forall x, names !! 2%nat = Some x -> x = "+3")).
Proof.
  intros ids. unfold resolveRelationNames. fold ids.
  assert (0 <= Z.of_nat max) as Hmax by lia.
  split.
  - intros Hres. destruct ids as [|i0 ids'] eqn:Eids; [by exists [], s|].
    unfold bind.
    destruct (resolve_loop_returns W (slice0 (i0 :: ids') (Z.of_nat max)) [] s Hres)
      as (names & s1 & E).
    rewrite E. eauto.
  - intros names s' H.
    destruct ids as [|i0 ids'] eqn:Eids.
    { inversion H; subst. simpl. split; [lia|]. intros _ Hlen. discriminate. }
    unfold bind in H.
    destruct (resolve_loop W (slice0 (i0 :: ids') (Z.of_nat max)) [] s)
      as [[got|e] s1] eqn:E; [|discriminate].
    apply resolve_loop_ok in E as (extra & -> & Hlen & _).
    assert (Hsl := slice0_length (i0 :: ids') (Z.of_nat max) Hmax).
    remember (i0 :: ids') as l eqn:El. rewrite app_nil_l in H.
    inversion H; subst names s1; clear H.
    split.
    + destruct (Z.of_nat (length l) >? Z.of_nat max) eqn:Hgt.
      * rewrite length_app. simpl. lia.
      * lia.
    + intros -> Hfive. rewrite Hfive in *. simpl.
      assert (length extra <= 2)%nat as Hle by lia.
      rewrite length_app, last_snoc. simpl.
      repeat split; [lia|].
      intros x Hx.
      destruct extra as [|a [|b [|c extra]]]; simpl in *; try lia;
        try discriminate; by inversion Hx.
Qed.

Lemma getPageTitleCached_cache_other W pageId s r s' k :
  getPageTitleCached W pageId s = (r, s') -> k <> pageId ->
  pageTitleCache s' !! k = pageTitleCache s !! k.
Proof.
  intros H Hne.
  destruct (pageTitleCache s !! pageId) as [t|] eqn:E.
  - rewrite (getPageTitleCached_hit _ _ _ _ E) in H. by inversion H; subst.
  - rewrite (getPageTitleCached_miss _ _ _ E) in H.
    destruct (fetched_title W pageId); inversion H; subst; simpl; [|done].
    by rewrite lookup_insert_ne.
Qed.

Lemma getPageTitleCached_title W pageId s t s' :
  getPageTitleCached W pageId s = (Ok t, s') ->
  t = title_of W s pageId /\ forall k, title_of W s' k = title_of W s k.
Proof.
  intros H. unfold title_of.
  destruct (pageTitleCache s !! pageId) as [t0|] eqn:E.
  - rewrite (getPageTitleCached_hit _ _ _ _ E) in H. by inversion H; subst.
  - rewrite (getPageTitleCached_miss _ _ _ E) in H.
    destruct (fetched_title W pageId) as [t1|e] eqn:F; inversion H; subst; simpl.
    split; [done|]. intros k.
    destruct (decide (pageId = k)) as [<-|Hne].
    + by rewrite lookup_insert_eq, E, F.
    + by rewrite lookup_insert_ne.
Qed.

Lemma resolve_loop_app W l1 : forall l2 names s,
  resolve_loop W (l1 ++ l2) names s =
  bind (resolve_loop W l1 names) (fun n => resolve_loop W l2 n) s.
Proof.
  induction l1 as [|pid l1 IH]; intros l2 names s; simpl; [reflexivity|].
  unfold bind.
  destruct (getPageTitleCached W pid s) as [[t|e] s1]; [|reflexivity].
  rewrite IH. reflexivity.
Qed.

Lemma resolve_loop_cache_other W l k : forall names s r s',
  resolve_loop W l names s = (r, s') -> ~ In k l ->
  pageTitleCache s' !! k = pageTitleCache s !! k.
Proof.
  induction l as [|pid l IH]; intros names s r s' H Hk; simpl in H.
  - by inversion H.
  - unfold bind in H.
    destruct (getPageTitleCached W pid s) as [[t|e] s1] eqn:E.
    + rewrite (IH _ _ _ _ H); [|intros ?; apply Hk; by right].
      eapply getPageTitleCached_cache_other; [exact E|].
      intros ->. apply Hk. by left.
    + inversion H; subst.
      eapply getPageTitleCached_cache_other; [exact E|].
      intros ->. apply Hk. by left.
Qed.

Lemma resolve_loop_titles W sliced : forall names s names' s',
  resolve_loop W sliced names s = (Ok names', s') ->
  names' = names ++ List.filter JsString.truthy (List.map (title_of W s) sliced).
Proof.
  induction sliced as [|pid rest IH]; intros names s names' s' H; simpl in H.
  - inversion H. by rewrite app_nil_r.
  - unfold bind in H.
    destruct (getPageTitleCached W pid s) as [[t|e] s1] eqn:E; [|discriminate].
    apply getPageTitleCached_title in E as [-> Hsame].
    apply IH in H. simpl.
    rewrite (map_ext _ _ Hsame) in H.
    destruct (JsString.truthy (title_of W s pid)); [|done].
    by rewrite <- app_assoc in H.
Qed.

(** C1, as the program has it.  A page fetch that fails while
    [resolveRelationNames] walks the first [max] identifiers is thrown out
    of the call, which then returns no names at all; when every one of
    those identifiers resolves, the call returns their non-empty titles in
    order, followed by the overflow marker: an identifier is left out
    only because its title is empty. *)
Theorem resolveRelationNames_fetch_failure_propagates W prop max s :
  let ids := relationIds prop in
  let sliced := slice0 ids max in
  (forall pre pid post e,
     sliced = pre ++ pid :: post ->
     (forall k, In k pre -> resolvable W s k) ->
     pageTitleCache s !! pid = None ->
     fetched_title W pid = Throw e ->
     exists s', resolveRelationNames W prop max s = (Throw e, s')) /\
  ((forall k, In k sliced -> resolvable W s k) ->
   exists s', resolveRelationNames W prop max s =
     (Ok (List.filter JsString.truthy (List.map (title_of W s) sliced)
          ++ overflow_marker ids max), s')).
Proof.
  intros ids sliced. unfold resolveRelationNames. fold ids. split.
  - intros pre pid post e Hsl Hpre Hmiss Hfail.
    destruct ids as [|i0 ids'] eqn:Eids.
    { subst sliced. unfold slice0 in Hsl. rewrite take_nil in Hsl.
      by destruct pre. }
    unfold bind. fold sliced. rewrite Hsl, resolve_loop_app. unfold bind.
    destruct (resolve_loop_returns W pre [] s Hpre) as (got & s1 & E).
    rewrite E.
    assert (~ In pid pre) as Hnot.
    { intros Hin. destruct (Hpre _ Hin) as [[t Ht]|[t Ht]]; congruence. }
    assert (pageTitleCache s1 !! pid = None) as Hmiss1.
    { by rewrite (resolve_loop_cache_other _ _ _ _ _ _ _ E Hnot). }
    simpl. unfold bind.
    rewrite (getPageTitleCached_miss _ _ _ Hmiss1), Hfail. eauto.
  - intros Hres. unfold overflow_marker.
    destruct ids as [|i0 ids'] eqn:Eids.
    { exists s. subst sliced. unfold slice0. by rewrite take_nil. }
    unfold bind. fold sliced.
    destruct (resolve_loop_returns W sliced [] s Hres) as (got & s1 & E).
    rewrite E. apply resolve_loop_titles in E. simpl in E. subst got.
    exists s1. destruct (_ >? _); [reflexivity|]. by rewrite app_nil_r.
Qed.

(** *** The re-sort *)

Lemma insert_by_date_perm x l : Permutation (insert_by_date x l) (x :: l).
Proof.
  induction l as [|y l IH]; simpl; [done|].
  destruct (dateObj y <? dateObj x); [|done].
  rewrite IH. apply perm_swap.
Qed.

Lemma sort_by_date_perm l : Permutation (sort_by_date l) l.
Proof.
  induction l as [|x l IH]; simpl; [done|].
  rewrite insert_by_date_perm. by constructor.
Qed.

Lemma insert_by_date_sorted x l :
  StronglySorted date_le l -> StronglySorted date_le (insert_by_date x l).
Proof.
  induction 1 as [|y l Hs IH Hall]; simpl.
  - repeat constructor.
  - destruct (dateObj y <? dateObj x) eqn:E.
    + constructor; [exact IH|].
      rewrite insert_by_date_perm. constructor; [|exact Hall].
      unfold date_le. lia.
    + constructor; [by constructor|].
      constructor; [unfold date_le; lia|].
      eapply Forall_impl; [exact Hall|].
      unfold date_le. intros z Hz. lia.
Qed.

Lemma sort_by_date_sorted l : StronglySorted date_le (sort_by_date l).
Proof.
  induction l as [|x l IH]; simpl; [constructor|].
  by apply insert_by_date_sorted.
Qed.

(** *** The shape of a successful query *)

Lemma queryNotionForMonth_unfold W databaseId monthKey s :
  queryNotionForMonth W databaseId monthKey s =
  match monthStartEnd monthKey with
  | (Some on_or_after, Some before) =>
      let body := month_query on_or_after before in
      let s1 := append_trace (EvNotionDbQuery databaseId body) (set_cache ∅ s) in
      match request_outcome {| results := None |} (databases W databaseId body) with
      | Ok res =>
          match normalize_loop W (default [] (results res)) [] s1 with
          | (Ok raw, s2) => (Ok (sort_by_date raw), s2)
          | (Throw e, s2) => (Throw e, s2)
          end
      | Throw e => (Throw e, s1)
      end
  | _ => (Throw RangeError, set_cache ∅ s)
  end.
Proof.
  unfold queryNotionForMonth.
  destruct (monthStartEnd monthKey) as [st en].
  unfold bind at 1. simpl.
  destruct st as [oa|]; [|by destruct en]. unfold bind at 1. simpl.
  destruct en as [bf|]; [|reflexivity]. unfold bind at 1. simpl.
  unfold bind at 1. unfold notionDbQuery. rewrite notionRequest_run.
  fold (month_query oa bf).
  destruct (request_outcome _ _) as [res|e] eqn:Eres; [|reflexivity].
  unfold bind at 1.
  destruct (normalize_loop _ _ _ _) as [[raw|e] s1]; reflexivity.
Qed.


Lemma queryNotionForMonth_inv W databaseId monthKey s items s' :
  queryNotionForMonth W databaseId monthKey s = (Ok items, s') ->
  exists on_or_after before res raw,
    monthStartEnd monthKey = (Some on_or_after, Some before) /\
    request_outcome {| results := None |}
      (databases W databaseId (month_query on_or_after before)) = Ok res /\
    normalize_loop W (default [] (results res)) []
      (append_trace (EvNotionDbQuery databaseId (month_query on_or_after before))
         (set_cache ∅ s)) = (Ok raw, s') /\
    items = sort_by_date raw.
Proof.
  unfold queryNotionForMonth.
  destruct (monthStartEnd monthKey) as [st en].
  unfold bind at 1. simpl.
  destruct st as [oa|]; [|discriminate]. unfold bind at 1. simpl.
  destruct en as [bf|]; [|discriminate]. unfold bind at 1. simpl.
  unfold bind at 1. unfold notionDbQuery. rewrite notionRequest_run.
  fold (month_query oa bf).
  destruct (request_outcome _ _) as [res|e] eqn:Eres; [|discriminate].
  unfold bind at 1.
  destruct (normalize_loop _ _ _ _) as [[raw|e] s1] eqn:Eloop; [|discriminate].
  intros H. inversion H; subst.
  exists oa, bf, res, raw. done.
Qed.

(** C2. Whatever page of results Notion answers with, in whatever order,
    the records [queryNotionForMonth] returns are in non-decreasing order
    of [dateObj]. *)
Theorem queryNotionForMonth_sorted W databaseId monthKey s items s' :
  queryNotionForMonth W databaseId monthKey s = (Ok items, s') ->
  StronglySorted date_le items.
Proof.
  intros H. apply queryNotionForMonth_inv in H as (_ & _ & _ & raw & _ & _ & _ & ->).
  apply sort_by_date_sorted.
Qed.

(** *** Records without a date *)

Lemma normalize_loop_skip W rows1 page rows2 :
  undated page ->
  forall items s,
    normalize_loop W (rows1 ++ page :: rows2) items s =
    normalize_loop W (rows1 ++ rows2) items s.
Proof.
  intros Hp. induction rows1 as [|r rows1 IH]; intros items s; simpl.
  - unfold undated in Hp. by rewrite Hp.
  - destruct (dateStart _); [|apply IH].
    unfold bind.
    destruct (resolveRelationNames W _ 2 s) as [[a|e] s1]; [|reflexivity].
    destruct (resolveRelationNames W _ 2 s1) as [[m|e] s2]; [|reflexivity].
    apply IH.
Qed.

Section SamePages.

Variables W W' : Notion.
Hypothesis same_pages : forall pid, pages W' pid = pages W pid.

Lemma getPageTitleCached_same_pages pid s :
  getPageTitleCached W' pid s = getPageTitleCached W pid s.
Proof.
  unfold getPageTitleCached, notionGetPage. by rewrite same_pages.
Qed.

Lemma resolve_loop_same_pages sliced : forall names s,
  resolve_loop W' sliced names s = resolve_loop W sliced names s.
Proof.
  induction sliced as [|pid rest IH]; intros names s; simpl; [reflexivity|].
  unfold bind. rewrite getPageTitleCached_same_pages.
  destruct (getPageTitleCached W pid s) as [[t|e] s1]; [apply IH|reflexivity].
Qed.

Lemma resolveRelationNames_same_pages prop max s :
  resolveRelationNames W' prop max s = resolveRelationNames W prop max s.
Proof.
  unfold resolveRelationNames.
  destruct (relationIds prop); [reflexivity|].
  unfold bind. by rewrite resolve_loop_same_pages.
Qed.

Lemma normalize_loop_same_pages rows : forall items s,
  normalize_loop W' rows items s = normalize_loop W rows items s.
Proof.
  induction rows as [|r rows IH]; intros items s; simpl; [reflexivity|].
  destruct (dateStart _); [|apply IH].
  unfold bind. rewrite resolveRelationNames_same_pages.
  destruct (resolveRelationNames W _ 2 s) as [[a|e] s1]; [|reflexivity].
  rewrite resolveRelationNames_same_pages.
  destruct (resolveRelationNames W _ 2 s1) as [[m|e] s2]; [|reflexivity].
  apply IH.
Qed.

End SamePages.

(** C7. A raw record whose date is unusable leaves no mark: the query
    over a page of results that contains it, and the publication that
    follows, are exactly (records, rendered message, errors, requests
    made and final state) the ones over the same results without it. *)
Theorem undated_record_dropped W W' databaseId monthKey rows1 page rows2 :
  undated page ->
  (forall pid, pages W' pid = pages W pid) ->
  (forall body, exists status message,
     databases W databaseId body =
       Response status (Some {| results := Some (rows1 ++ page :: rows2) |}) message /\
     databases W' databaseId body =
       Response status (Some {| results := Some (rows1 ++ rows2) |}) message) ->
  (forall s,
     queryNotionForMonth W databaseId monthKey s =
     queryNotionForMonth W' databaseId monthKey s) /\
  (forall threadId metaKey tzLabel s,
     publishSchedule W threadId databaseId monthKey metaKey tzLabel s =
     publishSchedule W' threadId databaseId monthKey metaKey tzLabel s).
Proof.
  intros Hp Hpages Hdb.
  assert (forall s, queryNotionForMonth W databaseId monthKey s =
                    queryNotionForMonth W' databaseId monthKey s) as Hq.
  { intros s. rewrite !queryNotionForMonth_unfold.
    destruct (monthStartEnd monthKey) as [[oa|] [bf|]]; try reflexivity.
    cbv zeta.
    destruct (Hdb (month_query oa bf)) as (st & msg & -> & ->).
    unfold request_outcome. destruct (res_ok st); [|reflexivity].
    simpl default.
    rewrite (normalize_loop_skip W _ _ _ Hp).
    by rewrite (normalize_loop_same_pages W W' Hpages). }
  split; [exact Hq|].
  intros threadId metaKey tzLabel s. unfold publishSchedule.
  destruct (configured threadId); [|reflexivity].
  unfold bind at 1 3. by rewrite Hq.
Qed.

(** *** One request per identifier *)

Lemma page_fetches_app t1 t2 :
  page_fetches (t1 ++ t2) = page_fetches t1 ++ page_fetches t2.
Proof.
  induction t1 as [|e t1 IH]; simpl; [reflexivity|].
  destruct e; simpl; by rewrite ?IH.
Qed.

Lemma NoDup_fetch_count pid t : NoDup (page_fetches t) -> (fetch_count pid t <= 1)%nat.
Proof.
  unfold fetch_count. generalize (page_fetches t) as l.
  induction 1 as [|x l Hx Hnd IH]; simpl; [lia|].
  destruct (String.eqb pid x) eqn:E; [|exact IH].
  apply String.eqb_eq in E. subst x. simpl.
  assert (List.filter (String.eqb pid) l = []) as ->; [|simpl; lia].
  clear -Hx. induction l as [|y l IH]; simpl; [reflexivity|].
  destruct (String.eqb pid y) eqn:E.
  - apply String.eqb_eq in E. subst. exfalso. apply Hx. by left.
  - apply IH. intros ?. apply Hx. by right.
Qed.

(** What each step of the query preserves carries over to the loops
    built from [getPageTitleCached]. *)
Section Preservation.

Variables P Q : State -> Prop.

Lemma preserves_ret {A} (a : A) : preserves P Q (ret a).
Proof. intros s H. exact H. Qed.

Lemma preserves_bind {A B} (m : M A) (k : A -> M B) :
  preserves P Q m -> (forall a, preserves P Q (k a)) -> preserves P Q (bind m k).
Proof.
  intros Hm Hk s H. unfold bind. specialize (Hm s H).
  destruct (m s) as [[a|e] s1]; [|exact Hm].
  apply Hk, Hm.
Qed.

Variable W : Notion.
Hypothesis preserves_fetch : forall pid, preserves P Q (getPageTitleCached W pid).

Lemma preserves_resolve_loop sliced : forall names,
  preserves P Q (resolve_loop W sliced names).
Proof.
  induction sliced as [|pid rest IH]; intros names; simpl.
  - apply preserves_ret.
  - apply preserves_bind; [apply preserves_fetch|].
    intros t. apply IH.
Qed.

Lemma preserves_resolveRelationNames prop max :
  preserves P Q (resolveRelationNames W prop max).
Proof.
  unfold resolveRelationNames. destruct (relationIds prop).
  - apply preserves_ret.
  - apply preserves_bind; [apply preserves_resolve_loop|].
    intros names. apply preserves_ret.
Qed.

Lemma preserves_normalize_loop rows : forall items,
  preserves P Q (normalize_loop W rows items).
Proof.
  induction rows as [|r rows IH]; intros items; simpl.
  - apply preserves_ret.
  - destruct (dateStart _); [|apply IH].
    apply preserves_bind; [apply preserves_resolveRelationNames|].
    intros a.
    apply preserves_bind; [apply preserves_resolveRelationNames|].
    intros m. apply IH.
Qed.

End Preservation.

Lemma getPageTitleCached_tracks W t0 pid :
  preserves (cache_tracks t0) (fetched_once t0) (getPageTitleCached W pid).
Proof.
  intros s H.
  destruct (pageTitleCache s !! pid) as [t|] eqn:E.
  - by rewrite (getPageTitleCached_hit _ _ _ _ E).
  - rewrite (getPageTitleCached_miss _ _ _ E).
    destruct H as (t & Htr & Hnd & Hdom).
    assert (~ In pid (page_fetches t)) as Hfresh.
    { intros Hin. apply Hdom in Hin as [? ?]. congruence. }
    assert (NoDup (page_fetches (t ++ [EvNotionGetPage pid]))) as Hnd'.
    { rewrite page_fetches_app. simpl. apply NoDup_app. repeat split; [done| |].
      - intros x Hx Hx'. apply list_elem_of_In in Hx, Hx'.
        destruct Hx' as [<-|[]]. done.
      - apply NoDup_singleton. }
    destruct (fetched_title W pid) as [title|e].
    + exists (t ++ [EvNotionGetPage pid]). simpl.
      split; [by rewrite Htr, app_assoc|]. split; [exact Hnd'|].
      intros k. rewrite page_fetches_app, in_app_iff. simpl.
      destruct (decide (pid = k)) as [<-|Hne].
      * rewrite lookup_insert_eq. split; eauto.
      * rewrite lookup_insert_ne by done. rewrite Hdom. tauto.
    + exists (t ++ [EvNotionGetPage pid]). simpl.
      split; [by rewrite Htr, app_assoc|]. split; [exact Hnd'|].
      intros k Hk. rewrite page_fetches_app, in_app_iff. left. by apply Hdom.
Qed.

(** C9. [queryNotionForMonth] starts from an empty cache, whatever the
    cache held before: its outcome does not depend on the earlier cache,
    whatever the cache holds afterwards was requested during this call,
    and after a successful call it holds every page requested.  Within
    the call no page is requested twice, however often and in whichever
    relation its identifier occurs. *)
Theorem queryNotionForMonth_one_fetch_per_id W databaseId monthKey s :
  (forall cache,
     queryNotionForMonth W databaseId monthKey (set_cache cache s) =
     queryNotionForMonth W databaseId monthKey s) /\
  exists t,
    trace (queryNotionForMonth W databaseId monthKey s).2 = trace s ++ t /\
    (forall pid, (fetch_count pid t <= 1)%nat) /\
    (forall pid,
       is_Some (pageTitleCache (queryNotionForMonth W databaseId monthKey s).2 !! pid) ->
       In pid (page_fetches t)) /\
    (forall items,
       (queryNotionForMonth W databaseId monthKey s).1 = Ok items ->
       forall pid,
         In pid (page_fetches t) ->
         is_Some (pageTitleCache (queryNotionForMonth W databaseId monthKey s).2 !! pid)).
Proof.
  split.
  { intros cache. rewrite !queryNotionForMonth_unfold. reflexivity. }
  assert (forall pid, ~ is_Some ((∅ : gmap string string) !! pid)) as Hempty.
  { intros pid [x Hx]. by rewrite lookup_empty in Hx. }
  rewrite queryNotionForMonth_unfold.
  destruct (monthStartEnd monthKey) as [[oa|] [bf|]];
    try (exists []; simpl; rewrite app_nil_r;
         split; [reflexivity|]; split; [intros; unfold fetch_count; simpl; lia|];
         split; [intros pid Hpid; by apply Hempty in Hpid | discriminate]).
  cbv zeta.
  set (ev := EvNotionDbQuery databaseId (month_query oa bf)).
  destruct (request_outcome _ _) as [res|e].
  2:{ exists [ev]. simpl.
      split; [reflexivity|]. split; [intros; unfold fetch_count; simpl; lia|].
      split; [intros pid Hpid; by apply Hempty in Hpid | discriminate]. }
  assert (cache_tracks (trace s ++ [ev]) (append_trace ev (set_cache ∅ s))) as Hinit.
  { exists []. simpl. rewrite app_nil_r. split; [reflexivity|].
    split; [constructor|]. intros pid. split; [intros []|].
    intros Hpid. by apply Hempty in Hpid. }
  pose proof (preserves_normalize_loop _ _ W (getPageTitleCached_tracks W _)
                (default [] (results res)) [] _ Hinit) as H.
  destruct (normalize_loop _ _ _ _) as [[raw|e] s2]; simpl.
  - destruct H as (t & Htr & Hnd & Hdom).
    exists (ev :: t). split; [by rewrite Htr, <- app_assoc|].
    split; [intros pid; by apply (NoDup_fetch_count pid (ev :: t))|].
    split; [intros pid; by apply Hdom|]. intros _ _ pid. by apply Hdom.
  - destruct H as (t & Htr & Hnd & Hsub).
    exists (ev :: t). split; [by rewrite Htr, <- app_assoc|].
    split; [intros pid; by apply (NoDup_fetch_count pid (ev :: t))|].
    split; [exact Hsub | discriminate].
Qed.

(** *** The window *)

Lemma valid_month_key_fields monthKey :
  valid_month_key monthKey = true ->
  exists Y M, month_key_fields monthKey = (Some Y, Some M) /\ 1 <= M <= 12.
Proof.
  unfold valid_month_key, month_key_fields.
  destruct (JsString.split_on "-" monthKey) as [|y [|m [|? ?]]]; try discriminate.
  simpl. intros H.
  destruct (JsString.Number y) as [Y|]; [|by rewrite andb_false_r in H].
  destruct (JsString.Number m) as [M|]; [|by rewrite andb_false_r in H].
  exists Y, M. split; [reflexivity|].
  apply andb_prop in H as [_ H]. apply andb_prop in H as [H1 H2]. lia.
Qed.

Lemma TimeClip_Some t t' : JsDate.TimeClip t = Some t' -> t' = t.
Proof. unfold JsDate.TimeClip. destruct (_ <=? _); congruence. Qed.

(** The end of the window is the first instant of the following month:
    month index 12 of a year is January of the next. *)
Lemma MakeDay_following y m :
  1 <= m <= 12 ->
  JsDate.MakeDay y m 1 =
  JsDate.MakeDay (following_month y m).1 ((following_month y m).2 - 1) 1.
Proof.
  intros Hm. unfold following_month.
  destruct (m =? 12) eqn:E; simpl.
  - apply Z.eqb_eq in E. subst m. unfold JsDate.MakeDay.
    change (12 / 12) with 1. change (12 mod 12) with 0.
    change ((1 - 1) / 12) with 0. change ((1 - 1) mod 12) with 0.
    replace (y + 1 + 0) with (y + 1) by lia. reflexivity.
  - by replace (m + 1 - 1) with m by lia.
Qed.

Lemma normalize_loop_dates W rows : forall items s raw s',
  normalize_loop W rows items s = (Ok raw, s') ->
  forall it, In it raw ->
    In it items \/
    exists page ds, In page rows /\
      dateStart (prop_get NOTION_PROPS_date (default [] (properties page))) = Some ds /\
      dateObj it = Date_parse ds.
Proof.
  induction rows as [|r rows IH]; intros items s raw s' H it Hit; simpl in H.
  - inversion H; subst. by left.
  - destruct (dateStart _) as [ds|] eqn:Eds.
    + unfold bind in H.
      destruct (resolveRelationNames W _ 2 s) as [[a|e] s1]; [|discriminate].
      destruct (resolveRelationNames W _ 2 s1) as [[m|e] s2]; [|discriminate].
      destruct (IH _ _ _ _ H it Hit) as [Hin|(page & ds' & Hp & Hd & Hobj)].
      * apply in_app_or in Hin as [Hin|[<-|[]]]; [by left|].
        right. exists r, ds. simpl. auto.
      * right. exists page, ds'. simpl. auto.
    + destruct (IH _ _ _ _ H it Hit) as [Hin|(page & ds' & Hp & Hd & Hobj)];
        [by left|].
      right. exists page, ds'. simpl. auto.
Qed.

(** C4. For a month key YYYY-MM, against a database that honours the
    date filter, every record [queryNotionForMonth] returns has its
    [dateObj] on or after local midnight of the first day of that month
    and strictly before local midnight of the first day of the following
    month, which after December is January of the next year.  (The year
    is the one [Date] reads: [full_year Y], which is [Y] from 100 on.) *)
Theorem queryNotionForMonth_in_window W databaseId monthKey s items s' :
  valid_month_key monthKey = true ->
  honours_date_filter W databaseId ->
  queryNotionForMonth W databaseId monthKey s = (Ok items, s') ->
  exists Y M,
    month_key_fields monthKey = (Some Y, Some M) /\ 1 <= M <= 12 /\
    forall it, In it items ->
      first_instant_of_month (JsDate.full_year Y) M <= dateObj it /\
      dateObj it <
        first_instant_of_month (following_month (JsDate.full_year Y) M).1
                               (following_month (JsDate.full_year Y) M).2.
Proof.
  intros Hvalid Hdb Hq.
  destruct (valid_month_key_fields _ Hvalid) as (Y & M & Hf & HM).
  exists Y, M. split; [exact Hf|]. split; [exact HM|].
  apply queryNotionForMonth_inv in Hq as (oa & bf & res & raw & Hwin & Hres & Hloop & ->).
  unfold monthStartEnd in Hwin. rewrite Hf in Hwin. simpl in Hwin.
  inversion Hwin as [[Hoa Hbf]]. clear Hwin.
  apply TimeClip_Some in Hoa, Hbf.
  assert (oa = first_instant_of_month (JsDate.full_year Y) M) as Eoa by exact Hoa.
  assert (bf = first_instant_of_month (following_month (JsDate.full_year Y) M).1
                                      (following_month (JsDate.full_year Y) M).2) as Ebf.
  { rewrite Hbf. unfold first_instant_of_month. by rewrite <- MakeDay_following. }
  clear Hoa Hbf.
  intros it Hit.
  apply (Permutation_in _ (sort_by_date_perm raw)) in Hit.
  destruct (normalize_loop_dates _ _ _ _ _ _ Hloop it Hit)
    as [[]|(page & ds & Hpage & Hds & Hobj)].
  unfold request_outcome in Hres.
  destruct (databases W databaseId (month_query oa bf)) as [|st data msg] eqn:Edb;
    [discriminate|].
  destruct (res_ok st); [|discriminate]. inversion Hres; subst res; clear Hres.
  destruct data as [[[rows|]]|]; simpl in Hpage; try done.
  pose proof (Hdb _ _ _ _ Edb page ds Hpage Hds) as Hin. simpl in Hin.
  rewrite Hobj, <- Eoa, <- Ebf. lia.
Qed.

(** *** Rendering *)

(** C6. One record on the 3rd of the queried month, of category Release,
    titled Album X, with no time, location, link or resolved names,
    renders as the single line [<MON> 03] 💿 Album X: that is the body
    of every embed [buildEmbed] returns for it, and it returns one
    whenever the footer text is within the limit of the builder, as it
    is with the default label. *)
Theorem buildEmbed_release_line monthKey tzLabel evt Y M mon :
  month_key_fields monthKey = (Some Y, Some M) ->
  1 <= M <= 12 ->
  JsDate.getMonth LocalTZA (dateObj evt) = M - 1 ->
  JsDate.getDate LocalTZA (dateObj evt) = 3 ->
  type evt = "Release" ->
  title evt = "Album X" ->
  timeText evt = "" -> location evt = "" -> link evt = "" ->
  artistText evt = "" -> memberText evt = "" ->
  MON !! Z.to_nat (M - 1) = Some mon ->
  (forall embed,
     buildEmbed monthKey [evt] tzLabel = Ok embed ->
     description embed = "[" +:+ mon +:+ " 03] 💿 Album X") /\
  (embed_text_ok 2048 ("Synced from Notion • " +:+ default "KST" tzLabel) = true ->
   exists embed,
     buildEmbed monthKey [evt] tzLabel = Ok embed /\
     description embed = "[" +:+ mon +:+ " 03] 💿 Album X").
Proof.
  intros _ HM Hmonth Hday Hty Hti Htime Hloc Hlink Hart Hmem Hmon.
  assert (fmtLine evt = "[" +:+ mon +:+ " 03] 💿 Album X" /\
          embed_text_ok 4096 ("[" +:+ mon +:+ " 03] 💿 Album X") = true) as [Hline Hfits].
  { unfold fmtLine, JsDate.toLocale_month_short.
    rewrite Hmonth, Hday, Hty, Hti, Htime, Hloc, Hlink, Hart, Hmem.
    assert (M = 1 \/ M = 2 \/ M = 3 \/ M = 4 \/ M = 5 \/ M = 6 \/
            M = 7 \/ M = 8 \/ M = 9 \/ M = 10 \/ M = 11 \/ M = 12) as Hcases by lia.
    repeat destruct Hcases as [->|Hcases]; try subst M;
      vm_compute in Hmon; inversion Hmon; subst mon; split; vm_compute; reflexivity. }
  unfold buildEmbed. cbv zeta. cbn [List.map JsString.join]. rewrite Hline, Hfits.
  set (fits := embed_text_ok 2048 ("Synced from Notion • " +:+ default "KST" tzLabel)).
  split.
  - intros embed H. destruct fits; [|discriminate].
    inversion H; subst embed. reflexivity.
  - intros ->. eexists. split; reflexivity.
Qed.

(** *** An unconfigured scope *)

(** C8. With a thread identifier that is null or empty, [publishSchedule]
    returns 0 and leaves the state as it was: nothing is requested from
    Notion or Discord, nothing is sent, edited or written, nothing is
    thrown. *)
Theorem publishSchedule_unconfigured W databaseId monthKey metaKey tzLabel s :
  publishSchedule W None databaseId monthKey metaKey tzLabel s = (Ok 0, s) /\
  publishSchedule W (Some "") databaseId monthKey metaKey tzLabel s = (Ok 0, s).
Proof. split; reflexivity. Qed.

(** *** The query touches Notion only *)

Lemma notion_frame_refl s : notion_frame s s.
Proof. split; [done|]. split; [done|]. exists []. by rewrite app_nil_r. Qed.

Lemma notion_frame_step s0 s e :
  notion_event e -> notion_frame s0 s -> notion_frame s0 (append_trace e s).
Proof.
  intros He (Hm & Hd & t & Ht & Hall).
  split; [exact Hm|]. split; [exact Hd|].
  exists (t ++ [e]). simpl. rewrite Ht, app_assoc. split; [done|].
  apply Forall_app. by repeat constructor.
Qed.

Lemma getPageTitleCached_notion_frame W s0 pid :
  preserves (notion_frame s0) (notion_frame s0) (getPageTitleCached W pid).
Proof.
  intros s H. destruct (pageTitleCache s !! pid) as [t|] eqn:E.
  - by rewrite (getPageTitleCached_hit _ _ _ _ E).
  - rewrite (getPageTitleCached_miss _ _ _ E).
    destruct (fetched_title W pid);
      exact (notion_frame_step s0 s (EvNotionGetPage pid) I H).
Qed.

Lemma notion_only_queryNotionForMonth W databaseId monthKey :
  notion_only (queryNotionForMonth W databaseId monthKey).
Proof.
  intros s. rewrite queryNotionForMonth_unfold.
  destruct (monthStartEnd monthKey) as [[oa|] [bf|]];
    try (simpl; apply (notion_frame_refl (set_cache ∅ s))).
  cbv zeta. set (ev := EvNotionDbQuery databaseId (month_query oa bf)).
  assert (notion_frame s (append_trace ev (set_cache ∅ s))) as Hinit.
  { exact (notion_frame_step s (set_cache ∅ s) ev I (notion_frame_refl (set_cache ∅ s))). }
  destruct (request_outcome _ _) as [res|e]; [|exact Hinit].
  pose proof (preserves_normalize_loop _ _ W (getPageTitleCached_notion_frame W s)
                (default [] (results res)) [] _ Hinit) as H.
  destruct (normalize_loop _ _ _ _) as [[raw|e] s2]; exact H.
Qed.

Lemma sent_app t1 t2 : sent (t1 ++ t2) = sent t1 ++ sent t2.
Proof.
  induction t1 as [|e t1 IH]; simpl; [reflexivity|].
  destruct e; simpl; by rewrite ?IH.
Qed.

Lemma meta_writes_app t1 t2 : meta_writes (t1 ++ t2) = (meta_writes t1 + meta_writes t2)%nat.
Proof.
  induction t1 as [|e t1 IH]; simpl; [reflexivity|].
  destruct e; simpl; by rewrite ?IH.
Qed.

Lemma notion_events_quiet t :
  Forall notion_event t -> sent t = [] /\ meta_writes t = 0%nat.
Proof.
  induction 1 as [|e t He Hall [IH1 IH2]]; [done|].
  destruct e; simpl in *; done.
Qed.

(** *** The upsert *)

Lemma message_edit_live thread msgId payload s msgs :
  channels (discord s) !! thread = Some (Some msgs) ->
  is_Some (msgs !! msgId) ->
  message_edit thread msgId payload s =
    (Ok tt,
     set_discord {| channels := <[thread := Some (<[msgId := payload]> msgs)]> (channels (discord s));
                    next_id := next_id (discord s) |}
       (append_trace (EvEdit thread msgId payload) s)).
Proof.
  intros H [m Hm]. unfold message_edit, bind, log, modify, gets, ret. simpl.
  by rewrite H, Hm.
Qed.

Lemma ensureScheduleMessage_found thread metaKey s msgId :
  meta_of s !! metaKey = Some {| messageId := msgId |} ->
  has_message s thread msgId ->
  ensureScheduleMessage thread metaKey s =
    (Ok msgId, append_trace (EvMessagesFetch thread msgId) (append_trace EvMetaRead s)).
Proof.
  intros Hmeta (msgs & Hch & [m Hm]).
  unfold ensureScheduleMessage, loadMetaAll, bind, log, modify, gets. simpl.
  unfold meta_of in Hmeta. rewrite Hmeta. simpl.
  unfold try_catch, messages_fetch, bind, log, modify, gets, ret. simpl.
  by rewrite Hch, Hm.
Qed.

(** What holds once [ensureScheduleMessage] has returned a message: the
    meta file binds the key to it and the message exists; the meta file
    was either left as it was or rewritten with that one key patched, and
    at most one message was created. *)
Lemma ensureScheduleMessage_post thread metaKey s msgId s' :
  ensureScheduleMessage thread metaKey s = (Ok msgId, s') ->
  meta_of s' !! metaKey = Some {| messageId := msgId |} /\
  has_message s' thread msgId /\
  pageTitleCache s' = pageTitleCache s /\
  ((meta_file s' = meta_file s /\ discord s' = discord s /\
    meta_of s !! metaKey = Some {| messageId := msgId |} /\
    has_message s thread msgId /\
    trace s' = trace s ++ [EvMetaRead; EvMessagesFetch thread msgId]) \/
   (meta_file s' = Some (<[metaKey := {| messageId := msgId |}]> (meta_of s)) /\
    msgId = next_id (discord s) /\
    (forall m, meta_of s !! metaKey = Some m -> ~ has_message s thread (messageId m)) /\
    exists msgs t,
      channels (discord s) !! thread = Some (Some msgs) /\
      discord s' =
        {| channels :=
             <[thread := Some (<[msgId := {| content := "Initializing schedule…"; embeds := [] |}]> msgs)]>
               (channels (discord s));
           next_id := N.succ msgId |} /\
      trace s' = trace s ++ t /\ sent t = [(thread, msgId)] /\ meta_writes t = 1%nat)).
Proof.
  unfold ensureScheduleMessage, loadMetaAll, bind, log, modify, gets. simpl.
  fold (meta_of s).
  destruct (meta_of s !! metaKey) as [[stored]|] eqn:Emeta; simpl.
  - unfold try_catch, messages_fetch, bind, log, modify, gets, ret, throw. simpl.
    destruct (channels (discord s) !! thread) as [[msgs|]|] eqn:Ech; simpl.
    + destruct (msgs !! stored) as [m|] eqn:Em; simpl.
      * intros H. inversion H; subst. unfold meta_of at 1. simpl. fold (meta_of s).
        split; [done|]. split; [by exists msgs; eauto|]. split; [done|].
        left. rewrite <- app_assoc. repeat split; try done. exists msgs; eauto.
      * run_create.
        rewrite Ech. simpl. intros H. inversion H; subst. simpl.
        unfold meta_of at 1. simpl. rewrite lookup_insert_eq.
        split; [done|]. split.
        { eexists. simpl. rewrite lookup_insert_eq. split; [done|].
          rewrite lookup_insert_eq. eauto. }
        split; [done|]. right. repeat split; try done.
        { intros m Hm (msgs' & Hch' & [x Hx]). inversion Hm; subst. simpl in *.
          rewrite Ech in Hch'. inversion Hch'; subst. congruence. }
        exists msgs. eexists. repeat split.
        { rewrite <- !app_assoc. reflexivity. }
        all: reflexivity.
    + run_create.
      rewrite Ech. discriminate.
    + run_create.
      rewrite Ech. discriminate.
  - run_create.
    destruct (channels (discord s) !! thread) as [[msgs|]|] eqn:Ech; simpl;
      try discriminate.
    intros H. inversion H; subst. simpl.
    unfold meta_of at 1. simpl. rewrite lookup_insert_eq.
    split; [done|]. split.
    { eexists. simpl. rewrite lookup_insert_eq. split; [done|].
      rewrite lookup_insert_eq. eauto. }
    split; [done|]. right. repeat split; try done.
    exists msgs. eexists. repeat split.
    { rewrite <- !app_assoc. reflexivity. }
    all: reflexivity.
Qed.

Lemma publishSchedule_configured W tid databaseId monthKey metaKey tzLabel s :
  JsString.truthy tid = true ->
  publishSchedule W (Some tid) databaseId monthKey metaKey tzLabel s =
  match queryNotionForMonth W databaseId monthKey s with
  | (Ok events, sq) =>
      match channels (discord sq) !! tid with
      | Some (Some _) =>
          let sc := append_trace (EvChannelsFetch tid) sq in
          match ensureScheduleMessage tid metaKey sc with
          | (Ok msg, se) =>
              match buildEmbed monthKey events tzLabel with
              | Ok embed =>
                  match message_edit tid msg (schedule_payload embed) se with
                  | (Ok _, s') => (Ok (Z.of_nat (length events)), s')
                  | (Throw e, s') => (Throw e, s')
                  end
              | Throw e => (Throw e, se)
              end
          | (Throw e, se) => (Throw e, se)
          end
      | Some None => (Throw (ThreadNotFound tid), append_trace (EvChannelsFetch tid) sq)
      | None => (Throw DiscordApiError, append_trace (EvChannelsFetch tid) sq)
      end
  | (Throw e, sq) => (Throw e, sq)
  end.
Proof.
  intros Ht. unfold publishSchedule, configured. rewrite Ht.
  unfold bind at 1.
  destruct (queryNotionForMonth W databaseId monthKey s) as [[events|e] sq]; [|reflexivity].
  unfold bind at 1.
  unfold channels_fetch at 1, bind at 1, log, modify, gets at 1, bind at 1. simpl.
  destruct (channels (discord sq) !! tid) as [[msgs|]|]; reflexivity.
Qed.

(** C3, as the program has it.  Two publications in a row for the same
    thread and key, the first of which succeeds and the second of which
    gets an answer from Notion: after the first, the key owns a message
    that exists in the thread; the second creates nothing (no message
    is sent, no identifier is consumed, the thread holds the same
    messages) and leaves the meta file as it was.  When the render of
    the records of the second query passes the checks of the builder,
    the second publication succeeds and edits that same message to
    that render; when it does not, the second publication throws the
    error of the builder and edits nothing, so that the message keeps
    what it showed. *)
Theorem publishSchedule_twice W1 W2 tid databaseId monthKey metaKey tzLabel
    s0 n1 s1 events2 sq :
  JsString.truthy tid = true ->
  publishSchedule W1 (Some tid) databaseId monthKey metaKey tzLabel s0 = (Ok n1, s1) ->
  queryNotionForMonth W2 databaseId monthKey s1 = (Ok events2, sq) ->
  exists msgId msgs r2 s2,
    meta_of s1 !! metaKey = Some {| messageId := msgId |} /\
    channels (discord s1) !! tid = Some (Some msgs) /\
    is_Some (msgs !! msgId) /\
    publishSchedule W2 (Some tid) databaseId monthKey metaKey tzLabel s1 = (r2, s2) /\
    meta_file s2 = meta_file s1 /\
    next_id (discord s2) = next_id (discord s1) /\
    (exists msgs2,
       channels (discord s2) !! tid = Some (Some msgs2) /\ dom msgs2 = dom msgs) /\
    (exists t, trace s2 = trace s1 ++ t /\ sent t = []) /\
    match buildEmbed monthKey events2 tzLabel with
    | Ok embed2 =>
        r2 = Ok (Z.of_nat (length events2)) /\
        discord s2 =
          {| channels :=
               <[tid := Some (<[msgId := schedule_payload embed2]> msgs)]>
                 (channels (discord s1));
             next_id := next_id (discord s1) |} /\
        (exists msgs2,
           channels (discord s2) !! tid = Some (Some msgs2) /\
           dom msgs2 = dom msgs /\
           msgs2 !! msgId = Some (schedule_payload embed2)) /\
        (exists t,
           trace s2 = trace s1 ++ t /\ sent t = [] /\
           In (EvEdit tid msgId (schedule_payload embed2)) t)
    | Throw e =>
        r2 = Throw e /\
        discord s2 = discord s1 /\
        exists t, trace s2 = trace s1 ++ t /\ sent t = [] /\
          forall m payload, ~ In (EvEdit tid m payload) t
    end.
Proof.
  intros Ht H1 Hq2.
  (* the first publication *)
  rewrite (publishSchedule_configured _ _ _ _ _ _ _ Ht) in H1.
  destruct (queryNotionForMonth W1 databaseId monthKey s0) as [[events1|e] sq1];
    [|discriminate].
  destruct (channels (discord sq1) !! tid) as [[msgs0|]|] eqn:Ech0; try discriminate.
  cbv zeta in H1.
  destruct (ensureScheduleMessage _ _ _) as [[msgId|e] se] eqn:Eens; [|discriminate].
  apply ensureScheduleMessage_post in Eens as (Hmeta & (msgs & Hch & Hin) & _ & _).
  destruct (buildEmbed monthKey events1 tzLabel) as [embed1|e]; [|discriminate].
  rewrite (message_edit_live _ _ _ _ _ Hch Hin) in H1.
  inversion H1; subst n1 s1; clear H1.
  set (p1 := schedule_payload embed1) in *.
  exists msgId, (<[msgId := p1]> msgs).
  (* the second publication *)
  rewrite (publishSchedule_configured _ _ _ _ _ _ _ Ht), Hq2.
  destruct (notion_only_queryNotionForMonth W2 databaseId monthKey
              (set_discord
                 {| channels := <[tid := Some (<[msgId := p1]> msgs)]> (channels (discord se));
                    next_id := next_id (discord se) |}
                 (append_trace (EvEdit tid msgId p1) se)))
    as (Hm2 & Hd2 & t2 & Ht2 & Hall2).
  rewrite Hq2 in Hm2, Hd2, Ht2. simpl in Hm2, Hd2, Ht2.
  rewrite Hd2. simpl. rewrite lookup_insert_eq. cbv zeta.
  assert (Hfound : ensureScheduleMessage tid metaKey (append_trace (EvChannelsFetch tid) sq)
            = (Ok msgId, append_trace (EvMessagesFetch tid msgId)
                           (append_trace EvMetaRead (append_trace (EvChannelsFetch tid) sq)))).
  { apply ensureScheduleMessage_found.
    - unfold meta_of in *. simpl. by rewrite Hm2.
    - exists (<[msgId := p1]> msgs). simpl. rewrite Hd2. simpl.
      rewrite !lookup_insert_eq. eauto. }
  rewrite Hfound.
  destruct (notion_events_quiet _ Hall2) as [Hsent2 _].
  destruct (buildEmbed monthKey events2 tzLabel) as [embed2|e2].
  - set (p2 := schedule_payload embed2).
    erewrite message_edit_live; cycle 1.
    { simpl. rewrite Hd2. simpl. apply lookup_insert_eq. }
    { rewrite lookup_insert_eq. eauto. }
    eexists _, _. simpl.
    split; [exact Hmeta|].
    split; [done|].
    split; [rewrite lookup_insert_eq; eauto|].
    split; [reflexivity|]. simpl.
    split; [exact Hm2|].
    split; [by rewrite Hd2|].
    split.
    { exists (<[msgId := p2]> (<[msgId := p1]> msgs)).
      rewrite lookup_insert_eq. split; [done|].
      by rewrite insert_insert_eq, !dom_insert_L. }
    split.
    { exists (t2 ++ [EvChannelsFetch tid; EvMetaRead; EvMessagesFetch tid msgId;
                     EvEdit tid msgId p2]).
      split; [rewrite Ht2; simpl; by rewrite <- !app_assoc|].
      rewrite sent_app, Hsent2. reflexivity. }
    split; [reflexivity|].
    split; [by rewrite Hd2|].
    split.
    { exists (<[msgId := p2]> (<[msgId := p1]> msgs)).
      rewrite lookup_insert_eq. split; [done|].
      split; [by rewrite insert_insert_eq, !dom_insert_L|].
      by rewrite lookup_insert_eq. }
    exists (t2 ++ [EvChannelsFetch tid; EvMetaRead; EvMessagesFetch tid msgId;
                   EvEdit tid msgId p2]).
    split; [rewrite Ht2; simpl; by rewrite <- !app_assoc|].
    split; [rewrite sent_app, Hsent2; reflexivity|].
    apply in_or_app. right. simpl. auto.
  - eexists _, _. simpl.
    split; [exact Hmeta|].
    split; [done|].
    split; [rewrite lookup_insert_eq; eauto|].
    split; [reflexivity|]. simpl.
    split; [exact Hm2|].
    split; [by rewrite Hd2|].
    split.
    { exists (<[msgId := p1]> msgs). rewrite Hd2. simpl.
      rewrite lookup_insert_eq. done. }
    split.
    { exists (t2 ++ [EvChannelsFetch tid; EvMetaRead; EvMessagesFetch tid msgId]).
      split; [rewrite Ht2; simpl; by rewrite <- !app_assoc|].
      rewrite sent_app, Hsent2. reflexivity. }
    split; [reflexivity|].
    split; [exact Hd2|].
    exists (t2 ++ [EvChannelsFetch tid; EvMetaRead; EvMessagesFetch tid msgId]).
    split; [rewrite Ht2; simpl; by rewrite <- !app_assoc|].
    split; [rewrite sent_app, Hsent2; reflexivity|].
    intros m payload Hin'. apply in_app_or in Hin' as [Hin'|Hin'].
    + rewrite Forall_forall in Hall2. apply list_elem_of_In, Hall2 in Hin'. exact Hin'.
    + simpl in Hin'. destruct Hin' as [H|[H|[H|[]]]]; discriminate.
Qed.

Lemma ensureScheduleMessage_throw thread metaKey s e s' :
  ensureScheduleMessage thread metaKey s = (Throw e, s') ->
  meta_file s' = meta_file s /\
  exists t, trace s' = trace s ++ t /\ sent t = [] /\ meta_writes t = 0%nat.
Proof.
  unfold ensureScheduleMessage, loadMetaAll, bind, log, modify, gets. simpl.
  destruct (default ∅ (meta_file s) !! metaKey) as [[stored]|]; simpl.
  - unfold try_catch, messages_fetch, bind, log, modify, gets, ret, throw. simpl.
    destruct (channels (discord s) !! thread) as [[msgs|]|] eqn:Ech; simpl.
    + destruct (msgs !! stored); simpl; [discriminate|].
      run_create.
      rewrite Ech. discriminate.
    + run_create.
      rewrite Ech. intros H. inversion H; subst. simpl. split; [done|].
      eexists. rewrite <- app_assoc. split; [reflexivity|]. done.
    + run_create.
      rewrite Ech. intros H. inversion H; subst. simpl. split; [done|].
      eexists. rewrite <- app_assoc. split; [reflexivity|]. done.
  - run_create.
    destruct (channels (discord s) !! thread) as [[msgs|]|]; simpl; try discriminate;
      intros H; inversion H; subst; simpl; (split; [done|]);
      exists [EvMetaRead]; done.
Qed.

Lemma message_edit_frame thread msgId payload s :
  meta_file (message_edit thread msgId payload s).2 = meta_file s /\
  trace (message_edit thread msgId payload s).2 = trace s ++ [EvEdit thread msgId payload].
Proof.
  unfold message_edit, bind, log, modify, gets, ret, throw. simpl.
  destruct (channels (discord s) !! thread) as [[msgs|]|]; simpl; try done.
  destruct (msgs !! msgId); done.
Qed.

(** How one publication treats the meta file: it leaves it as it was and
    creates no message, or it creates one message and rewrites the file
    once, with the entry of [metaKey] set to that message and nothing
    else changed. *)
Lemma publishSchedule_meta_step W threadId databaseId monthKey metaKey tzLabel s :
  exists t,
    trace (publishSchedule W threadId databaseId monthKey metaKey tzLabel s).2 = trace s ++ t /\
    ((meta_file (publishSchedule W threadId databaseId monthKey metaKey tzLabel s).2
        = meta_file s /\
      meta_writes t = 0%nat /\ sent t = []) \/
     (exists tid msgId,
        configured threadId = Some tid /\
        (forall m, meta_of s !! metaKey = Some m -> ~ has_message s tid (messageId m)) /\
        meta_file (publishSchedule W threadId databaseId monthKey metaKey tzLabel s).2
          = Some (<[metaKey := {| messageId := msgId |}]> (meta_of s)) /\
        meta_writes t = 1%nat /\ sent t = [(tid, msgId)])).
Proof.
  destruct (configured threadId) as [tid|] eqn:Ecfg.
  2:{ unfold publishSchedule. rewrite Ecfg. exists []. simpl. rewrite app_nil_r. auto. }
  assert (threadId = Some tid /\ JsString.truthy tid = true) as [-> Ht].
  { unfold configured in Ecfg. destruct threadId as [x|]; [|discriminate].
    destruct (JsString.truthy x) eqn:E; inversion Ecfg; by subst. }
  rewrite (publishSchedule_configured _ _ _ _ _ _ _ Ht).
  destruct (notion_only_queryNotionForMonth W databaseId monthKey s)
    as (Hm & Hd & tq & Htq & Hall).
  destruct (notion_events_quiet _ Hall) as [Hsq Hwq].
  destruct (queryNotionForMonth W databaseId monthKey s) as [[events|e] sq];
    simpl in Hm, Hd, Htq.
  2:{ exists tq. simpl. auto. }
  destruct (channels (discord sq) !! tid) as [[msgs|]|] eqn:Ech.
  2,3: exists (tq ++ [EvChannelsFetch tid]); simpl; rewrite Htq, <- app_assoc;
       split; [done|]; left; rewrite sent_app, meta_writes_app, Hsq, Hwq; auto.
  cbv zeta.
  set (sc := append_trace (EvChannelsFetch tid) sq).
  destruct (ensureScheduleMessage tid metaKey sc) as [[msg|e] se] eqn:Eens.
  - apply ensureScheduleMessage_post in Eens
      as (_ & _ & _ & [(Hsame & _ & _ & _ & Htr)|(Hnew & Hid & Hstale & msgs' & t & _ & _ & Htr & Hs & Hw)]).
    + destruct (buildEmbed monthKey events tzLabel) as [embed|eb].
      * pose proof (message_edit_frame tid msg (schedule_payload embed) se) as [Hme Hte].
        exists (tq ++ [EvChannelsFetch tid; EvMetaRead; EvMessagesFetch tid msg;
                       EvEdit tid msg (schedule_payload embed)]).
        destruct (message_edit _ _ _ se) as [[[]|e] s']; simpl in *;
          (split; [rewrite Hte, Htr, Htq; by rewrite <- !app_assoc|]);
          left; rewrite Hme, Hsame, sent_app, meta_writes_app, Hsq, Hwq; auto.
      * exists (tq ++ [EvChannelsFetch tid; EvMetaRead; EvMessagesFetch tid msg]).
        simpl in *.
        split; [rewrite Htr, Htq; by rewrite <- !app_assoc|].
        left. rewrite Hsame, sent_app, meta_writes_app, Hsq, Hwq. auto.
    + assert (forall m, meta_of s !! metaKey = Some m -> ~ has_message s tid (messageId m))
        as Hstale'.
      { intros m Hmm (ms & Hc & Hi). apply (Hstale m).
        - unfold meta_of in *. simpl. by rewrite Hm.
        - exists ms. simpl. by rewrite Hd. }
      destruct (buildEmbed monthKey events tzLabel) as [embed|eb].
      * pose proof (message_edit_frame tid msg (schedule_payload embed) se) as [Hme Hte].
        exists (tq ++ [EvChannelsFetch tid] ++ t ++
                       [EvEdit tid msg (schedule_payload embed)]).
        destruct (message_edit _ _ _ se) as [[[]|e] s']; simpl in *;
          (split; [rewrite Hte, Htr, Htq; by rewrite <- !app_assoc|]);
          right; exists tid, msg;
          rewrite Hme, Hnew, sent_app, meta_writes_app; simpl;
          rewrite sent_app, meta_writes_app, Hsq, Hwq, Hs, Hw;
          unfold meta_of; simpl; rewrite Hm; auto.
      * exists (tq ++ [EvChannelsFetch tid] ++ t). simpl in *.
        split; [rewrite Htr, Htq; by rewrite <- !app_assoc|].
        right. exists tid, msg.
        rewrite Hnew, sent_app, meta_writes_app, Hsq, Hwq. simpl.
        rewrite Hs, Hw. unfold meta_of. simpl. rewrite Hm. auto.
  - apply ensureScheduleMessage_throw in Eens as (Hsame & t & Htr & Hs & Hw).
    exists (tq ++ [EvChannelsFetch tid] ++ t). simpl in *.
    split; [rewrite Htr, Htq; by rewrite <- !app_assoc|].
    left. rewrite Hsame, sent_app, meta_writes_app, Hsq, Hwq. simpl.
    rewrite Hs, Hw. auto.
Qed.

(** C10. A publication leaves every entry of the meta file other than
    the one of its key as it was, whatever its outcome; it writes the
    file at most once, and only after creating a message, the written
    content being the one read with the entry of its key set to the new
    message; and when the message stored for the key exists in the
    thread, it does not write the file at all. *)
Theorem publishSchedule_meta_frame W threadId databaseId monthKey metaKey tzLabel s :
  (forall key, key <> metaKey ->
     meta_of (publishSchedule W threadId databaseId monthKey metaKey tzLabel s).2 !! key
     = meta_of s !! key) /\
  (exists t,
     trace (publishSchedule W threadId databaseId monthKey metaKey tzLabel s).2 = trace s ++ t /\
     ((meta_file (publishSchedule W threadId databaseId monthKey metaKey tzLabel s).2
         = meta_file s /\
       meta_writes t = 0%nat /\ sent t = []) \/
      (exists tid msgId,
         meta_file (publishSchedule W threadId databaseId monthKey metaKey tzLabel s).2
           = Some (<[metaKey := {| messageId := msgId |}]> (meta_of s)) /\
         meta_writes t = 1%nat /\ sent t = [(tid, msgId)]))) /\
  (forall tid msgId,
     configured threadId = Some tid ->
     meta_of s !! metaKey = Some {| messageId := msgId |} ->
     has_message s tid msgId ->
     meta_file (publishSchedule W threadId databaseId monthKey metaKey tzLabel s).2
       = meta_file s /\
     exists t,
       trace (publishSchedule W threadId databaseId monthKey metaKey tzLabel s).2
         = trace s ++ t /\
       meta_writes t = 0%nat).
Proof.
  destruct (publishSchedule_meta_step W threadId databaseId monthKey metaKey tzLabel s)
    as (t & Htr & [(Hsame & Hw & Hs)|(tid & msgId & Hcfg & Hstale & Hnew & Hw & Hs)]).
  - split; [intros key _; unfold meta_of; by rewrite Hsame|].
    split; [exists t; auto|].
    intros tid msgId _ _ _. split; [exact Hsame|]. by exists t.
  - split.
    { intros key Hne. unfold meta_of at 1. rewrite Hnew. simpl.
      by rewrite lookup_insert_ne. }
    split; [exists t; split; [done|]; right; by exists tid, msgId|].
    intros tid' msgId' Hcfg' Hstored Hhas. exfalso.
    rewrite Hcfg in Hcfg'. inversion Hcfg'; subst tid'.
    by apply (Hstale _ Hstored).
Qed.

(** *** Database links *)

Lemma take_hex_spec n : forall s id,
  take_hex n s = Some id <->
  String.length id = n /\ all_hex id = true /\ exists post, s = id +:+ post.
Proof.
  induction n as [|n IH]; intros s id; simpl.
  - split.
    + intros H. inversion H; subst. repeat split. by exists s.
    + intros (Hlen & _ & _). destruct id; [done|discriminate].
  - destruct s as [|c s]; simpl.
    + split; [discriminate|]. intros (Hlen & _ & post & Hs).
      destruct id; discriminate.
    + destruct (is_hex c) eqn:Hc.
      * destruct (take_hex n s) as [id'|] eqn:E; simpl.
        -- apply IH in E as (Hlen & Hall & post & ->). split.
           ++ intros H. inversion H as [Hid]. simpl. rewrite Hc, Hall, Hlen.
              repeat split. by exists post.
           ++ intros (Hl & Ha & post' & Hs). destruct id as [|a id]; [discriminate|].
              simpl in *. inversion Hs; subst a.
              apply andb_prop in Ha as [_ Ha].
              assert (take_hex n (id' +:+ post) = Some id) as E'.
              { apply IH. split; [lia|]. split; [done|]. by exists post'. }
              assert (take_hex n (id' +:+ post) = Some id') as E''.
              { apply IH. split; [done|]. split; [done|]. by exists post. }
              congruence.
        -- split; [discriminate|]. intros (Hl & Ha & post' & Hs).
           destruct id as [|a id]; [discriminate|]. simpl in *.
           inversion Hs; subst a. apply andb_prop in Ha as [_ Ha].
           assert (take_hex n s = Some id) as E'.
           { apply IH. split; [lia|]. split; [done|]. exists post'. congruence. }
           congruence.
      * split; [discriminate|]. intros (Hl & Ha & post' & Hs).
        destruct id as [|a id]; [discriminate|]. simpl in *.
        inversion Hs; subst a. apply andb_prop in Ha as [Ha _]. congruence.
Qed.

Lemma string_app_nil_l s : "" +:+ s = s.
Proof. reflexivity. Qed.

Lemma string_app_cons c s t : String c s +:+ t = String c (s +:+ t).
Proof. reflexivity. Qed.

Lemma string_app_assoc (a b c : string) : (a +:+ b) +:+ c = a +:+ (b +:+ c).
Proof. induction a as [|x a IH]; [reflexivity|]. by rewrite !string_app_cons, IH. Qed.

Lemma string_app_nil_r (a : string) : a +:+ "" = a.
Proof. induction a as [|x a IH]; [reflexivity|]. by rewrite string_app_cons, IH. Qed.

Lemma extractNotionDbIdFromUrl_cons c rest :
  extractNotionDbIdFromUrl (String c rest) =
  match take_hex 32 (String c rest) with
  | Some id => Some id
  | None => extractNotionDbIdFromUrl rest
  end.
Proof. reflexivity. Qed.

Lemma extractNotionDbIdFromUrl_occurs url : forall id,
  extractNotionDbIdFromUrl url = Some id ->
  exists pre post, url = pre +:+ id +:+ post /\ hex_run32 id.
Proof.
  induction url as [|c rest IH]; intros id H.
  - vm_compute in H. discriminate.
  - rewrite extractNotionDbIdFromUrl_cons in H.
    destruct (take_hex 32 (String c rest)) as [id0|] eqn:E.
    + injection H as ->. apply take_hex_spec in E as (Hl & Ha & post & Hs).
      exists "", post. by repeat split.
    + apply IH in H as (pre & post & -> & Hrun).
      by exists (String c pre), post.
Qed.

(** X1. [extractNotionDbIdFromUrl] returns [id] exactly when [id] is a
    run of 32 hexadecimal digits that occurs in the link and no such run
    starts further to the left. *)
Theorem extractNotionDbIdFromUrl_leftmost url id :
  extractNotionDbIdFromUrl url = Some id <->
  exists pre post,
    url = pre +:+ id +:+ post /\ hex_run32 id /\
    forall pre' id' post',
      url = pre' +:+ id' +:+ post' -> hex_run32 id' ->
      (String.length pre <= String.length pre')%nat.
Proof.
  split.
  - revert id. induction url as [|c rest IH]; intros id H.
    + vm_compute in H. discriminate.
    + rewrite extractNotionDbIdFromUrl_cons in H.
      destruct (take_hex 32 (String c rest)) as [id0|] eqn:E.
      * injection H as ->. apply take_hex_spec in E as (Hl & Ha & post & Hs).
        exists "", post. split; [exact Hs|]. split; [done|]. intros. simpl. lia.
      * apply IH in H as (pre & post & -> & Hrun & Hleft).
        exists (String c pre), post. split; [reflexivity|]. split; [exact Hrun|].
        intros pre' id' post' Hs [Hl' Ha'].
        destruct pre' as [|c' pre'].
        -- exfalso. simpl in Hs.
           assert (take_hex 32 (String c (pre +:+ id +:+ post)) = Some id') as E'.
           { apply take_hex_spec. split; [done|]. split; [done|]. by exists post'. }
           congruence.
        -- simpl in Hs. inversion Hs. simpl.
           apply le_n_S. eapply Hleft; [eassumption|by split].
  - intros (pre & post & -> & [Hl Ha] & Hleft).
    induction pre as [|c pre IH].
    + rewrite ?string_app_nil_l, ?string_app_cons.
      assert (take_hex 32 (id +:+ post) = Some id) as E.
      { apply take_hex_spec. split; [done|]. split; [done|]. by exists post. }
      destruct id as [|a id]; [discriminate|].
      rewrite ?string_app_nil_l, ?string_app_cons in *. rewrite extractNotionDbIdFromUrl_cons. by rewrite E.
    + rewrite ?string_app_nil_l, ?string_app_cons. rewrite extractNotionDbIdFromUrl_cons.
      destruct (take_hex 32 (String c (pre +:+ id +:+ post))) as [id0|] eqn:E.
      * exfalso. apply take_hex_spec in E as (Hl0 & Ha0 & post0 & Hs).
        specialize (Hleft "" id0 post0 Hs (conj Hl0 Ha0)). simpl in Hleft. lia.
      * apply IH. intros pre' id' post' Hs Hrun.
        assert (String c pre +:+ id +:+ post = String c pre' +:+ id' +:+ post') as Hs'
          by (rewrite !string_app_cons; by rewrite Hs).
        specialize (Hleft _ _ _ Hs' Hrun). simpl in Hleft. lia.
Qed.

(** X2. [extractNotionDbIdFromUrl] returns null exactly when the link
    holds no run of 32 hexadecimal digits. *)
Theorem extractNotionDbIdFromUrl_none url :
  extractNotionDbIdFromUrl url = None <->
  ~ exists pre id post, url = pre +:+ id +:+ post /\ hex_run32 id.
Proof.
  split.
  - intros H (pre & id & post & Hs & Hrun). revert url H Hs.
    induction pre as [|c pre IH]; intros url H ->.
    + rewrite ?string_app_nil_l, ?string_app_cons in H.
      assert (take_hex 32 (id +:+ post) = Some id) as E.
      { destruct Hrun. apply take_hex_spec. split; [done|]. split; [done|]. by exists post. }
      destruct id as [|a id]; [by destruct Hrun|].
      rewrite ?string_app_nil_l, ?string_app_cons in *. rewrite extractNotionDbIdFromUrl_cons in H. by rewrite E in H.
    + rewrite ?string_app_nil_l, ?string_app_cons in H. rewrite extractNotionDbIdFromUrl_cons in H.
      destruct (take_hex 32 _); [discriminate|]. by apply (IH _ H).
  - intros Hno. destruct (extractNotionDbIdFromUrl url) as [id|] eqn:E; [|reflexivity].
    exfalso. apply Hno.
    apply extractNotionDbIdFromUrl_occurs in E as (pre & post & Hs & Hrun).
    by exists pre, id, post.
Qed.

(** *** The guild configuration store *)

Lemma getGuildCfg_setGuildCfg guildId patch file :
  getGuildCfg guildId (setGuildCfg guildId patch file).2
  = Some (merge_cfg (default empty_cfg (getGuildCfg guildId file)) patch).
Proof. unfold getGuildCfg, setGuildCfg, loadGuildConfigAll. simpl. apply lookup_insert_eq. Qed.

(** X3. [setGuildCfg] stores what it returns under the guild's key,
    so that [getGuildCfg] reads it back, and leaves the entry of every
    other guild as it was. *)
Theorem setGuildCfg_stores guildId patch file :
  getGuildCfg guildId (setGuildCfg guildId patch file).2
    = Some (setGuildCfg guildId patch file).1 /\
  forall other, other <> guildId ->
    getGuildCfg other (setGuildCfg guildId patch file).2 = getGuildCfg other file.
Proof.
  split; [apply getGuildCfg_setGuildCfg|].
  intros other Hne. unfold getGuildCfg, setGuildCfg, loadGuildConfigAll. simpl.
  by rewrite lookup_insert_ne.
Qed.

Lemma merge_cfg_assoc e p1 p2 :
  merge_cfg (merge_cfg e p1) p2 = merge_cfg e (merge_cfg p1 p2).
Proof.
  unfold merge_cfg. simpl. f_equal.
  - destruct (staffChannelId p2), (staffChannelId p1); reflexivity.
  - by rewrite (assoc_L (∪)).
  - by rewrite (assoc_L (∪)).
Qed.

(** X4. Two [setGuildCfg] calls for a guild leave the file that one
    call with the merged patch leaves, the later patch taking
    precedence key by key; in particular repeating a call changes
    nothing. *)
Theorem setGuildCfg_compose guildId p1 p2 file :
  (setGuildCfg guildId p2 (setGuildCfg guildId p1 file).2).2
    = (setGuildCfg guildId (merge_cfg p1 p2) file).2 /\
  (setGuildCfg guildId p1 (setGuildCfg guildId p1 file).2).2
    = (setGuildCfg guildId p1 file).2.
Proof.
  assert (forall q1 q2,
    (setGuildCfg guildId q2 (setGuildCfg guildId q1 file).2).2
    = (setGuildCfg guildId (merge_cfg q1 q2) file).2) as Hcomp.
  { intros q1 q2. unfold setGuildCfg, loadGuildConfigAll. simpl.
    rewrite lookup_insert_eq. simpl. rewrite insert_insert_eq.
    by rewrite merge_cfg_assoc. }
  split; [apply Hcomp|].
  rewrite Hcomp. unfold setGuildCfg. simpl. do 2 f_equal.
  unfold merge_cfg. simpl. f_equal.
  - by destruct (staffChannelId p1).
  - by rewrite (idemp_L (∪)).
  - by rewrite (idemp_L (∪)).
Qed.

Lemma thread_of_merge_cfg e p scope :
  thread_of (Some (merge_cfg e p)) scope =
  match default ∅ (threads p) !! scope with
  | Some v => v
  | None => thread_of (Some e) scope
  end.
Proof.
  unfold thread_of, merge_cfg. simpl. rewrite lookup_union.
  destruct (default ∅ (threads p) !! scope) as [v|]; simpl.
  - by destruct (default ∅ (threads e) !! scope).
  - destruct (threads e) as [t|]; simpl; [|by rewrite lookup_empty].
    by destruct (t !! scope).
Qed.

Lemma databaseId_of_merge_cfg e p :
  databaseId_of (Some (merge_cfg e p)) =
  match default ∅ (notion p) !! "databaseId" with
  | Some v => Some v
  | None => databaseId_of (Some e)
  end.
Proof.
  unfold databaseId_of, merge_cfg. simpl. rewrite lookup_union.
  destruct (default ∅ (notion p) !! "databaseId") as [v|]; simpl.
  - by destruct (default ∅ (notion e) !! "databaseId").
  - destruct (notion e) as [n|]; simpl; [|by rewrite lookup_empty].
    by destruct (n !! "databaseId").
Qed.

Lemma requireGuildCfg_passes guildId file cfg :
  getGuildCfg guildId file = Some cfg ->
  truthy_opt (staffChannelId cfg) = true ->
  truthy_opt (thread_of (Some cfg) "thisMonth") = true ->
  truthy_opt (databaseId_of (Some cfg)) = true ->
  requireGuildCfg guildId file = inr cfg.
Proof.
  intros Hget Hs Ht Hd. unfold requireGuildCfg. rewrite Hget. simpl.
  simpl in Ht, Hd. by rewrite Hs, Ht, Hd.
Qed.

Lemma setGuildCfg_twice guildId p1 p2 file :
  (setGuildCfg guildId p2 (setGuildCfg guildId p1 file).2).2
  = (setGuildCfg guildId (merge_cfg p1 p2) file).2.
Proof.
  unfold setGuildCfg, loadGuildConfigAll. simpl.
  rewrite lookup_insert_eq. simpl. rewrite insert_insert_eq.
  by rewrite merge_cfg_assoc.
Qed.

Lemma setup_patch_thread staff this last next arch :
  let t := default ∅ (threads (setup_patch staff this last next arch)) in
  t !! "thisMonth" = Some (Some this) /\
  t !! "lastMonth" = Some (or_null last) /\
  t !! "nextMonth" = Some (or_null next) /\
  t !! "archive" = Some (or_null arch).
Proof.
  simpl. repeat split;
    repeat (rewrite lookup_insert_ne by done); apply lookup_insert_eq.
Qed.

(** X5. The setup command and the notion command can be run in either
    order: both orders leave the same configuration (the files denote
    the same mapping, the order in which the keys are written aside),
    and in it the guild passes [requireGuildCfg] with the staff
    channel, the four thread slots of the setup and the database of the
    notion command. *)
Theorem setup_and_notion_in_either_order guildId file staff this last next arch db :
  JsString.truthy staff = true ->
  JsString.truthy this = true ->
  JsString.truthy db = true ->
  let setup := setup_patch staff this last next arch in
  let f12 := (setGuildCfg guildId (notion_patch db) (setGuildCfg guildId setup file).2).2 in
  let f21 := (setGuildCfg guildId setup (setGuildCfg guildId (notion_patch db) file).2).2 in
  f12 = f21 /\
  exists cfg,
    requireGuildCfg guildId f12 = inr cfg /\
    staffChannelId cfg = Some staff /\
    thread_of (Some cfg) "thisMonth" = Some this /\
    thread_of (Some cfg) "lastMonth" = or_null last /\
    thread_of (Some cfg) "nextMonth" = or_null next /\
    thread_of (Some cfg) "archive" = or_null arch /\
    databaseId_of (Some cfg) = Some db.
Proof.
  intros Hstaff Hthis Hdb setup f12 f21.
  assert (merge_cfg setup (notion_patch db) = merge_cfg (notion_patch db) setup) as Hsame.
  { unfold merge_cfg. simpl.
    by rewrite !(left_id_L ∅ (∪)), !(right_id_L ∅ (∪)). }
  assert (f12 = (setGuildCfg guildId (merge_cfg setup (notion_patch db)) file).2) as E12
    by apply setGuildCfg_twice.
  assert (f21 = (setGuildCfg guildId (merge_cfg setup (notion_patch db)) file).2) as E21
    by (rewrite Hsame; apply setGuildCfg_twice).
  split; [by rewrite E12, E21|].
  set (e := default empty_cfg (getGuildCfg guildId file)).
  set (p := merge_cfg setup (notion_patch db)) in *.
  destruct (setup_patch_thread staff this last next arch)
    as (Hthis' & Hlast' & Hnext' & Harch').
  simpl in Hthis', Hlast', Hnext', Harch'.
  assert (forall scope, default ∅ (threads p) !! scope
                        = default ∅ (threads setup) !! scope) as Hp.
  { intros scope. subst p. unfold merge_cfg. simpl. by rewrite (left_id_L ∅ (∪)). }
  assert (thread_of (Some (merge_cfg e p)) "thisMonth" = Some this) as H1.
  { rewrite thread_of_merge_cfg, Hp. simpl. by rewrite Hthis'. }
  assert (thread_of (Some (merge_cfg e p)) "lastMonth" = or_null last) as H2.
  { rewrite thread_of_merge_cfg, Hp. simpl. by rewrite Hlast'. }
  assert (thread_of (Some (merge_cfg e p)) "nextMonth" = or_null next) as H3.
  { rewrite thread_of_merge_cfg, Hp. simpl. by rewrite Hnext'. }
  assert (thread_of (Some (merge_cfg e p)) "archive" = or_null arch) as H3'.
  { rewrite thread_of_merge_cfg, Hp. simpl. by rewrite Harch'. }
  assert (databaseId_of (Some (merge_cfg e p)) = Some db) as H4.
  { rewrite databaseId_of_merge_cfg. subst p. unfold merge_cfg. simpl.
    rewrite (right_id_L ∅ (∪)). by rewrite lookup_singleton_eq. }
  exists (merge_cfg e p). split.
  - apply requireGuildCfg_passes.
    + rewrite E12. apply getGuildCfg_setGuildCfg.
    + simpl. exact Hstaff.
    + by rewrite H1.
    + by rewrite H4.
  - by repeat split.
Qed.

(** X6. For a guild that has no entry yet, [requireGuildCfg] asks for
    the setup; once the setup alone has run it asks for the database;
    after the notion command alone it still asks for the setup. *)
Theorem requireGuildCfg_guides_setup guildId file staff this last next arch db :
  getGuildCfg guildId file = None ->
  JsString.truthy staff = true ->
  JsString.truthy this = true ->
  requireGuildCfg guildId file = inl NotConfigured /\
  requireGuildCfg guildId
    (setGuildCfg guildId (setup_patch staff this last next arch) file).2
    = inl NotionDbNotConfigured /\
  requireGuildCfg guildId (setGuildCfg guildId (notion_patch db) file).2
    = inl NotConfigured.
Proof.
  intros Hnone Hstaff Hthis. split; [|split].
  - unfold requireGuildCfg. by rewrite Hnone.
  - unfold requireGuildCfg. rewrite getGuildCfg_setGuildCfg, Hnone.
    rewrite thread_of_merge_cfg, databaseId_of_merge_cfg.
    destruct (setup_patch_thread staff this last next arch) as (-> & _).
    simpl. by rewrite Hstaff, Hthis.
  - unfold requireGuildCfg. by rewrite getGuildCfg_setGuildCfg, Hnone.
Qed.

(** X7. Running the setup again replaces the staff channel and all four
    thread slots, an optional thread that is left out becoming null
    even when it was set before, and keeps the database; the notion
    command replaces the database and keeps the staff channel and
    every thread slot. *)
Theorem setup_replaces_threads_keeps_database guildId file staff this last next arch db :
  let before := getGuildCfg guildId file in
  let after_setup :=
    Some (setGuildCfg guildId (setup_patch staff this last next arch) file).1 in
  let after_notion := Some (setGuildCfg guildId (notion_patch db) file).1 in
  (after_setup ≫= staffChannelId = Some staff /\
   thread_of after_setup "thisMonth" = Some this /\
   thread_of after_setup "lastMonth" = or_null last /\
   thread_of after_setup "nextMonth" = or_null next /\
   thread_of after_setup "archive" = or_null arch /\
   databaseId_of after_setup = databaseId_of before) /\
  (databaseId_of after_notion = Some db /\
   (after_notion ≫= staffChannelId) = (before ≫= staffChannelId) /\
   forall scope, thread_of after_notion scope = thread_of before scope).
Proof.
  intros before after_setup after_notion. subst after_setup after_notion.
  unfold setGuildCfg. cbn [fst]. fold (getGuildCfg guildId file). fold before.
  destruct (setup_patch_thread staff this last next arch) as (H1 & H2 & H3 & H4).
  cbv zeta in H1, H2, H3, H4.
  split.
  - rewrite !thread_of_merge_cfg, databaseId_of_merge_cfg, H1, H2, H3, H4.
    split; [reflexivity|].
    repeat split. simpl. rewrite lookup_empty. by destruct before.
  - rewrite databaseId_of_merge_cfg. split; [simpl; by rewrite lookup_singleton_eq|].
    split; [by destruct before|].
    intros scope. rewrite thread_of_merge_cfg. simpl. rewrite lookup_empty.
    by destruct before.
Qed.

(** *** The records of a successful query *)

Lemma normalize_loop_keys W rows : forall items s raw s',
  normalize_loop W rows items s = (Ok raw, s') ->
  List.map item_key raw = List.map item_key items ++ omap row_key rows.
Proof.
  induction rows as [|r rows IH]; intros items s raw s' H.
  - inversion H; subst. simpl. by rewrite app_nil_r.
  - change (omap row_key (r :: rows))
      with (match row_key r with
            | Some k => k :: omap row_key rows
            | None => omap row_key rows
            end).
    unfold row_key at 1, row_title, row_date. cbn [normalize_loop] in H.
    destruct (dateStart _) as [ds|]; simpl.
    + unfold bind in H.
      destruct (resolveRelationNames W _ 2 s) as [[a|e] s1]; [|discriminate].
      destruct (resolveRelationNames W _ 2 s1) as [[m|e] s2]; [|discriminate].
      apply IH in H. rewrite H, map_app. simpl. by rewrite <- app_assoc.
    + by apply IH in H.
Qed.

Lemma insert_by_date_at_instant d x l :
  at_instant d (List.map item_key (insert_by_date x l))
  = at_instant d (List.map item_key (x :: l)).
Proof.
  unfold at_instant. induction l as [|y l IH]; [reflexivity|].
  simpl insert_by_date. destruct (dateObj y <? dateObj x) eqn:E; [|reflexivity].
  simpl List.map in *. simpl List.filter in *. rewrite IH.
  destruct (dateObj y =? d) eqn:Ey, (dateObj x =? d) eqn:Ex; try reflexivity.
  lia.
Qed.

Lemma sort_by_date_at_instant d l :
  at_instant d (List.map item_key (sort_by_date l)) = at_instant d (List.map item_key l).
Proof.
  induction l as [|x l IH]; [reflexivity|].
  simpl sort_by_date. rewrite insert_by_date_at_instant.
  unfold at_instant in *. simpl. by rewrite IH.
Qed.

Lemma queryNotionForMonth_answers W databaseId monthKey rows s items s' :
  answers_with W databaseId rows ->
  queryNotionForMonth W databaseId monthKey s = (Ok items, s') ->
  exists raw,
    items = sort_by_date raw /\ List.map item_key raw = omap row_key rows.
Proof.
  intros Hdb Hq.
  apply queryNotionForMonth_inv in Hq as (oa & bf & res & raw & _ & Hres & Hloop & ->).
  destruct (Hdb (month_query oa bf)) as (st & msg & Hok & Hresp).
  rewrite Hresp in Hres. unfold request_outcome in Hres. rewrite Hok in Hres.
  inversion Hres; subst res. simpl in Hloop.
  exists raw. split; [reflexivity|]. by apply normalize_loop_keys in Hloop.
Qed.

(** X8. A successful query returns one record for each raw record that has
    a usable date, no more and no fewer: the titles and instants of the
    records returned are, up to order, those of the dated rows; and no
    record has an empty title. *)
Theorem queryNotionForMonth_one_record_per_dated_row
    W databaseId monthKey rows s items s' :
  answers_with W databaseId rows ->
  queryNotionForMonth W databaseId monthKey s = (Ok items, s') ->
  Permutation (List.map item_key items) (omap row_key rows) /\
  Forall (fun it => title it <> "") items.
Proof.
  intros Hdb Hq.
  destruct (queryNotionForMonth_answers _ _ _ _ _ _ _ Hdb Hq) as (raw & -> & Hkeys).
  assert (Permutation (List.map item_key (sort_by_date raw)) (omap row_key rows)) as Hperm.
  { rewrite <- Hkeys. apply Permutation_map, sort_by_date_perm. }
  split; [exact Hperm|].
  apply Forall_forall. intros it Hit Hempty.
  assert (In (item_key it) (omap row_key rows)) as Hin.
  { eapply Permutation_in; [exact Hperm|]. apply in_map. by apply list_elem_of_In. }
  apply list_elem_of_In, list_elem_of_omap in Hin as (row & _ & Hrow).
  unfold row_key in Hrow. destruct (row_date row); [|discriminate].
  simpl in Hrow. inversion Hrow as [[Ht Hd]]. unfold item_key in Ht.
  rewrite Hempty in Ht. unfold row_title, JsString.or_else in Ht.
  destruct (titlePlain _) eqn:E; simpl in Ht; discriminate.
Qed.

(** X9. The re-sort is stable: the records of one instant come back in
    the order in which Notion listed their rows. *)
Theorem queryNotionForMonth_keeps_order_of_ties
    W databaseId monthKey rows s items s' d :
  answers_with W databaseId rows ->
  queryNotionForMonth W databaseId monthKey s = (Ok items, s') ->
  at_instant d (List.map item_key items) = at_instant d (omap row_key rows).
Proof.
  intros Hdb Hq.
  destruct (queryNotionForMonth_answers _ _ _ _ _ _ _ Hdb Hq) as (raw & -> & Hkeys).
  by rewrite sort_by_date_at_instant, Hkeys.
Qed.

(** *** Failures of the query and of the publication *)

Lemma drop_prefix_app p : forall s r,
  JsString.drop_prefix p s = Some r -> s = p +:+ r.
Proof.
  induction p as [|a p IH]; intros s r H.
  - simpl in H. inversion H. by rewrite string_app_nil_l.
  - destruct s as [|b s]; [discriminate|]. simpl in H.
    destruct (Ascii.eqb a b) eqn:E; [|discriminate].
    apply Ascii.eqb_eq in E. subst b. by rewrite string_app_cons, (IH _ _ H).
Qed.

Lemma drop_first_of_app tokens : forall s r,
  JsString.drop_first_of tokens s = Some r -> exists t, s = t +:+ r.
Proof.
  induction tokens as [|t tokens IH]; intros s r H; [discriminate|].
  simpl in H. destruct (JsString.drop_prefix t s) as [r0|] eqn:E.
  - inversion H; subst r0. exists t. by apply drop_prefix_app.
  - by apply IH.
Qed.

(** Stripping leading tokens leaves an end of the string. *)
Lemma strip_leading_end tokens fuel : forall s,
  exists pre, s = pre +:+ JsString.strip_leading tokens fuel s.
Proof.
  induction fuel as [|fuel IH]; intros s; simpl.
  - exists "". by rewrite string_app_nil_l.
  - destruct (JsString.drop_first_of tokens s) as [r|] eqn:E.
    + destruct (drop_first_of_app _ _ _ E) as (t & ->).
      destruct (IH r) as (pre & Hpre).
      exists (t +:+ pre). rewrite string_app_assoc. by rewrite <- Hpre.
    + exists "". by rewrite string_app_nil_l.
Qed.

Lemma digits_value_stuck pre c r : forall acc,
  JsString.digit_value c = None ->
  JsString.digits_value (pre +:+ String c r) acc = None.
Proof.
  induction pre as [|a pre IH]; intros acc Hc.
  - rewrite string_app_nil_l. simpl. by rewrite Hc.
  - rewrite string_app_cons. simpl.
    destruct (JsString.digit_value a); [by apply IH|reflexivity].
Qed.

Lemma begins_number_digit c :
  begins_number c = false -> JsString.digit_value c = None.
Proof.
  destruct c as [[] [] [] [] [] [] [] []]; vm_compute; intros H;
    first [reflexivity|discriminate H].
Qed.

(** The model of [Number] agrees with it on the strings that begin with
    no number: both read NaN. *)
Lemma starts_no_number_NaN s :
  starts_no_number s = true -> JsString.Number s = None.
Proof.
  unfold starts_no_number, JsString.trimStart, JsString.Number.
  destruct (strip_leading_end JsString.white_space (String.length s) s) as (pre & Hpre).
  destruct (JsString.strip_leading JsString.white_space (String.length s) s)
    as [|c r]; [discriminate|].
  intros Hc. apply negb_true_iff in Hc.
  rewrite Hpre. apply digits_value_stuck. by apply begins_number_digit.
Qed.

(** X10. A month key without a month part, or with a year or month part
    that begins (after any blanks) with a character no numeric literal
    begins with, so that [Number] reads it as NaN, makes
    [queryNotionForMonth] throw a RangeError before anything is
    requested; a database request that is rejected or answered outside
    2xx makes it throw that failure (status and message included) after
    that one request; in both cases the cache is left empty and no list
    is returned. *)
Theorem queryNotionForMonth_failures W databaseId monthKey s :
  (forall y,
     JsString.split_on "-" monthKey = [y] ->
     queryNotionForMonth W databaseId monthKey s = (Throw RangeError, set_cache ∅ s)) /\
  (forall y m rest,
     JsString.split_on "-" monthKey = y :: m :: rest ->
     starts_no_number y = true \/ starts_no_number m = true ->
     queryNotionForMonth W databaseId monthKey s = (Throw RangeError, set_cache ∅ s)) /\
  (forall on_or_after before,
     monthStartEnd monthKey = (Some on_or_after, Some before) ->
     let body := month_query on_or_after before in
     let s1 := append_trace (EvNotionDbQuery databaseId body) (set_cache ∅ s) in
     (databases W databaseId body = Rejected ->
      queryNotionForMonth W databaseId monthKey s = (Throw FetchFailed, s1)) /\
     (forall status data message,
        databases W databaseId body = Response status data message ->
        res_ok status = false ->
        queryNotionForMonth W databaseId monthKey s
          = (Throw (NotionApiError status message), s1))).
Proof.
  assert ((month_key_fields monthKey).1 = None \/ (month_key_fields monthKey).2 = None ->
          queryNotionForMonth W databaseId monthKey s = (Throw RangeError, set_cache ∅ s))
    as Hnan.
  { intros Hnan. rewrite queryNotionForMonth_unfold. unfold monthStartEnd.
    destruct (month_key_fields monthKey) as [[Y|] [M|]]; simpl in Hnan;
      try (destruct Hnan; discriminate); reflexivity. }
  split; [|split].
  - intros y Hy. apply Hnan. right. unfold month_key_fields. by rewrite Hy.
  - intros y m rest Hsplit Hno. apply Hnan.
    unfold month_key_fields. rewrite Hsplit. cbn [List.map fst snd].
    destruct Hno as [Hno|Hno]; [left|right];
      by rewrite (starts_no_number_NaN _ Hno).
  - intros oa bf Hwin body s1. split.
    + intros Hrej. rewrite queryNotionForMonth_unfold, Hwin. cbv zeta.
      fold body. by rewrite Hrej.
    + intros st data msg Hresp Hbad.
      rewrite queryNotionForMonth_unfold, Hwin. cbv zeta. fold body.
      rewrite Hresp. unfold request_outcome. by rewrite Hbad.
Qed.

(** X11. When the query of a publication throws, the publication throws
    the same error and has done nothing else: Discord and the meta file
    are as they were and only Notion requests were made. *)
Theorem publishSchedule_query_failure
    W tid databaseId monthKey metaKey tzLabel s e sq :
  JsString.truthy tid = true ->
  queryNotionForMonth W databaseId monthKey s = (Throw e, sq) ->
  publishSchedule W (Some tid) databaseId monthKey metaKey tzLabel s = (Throw e, sq) /\
  discord sq = discord s /\
  meta_file sq = meta_file s /\
  exists t, trace sq = trace s ++ t /\ Forall notion_event t.
Proof.
  intros Ht Hq.
  rewrite (publishSchedule_configured _ _ _ _ _ _ _ Ht), Hq.
  split; [reflexivity|].
  destruct (notion_only_queryNotionForMonth W databaseId monthKey s) as (Hm & Hd & Htr).
  rewrite Hq in Hm, Hd, Htr. simpl in *. auto.
Qed.

(** X12. When the thread cannot be reached, the publication throws
    after its query, "Thread not found or no access" when the channel resolves to
    null and the error of Discord when fetching it rejects; no message
    is fetched, created or edited and the meta file is not read or
    written. *)
Theorem publishSchedule_thread_unreachable
    W tid databaseId monthKey metaKey tzLabel s events sq :
  JsString.truthy tid = true ->
  queryNotionForMonth W databaseId monthKey s = (Ok events, sq) ->
  let s' := append_trace (EvChannelsFetch tid) sq in
  (channels (discord s) !! tid = Some None ->
   publishSchedule W (Some tid) databaseId monthKey metaKey tzLabel s
     = (Throw (ThreadNotFound tid), s')) /\
  (channels (discord s) !! tid = None ->
   publishSchedule W (Some tid) databaseId monthKey metaKey tzLabel s
     = (Throw DiscordApiError, s')) /\
  discord s' = discord s /\ meta_file s' = meta_file s.
Proof.
  intros Ht Hq s'.
  destruct (notion_only_queryNotionForMonth W databaseId monthKey s) as (Hm & Hd & _).
  rewrite Hq in Hm, Hd. simpl in Hm, Hd.
  rewrite (publishSchedule_configured _ _ _ _ _ _ _ Ht), Hq, Hd.
  split; [by intros ->|]. split; [by intros ->|]. by split.
Qed.

Lemma ensureScheduleMessage_throw_discord thread metaKey s e s' :
  ensureScheduleMessage thread metaKey s = (Throw e, s') -> discord s' = discord s.
Proof.
  unfold ensureScheduleMessage, loadMetaAll, bind, log, modify, gets. simpl.
  destruct (default ∅ (meta_file s) !! metaKey) as [[stored]|]; simpl.
  - unfold try_catch, messages_fetch, bind, log, modify, gets, ret, throw. simpl.
    destruct (channels (discord s) !! thread) as [[msgs|]|] eqn:Ech; simpl.
    + destruct (msgs !! stored); simpl; [discriminate|].
      run_create. rewrite Ech. discriminate.
    + run_create. rewrite Ech. intros H. by inversion H.
    + run_create. rewrite Ech. intros H. by inversion H.
  - run_create.
    destruct (channels (discord s) !! thread) as [[msgs|]|]; simpl; try discriminate;
      intros H; by inversion H.
Qed.

(** What a successful publication leaves, step by step. *)
Lemma publishSchedule_ok_inv W tid databaseId monthKey metaKey tzLabel s n s' :
  JsString.truthy tid = true ->
  publishSchedule W (Some tid) databaseId monthKey metaKey tzLabel s = (Ok n, s') ->
  exists events sq msg se msgs embed,
    queryNotionForMonth W databaseId monthKey s = (Ok events, sq) /\
    n = Z.of_nat (length events) /\
    ensureScheduleMessage tid metaKey (append_trace (EvChannelsFetch tid) sq)
      = (Ok msg, se) /\
    channels (discord se) !! tid = Some (Some msgs) /\
    is_Some (msgs !! msg) /\
    buildEmbed monthKey events tzLabel = Ok embed /\
    s' = set_discord
           {| channels :=
                <[tid := Some (<[msg := schedule_payload embed]> msgs)]>
                  (channels (discord se));
              next_id := next_id (discord se) |}
           (append_trace (EvEdit tid msg (schedule_payload embed)) se).
Proof.
  intros Ht H. rewrite (publishSchedule_configured _ _ _ _ _ _ _ Ht) in H.
  destruct (queryNotionForMonth W databaseId monthKey s) as [[events|e] sq];
    [|discriminate].
  destruct (channels (discord sq) !! tid) as [[msgs0|]|]; try discriminate.
  cbv zeta in H.
  destruct (ensureScheduleMessage _ _ _) as [[msg|e] se] eqn:Eens; [|discriminate].
  pose proof Eens as Hpost.
  apply ensureScheduleMessage_post in Hpost as (_ & (msgs & Hch & Hin) & _).
  destruct (buildEmbed monthKey events tzLabel) as [embed|e] eqn:Ebuild; [|discriminate].
  rewrite (message_edit_live _ _ _ _ _ Hch Hin) in H.
  inversion H; subst n s'.
  exists events, sq, msg, se, msgs, embed. by repeat split.
Qed.

(** X13. A successful publication returns the number of records of its
    query and leaves the key bound to a message of the thread whose
    content is empty and whose one embed is the render of those
    records, the embed [buildEmbed] returned for them. *)
Theorem publishSchedule_success W tid databaseId monthKey metaKey tzLabel s n s' :
  JsString.truthy tid = true ->
  publishSchedule W (Some tid) databaseId monthKey metaKey tzLabel s = (Ok n, s') ->
  exists events sq msg msgs embed,
    queryNotionForMonth W databaseId monthKey s = (Ok events, sq) /\
    n = Z.of_nat (length events) /\
    meta_of s' !! metaKey = Some {| messageId := msg |} /\
    channels (discord s') !! tid = Some (Some msgs) /\
    buildEmbed monthKey events tzLabel = Ok embed /\
    msgs !! msg = Some {| content := ""; embeds := [embed] |}.
Proof.
  intros Ht H.
  destruct (publishSchedule_ok_inv _ _ _ _ _ _ _ _ _ Ht H)
    as (events & sq & msg & se & msgs & embed & Hq & -> & Hens & Hch & Hin & Hb & ->).
  apply ensureScheduleMessage_post in Hens as (Hmeta & _).
  exists events, sq, msg, (<[msg := schedule_payload embed]> msgs), embed.
  split; [exact Hq|]. split; [reflexivity|]. split; [exact Hmeta|].
  simpl. rewrite lookup_insert_eq. split; [reflexivity|].
  split; [exact Hb|]. by rewrite lookup_insert_eq.
Qed.

(** X14. A successful publication touches one message: every other
    thread, and every message of the thread other than the one the key
    is bound to afterwards, is as it was. *)
Theorem publishSchedule_touches_one_message
    W tid databaseId monthKey metaKey tzLabel s n s' :
  JsString.truthy tid = true ->
  publishSchedule W (Some tid) databaseId monthKey metaKey tzLabel s = (Ok n, s') ->
  (forall other, other <> tid ->
     channels (discord s') !! other = channels (discord s) !! other) /\
  exists msg before after,
    meta_of s' !! metaKey = Some {| messageId := msg |} /\
    channels (discord s) !! tid = Some (Some before) /\
    channels (discord s') !! tid = Some (Some after) /\
    forall m, m <> msg -> after !! m = before !! m.
Proof.
  intros Ht H.
  destruct (publishSchedule_ok_inv _ _ _ _ _ _ _ _ _ Ht H)
    as (events & sq & msg & se & msgs & embed & Hq & -> & Hens & Hch & Hin & _ & ->).
  destruct (notion_only_queryNotionForMonth W databaseId monthKey s) as (_ & Hd & _).
  rewrite Hq in Hd. simpl in Hd.
  apply ensureScheduleMessage_post in Hens
    as (Hmeta & _ & _ & [(_ & Hsame & _)|(_ & Hid & _ & msgs0 & t & Hch0 & Hnew & _)]);
    simpl in *.
  - rewrite Hsame, Hd in *. split.
    + intros other Hne. by rewrite lookup_insert_ne.
    + exists msg, msgs, (<[msg := schedule_payload embed]> msgs).
      split; [exact Hmeta|]. split; [exact Hch|].
      split; [by rewrite lookup_insert_eq|].
      intros m Hne. by rewrite lookup_insert_ne.
  - rewrite Hd in Hch0. rewrite Hnew in Hch |- *. simpl in *.
    rewrite lookup_insert_eq in Hch. inversion Hch; subst msgs.
    split.
    + intros other Hne. rewrite !lookup_insert_ne by done. by rewrite Hd.
    + exists msg, msgs0. eexists.
      split; [exact Hmeta|]. split; [exact Hch0|].
      split; [by rewrite lookup_insert_eq|].
      intros m Hne. by rewrite !lookup_insert_ne.
Qed.

Lemma ensureScheduleMessage_creates thread metaKey s msgs :
  channels (discord s) !! thread = Some (Some msgs) ->
  (forall m, meta_of s !! metaKey = Some m -> msgs !! messageId m = None) ->
  exists s',
    ensureScheduleMessage thread metaKey s = (Ok (next_id (discord s)), s') /\
    meta_file s'
      = Some (<[metaKey := {| messageId := next_id (discord s) |}]> (meta_of s)) /\
    discord s' =
      {| channels :=
           <[thread := Some (<[next_id (discord s)
                                := {| content := "Initializing schedule…"; embeds := [] |}]> msgs)]>
             (channels (discord s));
         next_id := N.succ (next_id (discord s)) |} /\
    exists t, trace s' = trace s ++ t /\
      sent t = [(thread, next_id (discord s))] /\ meta_writes t = 1%nat.
Proof.
  intros Hch Hstale.
  unfold ensureScheduleMessage, loadMetaAll, bind, log, modify, gets. simpl.
  fold (meta_of s).
  destruct (meta_of s !! metaKey) as [[stored]|] eqn:Emeta; simpl.
  - specialize (Hstale _ eq_refl). simpl in Hstale.
    unfold try_catch, messages_fetch, bind, log, modify, gets, ret, throw. simpl.
    rewrite Hch, Hstale. run_create. rewrite Hch. simpl.
    eexists. split; [reflexivity|]. simpl. split; [reflexivity|]. split; [reflexivity|].
    eexists. rewrite <- !app_assoc. split; [reflexivity|]. by split.
  - run_create. rewrite Hch. simpl.
    eexists. split; [reflexivity|]. simpl. split; [reflexivity|]. split; [reflexivity|].
    eexists. rewrite <- !app_assoc. split; [reflexivity|]. by split.
Qed.

(** X15. With the thread reachable and no message of the thread stored
    for the key (none stored, or the stored one gone), a publication
    whose query succeeds creates exactly one message, with the next
    identifier of Discord, and binds the key to it in the meta file.
    When the render of the records passes the checks of the builder,
    the publication returns their number and leaves the message
    showing the render; when it does not, the publication throws the
    error of the builder and the message, still bound to the key, is
    left showing the text it was created with. *)
Theorem publishSchedule_creates_message
    W tid databaseId monthKey metaKey tzLabel s events sq msgs :
  JsString.truthy tid = true ->
  queryNotionForMonth W databaseId monthKey s = (Ok events, sq) ->
  channels (discord s) !! tid = Some (Some msgs) ->
  (forall m, meta_of s !! metaKey = Some m -> msgs !! messageId m = None) ->
  exists r s',
    publishSchedule W (Some tid) databaseId monthKey metaKey tzLabel s = (r, s') /\
    meta_file s'
      = Some (<[metaKey := {| messageId := next_id (discord s) |}]> (meta_of s)) /\
    next_id (discord s') = N.succ (next_id (discord s)) /\
    (exists t, trace s' = trace s ++ t /\
       sent t = [(tid, next_id (discord s))] /\ meta_writes t = 1%nat) /\
    match buildEmbed monthKey events tzLabel with
    | Ok embed =>
        r = Ok (Z.of_nat (length events)) /\
        channels (discord s')
          = <[tid := Some (<[next_id (discord s) := schedule_payload embed]> msgs)]>
              (channels (discord s))
    | Throw e =>
        r = Throw e /\
        channels (discord s')
          = <[tid := Some (<[next_id (discord s)
                              := {| content := "Initializing schedule…"; embeds := [] |}]> msgs)]>
              (channels (discord s))
    end.
Proof.
  intros Ht Hq Hch Hstale.
  destruct (notion_only_queryNotionForMonth W databaseId monthKey s)
    as (Hm & Hd & tq & Htq & Hall).
  rewrite Hq in Hm, Hd, Htq. simpl in Hm, Hd, Htq.
  destruct (notion_events_quiet _ Hall) as [Hsq Hwq].
  set (sc := append_trace (EvChannelsFetch tid) sq).
  destruct (ensureScheduleMessage_creates tid metaKey sc msgs)
    as (se & Hens & Hmeta & Hdis & t & Htr & Hs & Hw).
  { simpl. by rewrite Hd. }
  { intros m Hmm. apply Hstale. unfold meta_of in *. simpl in Hmm. by rewrite <- Hm. }
  simpl in Hens, Hmeta, Hdis, Htr, Hs. rewrite Hd in Hens, Hmeta, Hdis, Hs.
  rewrite (publishSchedule_configured _ _ _ _ _ _ _ Ht), Hq, Hd, Hch. cbv zeta.
  fold sc. rewrite Hens.
  destruct (buildEmbed monthKey events tzLabel) as [embed|e].
  - erewrite message_edit_live; cycle 1.
    { rewrite Hdis. simpl. apply lookup_insert_eq. }
    { rewrite lookup_insert_eq. eauto. }
    eexists _, _. split; [reflexivity|]. simpl.
    split. { rewrite Hmeta. unfold meta_of. simpl. by rewrite Hm. }
    split. { by rewrite Hdis. }
    split.
    { exists (tq ++ [EvChannelsFetch tid] ++ t ++
              [EvEdit tid (next_id (discord s)) (schedule_payload embed)]).
      split. { rewrite Htr. simpl. rewrite Htq. by rewrite <- !app_assoc. }
      rewrite sent_app, meta_writes_app, Hsq, Hwq. simpl.
      rewrite sent_app, meta_writes_app, Hs, Hw. by split. }
    split; [reflexivity|]. rewrite Hdis. simpl. by rewrite !insert_insert_eq.
  - eexists _, _. split; [reflexivity|]. simpl.
    split. { rewrite Hmeta. unfold meta_of. simpl. by rewrite Hm. }
    split. { by rewrite Hdis. }
    split.
    { exists (tq ++ [EvChannelsFetch tid] ++ t).
      split. { rewrite Htr. simpl. rewrite Htq. by rewrite <- !app_assoc. }
      rewrite sent_app, meta_writes_app, Hsq, Hwq. simpl. by rewrite Hs, Hw. }
    split; [reflexivity|]. by rewrite Hdis.
Qed.

(** *** Trimming and the shape of a line *)

Lemma rev_acc_app s : forall acc, JsString.rev_acc s acc = JsString.rev s +:+ acc.
Proof.
  unfold JsString.rev. induction s as [|c s IH]; intros acc; simpl; [reflexivity|].
  rewrite IH, (IH (String c "")), string_app_assoc. reflexivity.
Qed.

Lemma rev_cons c s : JsString.rev (String c s) = JsString.rev s +:+ String c "".
Proof. unfold JsString.rev at 1. simpl. apply rev_acc_app. Qed.

Lemma rev_app a b : JsString.rev (a +:+ b) = JsString.rev b +:+ JsString.rev a.
Proof.
  induction a as [|c a IH].
  - by rewrite string_app_nil_l, string_app_nil_r.
  - by rewrite string_app_cons, !rev_cons, IH, string_app_assoc.
Qed.

Lemma rev_rev s : JsString.rev (JsString.rev s) = s.
Proof.
  induction s as [|c s IH]; [reflexivity|].
  rewrite rev_cons, rev_app, IH. reflexivity.
Qed.

(** A token without the character [c] that is dropped from the front of
    [x ++ c :: y] lies within [x]. *)
Lemma drop_prefix_guard c t : forall x y r,
  has_char c t = false ->
  JsString.drop_prefix t (x +:+ String c y) = Some r ->
  exists x', x = t +:+ x' /\ r = x' +:+ String c y.
Proof.
  induction t as [|a t IH]; intros x y r Hc H.
  - simpl in H. inversion H; subst. by exists x.
  - simpl in Hc. apply orb_false_elim in Hc as [Hac Hc].
    destruct x as [|b x].
    + rewrite string_app_nil_l in H. simpl in H. rewrite Hac in H. discriminate.
    + rewrite string_app_cons in H. simpl in H.
      destruct (Ascii.eqb a b) eqn:Eab; [|discriminate].
      apply Ascii.eqb_eq in Eab. subst b.
      destruct (IH _ _ _ Hc H) as (x' & -> & ->). by exists x'.
Qed.

Lemma drop_first_of_guard c tokens : forall x y r,
  forallb (fun t => negb (has_char c t)) tokens = true ->
  JsString.drop_first_of tokens (x +:+ String c y) = Some r ->
  exists x0 x', x = x0 +:+ x' /\ r = x' +:+ String c y.
Proof.
  induction tokens as [|t tokens IH]; intros x y r Hall H; [discriminate|].
  simpl in Hall. apply andb_prop in Hall as [Ht Hall].
  apply negb_true_iff in Ht. simpl in H.
  destruct (JsString.drop_prefix t (x +:+ String c y)) as [r0|] eqn:E.
  - inversion H; subst r0.
    destruct (drop_prefix_guard _ _ _ _ _ Ht E) as (x' & -> & ->). by exists t, x'.
  - by apply IH.
Qed.

Lemma strip_leading_guard c tokens fuel : forall x y,
  forallb (fun t => negb (has_char c t)) tokens = true ->
  exists x0 x',
    x = x0 +:+ x' /\
    JsString.strip_leading tokens fuel (x +:+ String c y) = x' +:+ String c y.
Proof.
  induction fuel as [|fuel IH]; intros x y Hall; simpl.
  - by exists "", x.
  - destruct (JsString.drop_first_of tokens (x +:+ String c y)) as [r|] eqn:E.
    + destruct (drop_first_of_guard _ _ _ _ _ Hall E) as (x0 & x1 & -> & ->).
      destruct (IH x1 y Hall) as (x2 & x' & -> & Hs).
      exists (x0 +:+ x2), x'. by rewrite string_app_assoc.
    + by exists "", x.
Qed.

(** Trimming a string that starts with an opening bracket keeps
    everything up to a closing bracket and removes only from the end. *)
Lemma trim_bracketed body tail :
  exists kept dropped,
    tail = kept +:+ dropped /\
    JsString.trim (String "[" (body +:+ String "]" tail))
      = String "[" (body +:+ String "]" kept).
Proof.
  unfold JsString.trim.
  assert (JsString.trimStart (String "[" (body +:+ String "]" tail))
          = String "[" (body +:+ String "]" tail)) as ->.
  { unfold JsString.trimStart. simpl String.length. reflexivity. }
  unfold JsString.trimEnd.
  set (s := String "[" (body +:+ String "]" tail)).
  assert (JsString.rev s
          = JsString.rev tail +:+ String "]" (JsString.rev (String "[" body))) as ->.
  { subst s. change (String "[" (body +:+ String "]" tail))
      with (String "[" body +:+ String "]" tail).
    rewrite rev_app, rev_cons, string_app_assoc. reflexivity. }
  destruct (strip_leading_guard "]" (List.map JsString.rev JsString.white_space)
              (String.length s) (JsString.rev tail)
              (JsString.rev (String "[" body)) eq_refl)
    as (x0 & x' & Hx & ->).
  exists (JsString.rev x'), (JsString.rev x0). split.
  - rewrite <- rev_app, <- Hx. by rewrite rev_rev.
  - change (x' +:+ String "]" (JsString.rev (String "[" body)))
      with (x' +:+ (String "]" "" +:+ JsString.rev (String "[" body))).
    rewrite !rev_app, rev_rev. simpl JsString.rev at 1.
    rewrite !string_app_cons, string_app_assoc. reflexivity.
Qed.

Lemma line_shape evt :
  exists body tail,
    untrimmed_line evt = String "[" (body +:+ String "]" tail) /\
    line_head evt = String "[" (body +:+ String "]" "").
Proof.
  unfold untrimmed_line, line_head. cbv zeta.
  set (mon := JsString.toUpperCase _). set (day := JsString.padStart0 _ _).
  set (tp := if JsString.truthy (timeText evt) then _ else _).
  set (emoji := if String.eqb (type evt) "Birthday" then _ else _).
  set (meta := match _ ++ _ with [] => _ | _ => _ end).
  set (lk := if JsString.truthy (link evt) then _ else _).
  exists (mon +:+ " " +:+ day +:+ tp), (" " +:+ emoji +:+ title evt +:+ meta +:+ lk).
  split; repeat (rewrite ?string_app_assoc, ?string_app_cons, ?string_app_nil_l);
    rewrite ?string_app_nil_r; reflexivity.
Qed.

Lemma fmtLine_head_aux evt : exists kept, fmtLine evt = line_head evt +:+ kept.
Proof.
  destruct (line_shape evt) as (body & tail & Hu & Hh).
  destruct (trim_bracketed body tail) as (kept & _ & _ & Htrim).
  exists kept. change (fmtLine evt) with (JsString.trim (untrimmed_line evt)).
  rewrite Hu, Htrim, Hh.
  rewrite string_app_cons, string_app_assoc, string_app_cons, string_app_nil_l.
  reflexivity.
Qed.

(** X16. Trimming removes nothing from the front of a line and nothing
    up to the closing bracket: every line starts with the bracketed
    date, followed by the time label when there is one, and is the
    untrimmed line less some of its end. *)
Theorem fmtLine_head evt :
  exists kept dropped,
    fmtLine evt = line_head evt +:+ kept /\
    untrimmed_line evt = fmtLine evt +:+ dropped.
Proof.
  destruct (line_shape evt) as (body & tail & Hu & Hh).
  destruct (trim_bracketed body tail) as (kept & dropped & -> & Htrim).
  exists kept, dropped.
  change (fmtLine evt) with (JsString.trim (untrimmed_line evt)).
  rewrite Hu, Htrim, Hh. split.
  - rewrite string_app_cons, string_app_assoc, string_app_cons, string_app_nil_l.
    reflexivity.
  - rewrite !string_app_cons, !string_app_assoc, !string_app_cons. reflexivity.
Qed.

Lemma line_head_bracket evt : exists rest, line_head evt = String "[" rest.
Proof.
  unfold line_head. cbv zeta.
  eexists. rewrite string_app_cons, string_app_nil_l. reflexivity.
Qed.

Lemma buildEmbed_inv monthKey events tzLabel embed :
  buildEmbed monthKey events tzLabel = Ok embed ->
  description embed
    = match events with
      | [] => "_No upcoming entries._"
      | _ => JsString.join (JsString.of_codes [10%nat]) (List.map fmtLine events)
      end /\
  embed_text_ok 4096 (description embed) = true /\
  footer embed = "Synced from Notion • " +:+ default "KST" tzLabel /\
  embed_text_ok 2048 (footer embed) = true.
Proof.
  unfold buildEmbed. cbv zeta.
  set (body := match events with
               | [] => "_No upcoming entries._"
               | _ => JsString.join (JsString.of_codes [10%nat]) (List.map fmtLine events)
               end).
  set (text := "Synced from Notion • " +:+ default "KST" tzLabel).
  destruct (embed_text_ok 4096 body) eqn:E1; [|discriminate].
  destruct (embed_text_ok 2048 text) eqn:E2; [|discriminate].
  intros H. inversion H; subst embed. cbn [description footer]. auto.
Qed.

(** X17. The body of an embed [buildEmbed] returns is never empty and
    has at most 4096 characters: it is the placeholder exactly when
    there are no events, and otherwise it opens with the bracketed date
    of the first event. *)
Theorem buildEmbed_body monthKey events tzLabel embed :
  buildEmbed monthKey events tzLabel = Ok embed ->
  let body := description embed in
  body <> "" /\
  (JsString.length body <= 4096)%nat /\
  (body = "_No upcoming entries._" <-> events = []) /\
  (forall evt rest, events = evt :: rest ->
     exists tail, body = line_head evt +:+ tail).
Proof.
  intros H. cbv zeta.
  destruct (buildEmbed_inv _ _ _ _ H) as (Hbody & Hfits & _).
  assert (JsString.length (description embed) <= 4096)%nat as Hlen.
  { unfold embed_text_ok in Hfits. apply andb_prop in Hfits as [_ Hle].
    by apply Nat.leb_le. }
  rewrite Hbody in Hlen |- *. clear H Hbody Hfits.
  destruct events as [|evt rest].
  - split; [discriminate|]. split; [exact Hlen|].
    split; [split; reflexivity|]. intros ? ? [=].
  - assert (exists tail,
              JsString.join (JsString.of_codes [10%nat]) (List.map fmtLine (evt :: rest))
              = line_head evt +:+ tail) as (tail & Hb).
    { cbn [List.map JsString.join].
      destruct (fmtLine_head_aux evt) as (kept & Hk). rewrite Hk.
      destruct (List.map fmtLine rest).
      - by exists kept.
      - eexists. rewrite string_app_assoc. reflexivity. }
    destruct (line_head_bracket evt) as (r & Hr).
    rewrite Hb, Hr, string_app_cons in Hlen |- *.
    split; [discriminate|]. split; [exact Hlen|]. split.
    + split; discriminate.
    + intros ? ? [= <- <-]. exists tail. by rewrite Hr, string_app_cons.
Qed.

(** *** The calendar: periods of 400 years *)

Lemma DayFromYear_400 y q :
  JsDate.DayFromYear (y + 400 * q) = JsDate.DayFromYear y + 146097 * q.
Proof.
  unfold JsDate.DayFromYear.
  replace (y + 400 * q - 1969) with (y - 1969 + (100 * q) * 4) by lia.
  replace (y + 400 * q - 1901) with (y - 1901 + (4 * q) * 100) by lia.
  replace (y + 400 * q - 1601) with (y - 1601 + q * 400) by lia.
  rewrite !Z.div_add by lia. lia.
Qed.

Lemma InLeapYear_400 y q : JsDate.InLeapYear (y + 400 * q) = JsDate.InLeapYear y.
Proof.
  unfold JsDate.InLeapYear.
  replace ((y + 400 * q) mod 4) with (y mod 4)
    by (replace (y + 400 * q) with (y + (100 * q) * 4) by lia; by rewrite Z.mod_add).
  replace ((y + 400 * q) mod 100) with (y mod 100)
    by (replace (y + 400 * q) with (y + (4 * q) * 100) by lia; by rewrite Z.mod_add).
  replace ((y + 400 * q) mod 400) with (y mod 400)
    by (replace (y + 400 * q) with (y + q * 400) by lia; by rewrite Z.mod_add).
  reflexivity.
Qed.

Lemma MakeDay_400 y q m d :
  JsDate.MakeDay (y + 400 * q) m d = JsDate.MakeDay y m d + 146097 * q.
Proof.
  unfold JsDate.MakeDay. cbv zeta.
  replace (y + 400 * q + m / 12) with (y + m / 12 + 400 * q) by lia.
  rewrite DayFromYear_400, InLeapYear_400. lia.
Qed.

Lemma civil_from_days_400 day q :
  JsDate.civil_from_days (day + 146097 * q)
    = shift_years q (JsDate.civil_from_days day).
Proof.
  unfold JsDate.civil_from_days, shift_years. cbv zeta.
  replace (day + 146097 * q + 719468) with (day + 719468 + q * 146097) by lia.
  rewrite Z.div_add by lia.
  set (z := day + 719468). set (era := z / 146097).
  replace (z + q * 146097 - (era + q) * 146097) with (z - era * 146097) by lia.
  set (doe := z - era * 146097). simpl. f_equal. f_equal. lia.
Qed.

Lemma all_from_spec f n : forall z k,
  all_from f n z = true -> z <= k < z + Z.of_nat n -> f k = true.
Proof.
  induction n as [|n IH]; intros z k H Hk; [lia|].
  simpl in H. apply andb_prop in H as [Hz H].
  destruct (decide (k = z)) as [->|Hne]; [exact Hz|].
  apply (IH (z + 1)); [exact H|lia].
Qed.

Lemma civil_eqb_eq a b : civil_eqb a b = true -> a = b.
Proof.
  destruct a as [[? ?] ?], b as [[? ?] ?]. unfold civil_eqb. simpl. intros H.
  apply andb_prop in H as [H H3]. apply andb_prop in H as [H1 H2].
  apply Z.eqb_eq in H1, H2, H3. by subst.
Qed.

Lemma walk_days_spec n : forall day y m S E,
  walk_days n day y m S E = true ->
  S = JsDate.MakeDay y m 1 -> E = JsDate.MakeDay y (m + 1) 1 ->
  0 <= m <= 11 -> S <= day <= E ->
  forall k, day <= k < day + Z.of_nat n -> in_month k (JsDate.civil_from_days k).
Proof.
  induction n as [|n IH]; intros day y m S E H HS HE Hm Hday k Hk; [lia|].
  cbn [walk_days] in H.
  destruct (day <? E) eqn:Elt.
  - apply Z.ltb_lt in Elt. apply andb_prop in H as [Hc Hw].
    destruct (decide (k = day)) as [->|Hne].
    + rewrite (civil_eqb_eq _ _ Hc). unfold in_month. cbn [fst snd]. lia.
    + apply (IH (day + 1) y m S E Hw HS HE Hm); lia.
  - apply Z.ltb_ge in Elt. cbv zeta in H.
    set (y' := if m =? 11 then y + 1 else y) in *.
    set (m' := if m =? 11 then 0 else m + 1) in *.
    apply andb_prop in H as [H Hw]. apply andb_prop in H as [H Hc].
    apply andb_prop in H as [H1 H2].
    apply Z.eqb_eq in H1. apply Z.ltb_lt in H2.
    assert (0 <= m' <= 11) as Hm' by (subst m'; destruct (m =? 11) eqn:E11; lia).
    destruct (decide (k = day)) as [->|Hne].
    + rewrite (civil_eqb_eq _ _ Hc). unfold in_month. cbn [fst snd]. lia.
    + apply (IH (day + 1) y' m' E (JsDate.MakeDay y' (m' + 1) 1) Hw H1 eq_refl Hm');
        lia.
Qed.

(** The first day of each month of the years 0 to 399. *)
Lemma first_of_month_check :
  all_from (fun r =>
    all_from (fun m =>
      civil_eqb (JsDate.civil_from_days (JsDate.MakeDay r m 1)) (r, m, 1)) 12 0)
    400 0 = true.
Proof. vm_cast_no_check (eq_refl true). Qed.

(** The days of the 400 years from 1 March of year 0. *)
Lemma day_check :
  walk_days (Z.to_nat 146097) (-719468) 0 2
    (JsDate.MakeDay 0 2 1) (JsDate.MakeDay 0 3 1) = true.
Proof. vm_cast_no_check (eq_refl true). Qed.

Lemma civil_from_days_era doe :
  0 <= doe < 146097 ->
  in_month (doe - 719468) (JsDate.civil_from_days (doe - 719468)).
Proof.
  intros H.
  apply (walk_days_spec (Z.to_nat 146097) (-719468) 0 2 _ _ day_check eq_refl eq_refl).
  - lia.
  - split; apply Z.leb_le; vm_compute; reflexivity.
  - rewrite Z2Nat.id; lia.
Qed.

Lemma civil_from_days_first_era r q m :
  0 <= r < 400 -> 0 <= m < 12 ->
  JsDate.civil_from_days (JsDate.MakeDay (r + 400 * q) m 1) = (r + 400 * q, m, 1).
Proof.
  intros Hr Hm.
  rewrite MakeDay_400, civil_from_days_400.
  rewrite (civil_eqb_eq _ _
             (all_from_spec _ 12 0 m
                (all_from_spec _ 400 0 r first_of_month_check Hr) Hm)).
  reflexivity.
Qed.

Lemma MakeDay_carry y m d :
  JsDate.MakeDay y m d = JsDate.MakeDay (y + m / 12) (m mod 12) d.
Proof.
  unfold JsDate.MakeDay. cbv zeta.
  assert (0 <= m mod 12 < 12) as Hr by (apply Z.mod_pos_bound; lia).
  rewrite Z.mod_mod by lia.
  rewrite (Z.div_small (m mod 12)) by lia.
  replace (y + m / 12 + 0) with (y + m / 12) by lia. reflexivity.
Qed.

(** Day 1 of month index [m] of year [y] is the first of a month: the
    month index carries into the year. *)
Lemma civil_from_days_first y m :
  JsDate.civil_from_days (JsDate.MakeDay y m 1) = (y + m / 12, m mod 12, 1).
Proof.
  rewrite MakeDay_carry.
  assert (0 <= m mod 12 < 12) as Hmn by (apply Z.mod_pos_bound; lia).
  assert (exists r q, y + m / 12 = r + 400 * q /\ 0 <= r < 400) as (r & q & -> & Hr).
  { exists ((y + m / 12) mod 400), ((y + m / 12) / 400). split.
    - pose proof (Z.div_mod (y + m / 12) 400). lia.
    - apply Z.mod_pos_bound. lia. }
  apply civil_from_days_first_era; assumption.
Qed.

(** A day lies in the month [civil_from_days] gives it. *)
Lemma civil_from_days_month day : in_month day (JsDate.civil_from_days day).
Proof.
  assert (0 <= (day + 719468) mod 146097 < 146097) as Hdoe
    by (apply Z.mod_pos_bound; lia).
  pose proof (Z.div_mod (day + 719468) 146097 ltac:(lia)) as Hday.
  set (doe := (day + 719468) mod 146097) in *.
  set (q := (day + 719468) / 146097) in *.
  assert (day = (doe - 719468) + 146097 * q) as Hd by lia.
  clearbody doe q. subst day. clear Hday.
  rewrite civil_from_days_400.
  pose proof (civil_from_days_era doe Hdoe) as Hc.
  destruct (JsDate.civil_from_days (doe - 719468)) as [[y m] d].
  unfold in_month, shift_years in *. simpl in *. rewrite !MakeDay_400. lia.
Qed.

(** *** Numbers in month keys *)

Lemma digits_value_app a b : forall acc,
  JsString.digits_value (a +:+ b) acc
    = JsString.digits_value a acc ≫= JsString.digits_value b.
Proof.
  induction a as [|c a IH]; intros acc.
  - by rewrite string_app_nil_l.
  - rewrite string_app_cons. simpl.
    destruct (JsString.digit_value c); [apply IH|reflexivity].
Qed.

Lemma has_char_app c a b : has_char c (a +:+ b) = has_char c a || has_char c b.
Proof.
  induction a as [|x a IH]; [by rewrite string_app_nil_l|].
  rewrite string_app_cons. simpl. by rewrite IH, orb_assoc.
Qed.

Lemma pretty_N_char_digit x :
  (x < 10)%N ->
  JsString.digit_value (pretty_N_char x) = Some (Z.of_N x) /\
  Ascii.eqb (pretty_N_char x) "-" = false.
Proof.
  intros Hx.
  assert (x = 0 \/ x = 1 \/ x = 2 \/ x = 3 \/ x = 4 \/ x = 5 \/ x = 6 \/ x = 7
          \/ x = 8 \/ x = 9)%N as H by lia.
  repeat (destruct H as [->|H]; [by split|]). subst x. by split.
Qed.

(** The digits [pretty] prints for a natural number read back as it. *)
Lemma pretty_N_go_digits x : forall s,
  exists p,
    pretty_N_go x s = p +:+ s /\
    JsString.digits_value p 0 = Some (Z.of_N x) /\
    has_char "-" p = false.
Proof.
  induction (N.lt_wf_0 x) as [x _ IH]. intros s.
  assert (x = 0 \/ 0 < x)%N as [->|Hpos] by lia.
  - exists "". rewrite pretty_N_go_0, string_app_nil_l. by repeat split.
  - rewrite pretty_N_go_step by done.
    destruct (IH (x `div` 10)%N (N.div_lt x 10 Hpos eq_refl)
                 (String (pretty_N_char (x `mod` 10)) s)) as (p & -> & Hv & Hd).
    destruct (pretty_N_char_digit (x `mod` 10)%N) as [Hdig Hne];
      [by apply N.mod_lt|].
    exists (p +:+ String (pretty_N_char (x `mod` 10)) "").
    split; [by rewrite string_app_assoc, string_app_cons, string_app_nil_l|].
    split.
    + rewrite digits_value_app, Hv. simpl. rewrite Hdig. f_equal.
      pose proof (N.div_mod x 10). lia.
    + rewrite has_char_app, Hd. simpl. by rewrite Hne.
Qed.

Lemma Number_pretty z :
  0 <= z ->
  JsString.Number (pretty z) = Some z /\ has_char "-" (pretty z) = false.
Proof.
  intros Hz. destruct z as [|p|p]; [by split| |lia].
  change (pretty (Z.pos p)) with (pretty (N.pos p)).
  unfold pretty, pretty_N. destruct (decide (N.pos p = 0%N)) as [|_]; [done|].
  destruct (pretty_N_go_digits (N.pos p) "") as (d & -> & Hv & Hd).
  rewrite string_app_nil_r. by split.
Qed.

Lemma pretty_four_digits z : 1000 <= z <= 9999 -> String.length (pretty z) = 4%nat.
Proof.
  intros Hz. destruct z as [|p|p]; [lia| |lia].
  change (pretty (Z.pos p)) with (pretty (N.pos p)).
  unfold pretty, pretty_N. destruct (decide (N.pos p = 0%N)) as [|_]; [done|].
  set (x := N.pos p). assert (1000 <= x <= 9999)%N as Hx by lia. clearbody x.
  rewrite pretty_N_go_step by lia.
  rewrite pretty_N_go_step by (apply N.div_str_pos; lia).
  assert (10 <= (x `div` 10) `div` 10 < 100)%N as H2.
  { split; [apply N.div_le_lower_bound; [lia|]; apply N.div_le_lower_bound; lia|].
    apply N.Div0.div_lt_upper_bound. apply N.Div0.div_lt_upper_bound. lia. }
  rewrite pretty_N_go_step by lia.
  assert (1 <= ((x `div` 10) `div` 10) `div` 10 < 10)%N as H3.
  { split; [apply N.div_le_lower_bound; lia|].
    apply N.Div0.div_lt_upper_bound. lia. }
  rewrite pretty_N_go_step by lia.
  rewrite (N.div_small (((x `div` 10) `div` 10) `div` 10) 10) by lia.
  by rewrite pretty_N_go_0.
Qed.

Lemma split_on_none c s : has_char c s = false -> JsString.split_on c s = [s].
Proof.
  induction s as [|a s IH]; [done|]. simpl. intros H.
  apply orb_false_elim in H as [Ha Hs]. rewrite Ha, (IH Hs). reflexivity.
Qed.

Lemma split_on_app c a b :
  has_char c a = false ->
  JsString.split_on c (a +:+ String c b) = a :: JsString.split_on c b.
Proof.
  induction a as [|x a IH]; intros H.
  - rewrite string_app_nil_l. simpl. by rewrite Ascii.eqb_refl.
  - simpl in H. apply orb_false_elim in H as [Hx Ha].
    rewrite string_app_cons. simpl. rewrite Hx, (IH Ha). reflexivity.
Qed.

(** The month part of a key: two digits that read back as the month. *)
Lemma month_part m :
  0 <= m <= 11 ->
  let part := JsString.padStart0 2 (pretty (m + 1)) in
  JsString.Number part = Some (m + 1) /\
  has_char "-" part = false /\
  String.length part = 2%nat.
Proof.
  intros Hm.
  assert (m = 0 \/ m = 1 \/ m = 2 \/ m = 3 \/ m = 4 \/ m = 5 \/ m = 6 \/ m = 7
          \/ m = 8 \/ m = 9 \/ m = 10 \/ m = 11) as H by lia.
  repeat (destruct H as [->|H]; [by vm_compute|]). subst m. by vm_compute.
Qed.

(** *** Month keys and their windows *)

Lemma getMonth_range now : 0 <= JsDate.getMonth LocalTZA now <= 11.
Proof.
  unfold JsDate.getMonth.
  destruct (civil_from_days_month (JsDate.Day (JsDate.LocalTime LocalTZA now)))
    as (H & _). exact H.
Qed.

Lemma monthKeyFromDate_parts now :
  0 <= JsDate.getFullYear LocalTZA now ->
  month_key_fields (monthKeyFromDate (Some now))
    = (Some (JsDate.getFullYear LocalTZA now), Some (JsDate.getMonth LocalTZA now + 1)) /\
  JsString.split_on "-" (monthKeyFromDate (Some now))
    = [pretty (JsDate.getFullYear LocalTZA now);
       JsString.padStart0 2 (pretty (JsDate.getMonth LocalTZA now + 1))].
Proof.
  intros Hy.
  destruct (Number_pretty _ Hy) as [Hny Hdy].
  destruct (month_part _ (getMonth_range now)) as (Hnm & Hdm & _).
  assert (JsString.split_on "-" (monthKeyFromDate (Some now))
          = [pretty (JsDate.getFullYear LocalTZA now);
             JsString.padStart0 2 (pretty (JsDate.getMonth LocalTZA now + 1))]) as Hs.
  { unfold monthKeyFromDate. cbn [fmap option_fmap option_map print_number].
    rewrite string_app_cons, string_app_nil_l.
    rewrite (split_on_app _ _ _ Hdy), (split_on_none _ _ Hdm). reflexivity. }
  split; [|exact Hs].
  unfold month_key_fields. rewrite Hs. cbn [List.map]. by rewrite Hny, Hnm.
Qed.

Lemma LocalTime_UTC off t :
  fixed_offset off -> JsDate.LocalTime LocalTZA (JsDate.UTC LocalTZA t) = t.
Proof.
  intros [Hoff _]. unfold JsDate.LocalTime, JsDate.UTC. rewrite !Hoff. lia.
Qed.

Lemma Day_MakeDate d : JsDate.Day (JsDate.MakeDate d 0) = d.
Proof.
  unfold JsDate.Day, JsDate.MakeDate. rewrite Z.add_0_r.
  apply Z.div_mul. discriminate.
Qed.

Lemma first_instant_of_month_eq y k :
  first_instant_of_month y (k + 1)
    = JsDate.UTC LocalTZA (JsDate.MakeDate (JsDate.MakeDay y k 1) 0).
Proof. unfold first_instant_of_month. by replace (k + 1 - 1) with k by lia. Qed.

(** The first instant of a month reads as the first of that month. *)
Lemma first_instant_reads off y k :
  fixed_offset off ->
  JsDate.civil_from_days
    (JsDate.Day (JsDate.LocalTime LocalTZA (first_instant_of_month y (k + 1))))
    = (y + k / 12, k mod 12, 1).
Proof.
  intros Hoff.
  rewrite first_instant_of_month_eq, (LocalTime_UTC off _ Hoff), Day_MakeDate.
  apply civil_from_days_first.
Qed.

Lemma month_offset_range m leap :
  0 <= m < 12 -> 0 <= JsDate.month_offset m leap <= 335.
Proof.
  intros Hm.
  assert (m = 0 \/ m = 1 \/ m = 2 \/ m = 3 \/ m = 4 \/ m = 5 \/ m = 6 \/ m = 7
          \/ m = 8 \/ m = 9 \/ m = 10 \/ m = 11) as H by lia.
  repeat (destruct H as [->|H]; [destruct leap; simpl; lia|]).
  subst m. destruct leap; simpl; lia.
Qed.

Lemma MakeDay_range y k :
  99 <= y + k / 12 <= 10000 ->
  -700000 <= JsDate.MakeDay y k 1 <= 3000000.
Proof.
  intros Hy. unfold JsDate.MakeDay. cbv zeta.
  pose proof (month_offset_range (k mod 12) (JsDate.InLeapYear (y + k / 12))
                (Z.mod_pos_bound k 12 ltac:(lia))) as Hm.
  set (Y := y + k / 12) in *. clearbody Y.
  set (o := JsDate.month_offset _ _) in *. clearbody o.
  unfold JsDate.DayFromYear. Z.to_euclidean_division_equations. lia.
Qed.

Lemma full_year_range y : 0 <= y <= 9999 -> 100 <= JsDate.full_year y <= 9999.
Proof.
  intros Hy. unfold JsDate.full_year.
  destruct ((0 <=? y) && (y <=? 99)) eqn:E; [lia|].
  apply andb_false_iff in E as [E|E]; lia.
Qed.

Lemma full_year_id y : 100 <= y -> JsDate.full_year y = y.
Proof.
  intros Hy. unfold JsDate.full_year.
  replace ((0 <=? y) && (y <=? 99)) with false
    by (symmetry; apply andb_false_iff; right; lia).
  reflexivity.
Qed.

(** [new Date(y, k, 1)] for a year that stays within four digits: a
    valid date, the first instant of that month. *)
Lemma new_Date_local_valid off y k :
  fixed_offset off ->
  99 <= JsDate.full_year y + k / 12 <= 10000 ->
  JsDate.new_Date_local LocalTZA (Some y) (Some k) 1
    = Some (first_instant_of_month (JsDate.full_year y) (k + 1)).
Proof.
  intros [Hoff Habs] Hyk.
  unfold JsDate.new_Date_local.
  rewrite first_instant_of_month_eq.
  pose proof (MakeDay_range _ k Hyk) as Hr.
  unfold JsDate.TimeClip, JsDate.UTC, JsDate.MakeDate. rewrite Hoff.
  set (D := JsDate.MakeDay _ k 1) in *. clearbody D.
  unfold JsDate.msPerDay in *.
  destruct (Z.abs (D * 86400000 + 0 - off) <=? 8640000000000000) eqn:E;
    [reflexivity|]. apply Z.leb_gt in E. lia.
Qed.

Lemma new_Date_local_first off y k :
  fixed_offset off ->
  100 <= y ->
  99 <= y + k / 12 <= 10000 ->
  JsDate.new_Date_local LocalTZA (Some y) (Some k) 1
    = Some (first_instant_of_month y (k + 1)).
Proof.
  intros Hoff Hy Hyk.
  rewrite (new_Date_local_valid off) by (rewrite ?full_year_id; done).
  by rewrite full_year_id.
Qed.

Lemma first_instant_carry y k :
  first_instant_of_month (y + k / 12) (k mod 12 + 1) = first_instant_of_month y (k + 1).
Proof. by rewrite !first_instant_of_month_eq, <- MakeDay_carry. Qed.

Lemma first_instant_next y k :
  first_instant_of_month (y + k / 12) (k mod 12 + 1 + 1)
    = first_instant_of_month y (k + 1 + 1).
Proof.
  rewrite !first_instant_of_month_eq.
  rewrite (MakeDay_carry (y + k / 12)), (MakeDay_carry y (k + 1)).
  assert ((k mod 12 + 1) / 12 + k / 12 = (k + 1) / 12) as H1
    by (Z.to_euclidean_division_equations; lia).
  assert ((k mod 12 + 1) mod 12 = (k + 1) mod 12) as H2
    by (Z.to_euclidean_division_equations; lia).
  rewrite H2, <- H1. by replace (y + k / 12 + (k mod 12 + 1) / 12)
    with (y + ((k mod 12 + 1) / 12 + k / 12)) by lia.
Qed.

(** Consecutive months: the first instant of a month precedes that of
    the next. *)
Lemma first_instant_lt off y k :
  fixed_offset off ->
  first_instant_of_month y (k + 1) < first_instant_of_month y (k + 1 + 1).
Proof.
  intros [Hoff _].
  pose proof (civil_from_days_month (JsDate.MakeDay y k 1)) as H.
  rewrite civil_from_days_first in H. unfold in_month in H. simpl in H.
  destruct H as (_ & _ & _ & Hlt).
  pose proof (first_instant_next y k) as Hn.
  rewrite !first_instant_of_month_eq in Hn.
  rewrite (first_instant_of_month_eq y (k + 1)).
  rewrite <- Hn. rewrite first_instant_of_month_eq.
  unfold JsDate.UTC, JsDate.MakeDate, JsDate.msPerDay. rewrite !Hoff. lia.
Qed.

(** The present instant lies in its month. *)
Lemma now_in_month off now :
  fixed_offset off ->
  let y := JsDate.getFullYear LocalTZA now in
  let m := JsDate.getMonth LocalTZA now in
  first_instant_of_month y (m + 1) <= now < first_instant_of_month y (m + 1 + 1).
Proof.
  intros [Hoff _]. cbv zeta.
  unfold JsDate.getFullYear, JsDate.getMonth.
  pose proof (civil_from_days_month (JsDate.Day (JsDate.LocalTime LocalTZA now))) as H.
  unfold in_month in H. destruct H as (_ & Hd & Hday & Hnext).
  rewrite !first_instant_of_month_eq.
  set (c := JsDate.civil_from_days _) in *. clearbody c.
  set (A := JsDate.MakeDay c.1.1 c.1.2 1) in *.
  set (B := JsDate.MakeDay c.1.1 (c.1.2 + 1) 1) in *. clearbody A B.
  unfold JsDate.UTC, JsDate.MakeDate. rewrite !Hoff.
  unfold JsDate.Day, JsDate.LocalTime in Hday, Hnext. rewrite Hoff in Hday, Hnext.
  unfold JsDate.msPerDay in *.
  pose proof (Z.div_mod (now + off) 86400000 ltac:(lia)) as Hdm.
  pose proof (Z.mod_pos_bound (now + off) 86400000 ltac:(lia)) as Hmod.
  lia.
Qed.

(** The window of a key whose parts are a year from 100 on and a month. *)
Lemma monthStartEnd_fields off monthKey Y M :
  fixed_offset off ->
  100 <= Y <= 9999 ->
  1 <= M <= 12 ->
  month_key_fields monthKey = (Some Y, Some M) ->
  monthStartEnd monthKey
    = (Some (first_instant_of_month Y M), Some (first_instant_of_month Y (M + 1))).
Proof.
  intros Hoff HY HM Hf. unfold monthStartEnd. rewrite Hf.
  cbn [fmap option_fmap option_map].
  assert (0 <= (M - 1) / 12 <= 0) as H1
    by (rewrite Z.div_small by lia; lia).
  assert (0 <= M / 12 <= 1) as H2
    by (split; [apply Z.div_pos; lia|apply Z.div_le_upper_bound; lia]).
  rewrite (new_Date_local_first off Y (M - 1) Hoff) by lia.
  rewrite (new_Date_local_first off Y M Hoff) by lia.
  by replace (M - 1 + 1) with M by lia.
Qed.

(** X18. The key of an instant reads back as its year and month: for a
    year that is not negative, [monthStartEnd] and [fmtMonthTitle] see
    the local year of the instant and its month counted from 1; with a
    four-digit year the key has the form YYYY-MM. *)
Theorem monthKeyFromDate_fields now :
  let y := JsDate.getFullYear LocalTZA now in
  let m := JsDate.getMonth LocalTZA now in
  0 <= y ->
  month_key_fields (monthKeyFromDate (Some now)) = (Some y, Some (m + 1)) /\
  1 <= m + 1 <= 12 /\
  (1000 <= y <= 9999 -> valid_month_key (monthKeyFromDate (Some now)) = true).
Proof.
  intros y m Hy.
  destruct (monthKeyFromDate_parts now Hy) as [Hf Hs].
  pose proof (getMonth_range now) as Hm. fold m in Hm.
  split; [exact Hf|]. split; [lia|].
  intros H4. unfold valid_month_key. rewrite Hs.
  destruct (Number_pretty _ Hy) as [Hny _].
  destruct (month_part _ Hm) as (Hnm & _ & Hlen).
  fold y m. fold y in Hny. rewrite (pretty_four_digits y H4), Hlen, Hny, Hnm.
  simpl. apply andb_true_intro. split; [apply Z.leb_le|apply Z.leb_le]; lia.
Qed.

(** X19. On a host with a fixed offset from UTC, for a year between 100
    and 9999, the window [monthStartEnd] gives for the key of an
    instant contains the instant: it starts at local midnight of the
    first of its month and ends at local midnight of the first of the
    following month. *)
Theorem month_window_contains_now off now :
  let y := JsDate.getFullYear LocalTZA now in
  let m := JsDate.getMonth LocalTZA now in
  fixed_offset off ->
  100 <= y <= 9999 ->
  exists s e,
    monthStartEnd (monthKeyFromDate (Some now)) = (Some s, Some e) /\
    s <= now < e /\
    s = first_instant_of_month y (m + 1) /\
    e = first_instant_of_month (following_month y (m + 1)).1
                               (following_month y (m + 1)).2.
Proof.
  intros y m Hoff Hy.
  destruct (monthKeyFromDate_parts now ltac:(fold y; lia)) as [Hf _].
  pose proof (getMonth_range now) as Hm. fold y m in Hf, Hm.
  exists (first_instant_of_month y (m + 1)), (first_instant_of_month y (m + 1 + 1)).
  split; [apply (monthStartEnd_fields off); [done|lia|lia|exact Hf]|].
  split; [exact (now_in_month off now Hoff)|].
  split; [reflexivity|].
  unfold first_instant_of_month. f_equal. f_equal.
  replace (m + 1 + 1 - 1) with (m + 1) by lia.
  apply MakeDay_following. lia.
Qed.

(** The key of [new Date(y, k, 1)], as the sync command computes the
    keys of last and next month, and its window. *)
Lemma key_of_month off y k :
  fixed_offset off ->
  100 <= y ->
  100 <= y + k / 12 <= 9999 ->
  let key := monthKeyFromDate (JsDate.new_Date_local LocalTZA (Some y) (Some k) 1) in
  month_key_fields key = (Some (y + k / 12), Some (k mod 12 + 1)) /\
  monthStartEnd key
    = (Some (first_instant_of_month y (k + 1)),
       Some (first_instant_of_month y (k + 1 + 1))).
Proof.
  intros Hoff Hy Hyk. cbv zeta.
  rewrite (new_Date_local_first off y k Hoff) by lia.
  set (t := first_instant_of_month y (k + 1)).
  assert (JsDate.getFullYear LocalTZA t = y + k / 12) as Hgy
    by (unfold JsDate.getFullYear, t; by rewrite (first_instant_reads off _ _ Hoff)).
  assert (JsDate.getMonth LocalTZA t = k mod 12) as Hgm
    by (unfold JsDate.getMonth, t; by rewrite (first_instant_reads off _ _ Hoff)).
  destruct (monthKeyFromDate_parts t ltac:(lia)) as [Hf _].
  rewrite Hgy, Hgm in Hf. split; [exact Hf|].
  pose proof (Z.mod_pos_bound k 12 ltac:(lia)) as Hk.
  rewrite (monthStartEnd_fields off _ (y + k / 12) (k mod 12 + 1) Hoff
             ltac:(lia) ltac:(lia) Hf).
  by rewrite first_instant_carry, first_instant_next.
Qed.

(** X20. The three month keys the sync command computes, on a host
    with a fixed offset and for a year between 101 and 9998, name
    adjacent windows: last month's window ends where this month's
    begins, this month's contains the present instant and ends where
    next month's begins; from January last month is December of the
    year before, and from December next month is January of the year
    after. *)
Theorem sync_windows_adjacent off now :
  let y := JsDate.getFullYear LocalTZA now in
  let m := JsDate.getMonth LocalTZA now in
  let thisMonth := (sync_month_keys now).1.1 in
  let lastMonth := (sync_month_keys now).1.2 in
  let nextMonth := (sync_month_keys now).2 in
  fixed_offset off ->
  101 <= y <= 9998 ->
  (exists a b c d,
     monthStartEnd lastMonth = (Some a, Some b) /\
     monthStartEnd thisMonth = (Some b, Some c) /\
     monthStartEnd nextMonth = (Some c, Some d) /\
     a < b /\ b <= now < c /\ c < d) /\
  month_key_fields lastMonth
    = (if m =? 0 then (Some (y - 1), Some 12) else (Some y, Some m)) /\
  month_key_fields thisMonth = (Some y, Some (m + 1)) /\
  month_key_fields nextMonth
    = (if m =? 11 then (Some (y + 1), Some 1) else (Some y, Some (m + 2))).
Proof.
  cbv zeta. unfold sync_month_keys. cbn [fst snd].
  set (y := JsDate.getFullYear LocalTZA now).
  set (m := JsDate.getMonth LocalTZA now).
  intros Hoff Hy.
  pose proof (getMonth_range now) as Hm. fold m in Hm.
  assert (-1 <= (m - 1) / 12 <= 0 /\ 0 <= (m + 1) / 12 <= 1) as [Hl Hn]
    by (Z.to_euclidean_division_equations; lia).
  destruct (key_of_month off y (m - 1) Hoff ltac:(lia) ltac:(lia)) as [Hfl Hwl].
  destruct (key_of_month off y (m + 1) Hoff ltac:(lia) ltac:(lia)) as [Hfn Hwn].
  destruct (monthKeyFromDate_parts now ltac:(fold y; lia)) as [Hft _].
  fold y m in Hft.
  set (thisMonth := monthKeyFromDate (Some now)) in *.
  set (lastMonth := monthKeyFromDate
         (JsDate.new_Date_local LocalTZA (Some y) (Some (m - 1)) 1)) in *.
  set (nextMonth := monthKeyFromDate
         (JsDate.new_Date_local LocalTZA (Some y) (Some (m + 1)) 1)) in *.
  clearbody thisMonth lastMonth nextMonth.
  replace (m - 1 + 1 + 1) with (m + 1) in Hwl by lia.
  split; [|split; [|split; [exact Hft|]]].
  - exists (first_instant_of_month y (m - 1 + 1)), (first_instant_of_month y (m + 1)),
      (first_instant_of_month y (m + 1 + 1)), (first_instant_of_month y (m + 1 + 1 + 1)).
    split; [exact Hwl|].
    split; [apply (monthStartEnd_fields off); [done|lia|lia|exact Hft]|].
    split; [exact Hwn|].
    split; [|split; [exact (now_in_month off now Hoff)|]].
    + pose proof (first_instant_lt off y (m - 1) Hoff) as H.
      by replace (m - 1 + 1 + 1) with (m + 1) in H by lia.
    + exact (first_instant_lt off y (m + 1) Hoff).
  - rewrite Hfl. destruct (m =? 0) eqn:E.
    + apply Z.eqb_eq in E. rewrite E. reflexivity.
    + apply Z.eqb_neq in E.
      rewrite Z.div_small, Z.mod_small by lia. f_equal; f_equal; lia.
  - rewrite Hfn. destruct (m =? 11) eqn:E.
    + apply Z.eqb_eq in E. rewrite E. reflexivity.
    + apply Z.eqb_neq in E.
      rewrite Z.div_small, Z.mod_small by lia. f_equal; f_equal; lia.
Qed.

(** X21. On a host with a fixed offset, the title of a key whose parts
    are a year of at most four digits and a month from 1 to 12 is the
    English name of that month, a space and the year as the key has it
    read as a number. *)
Theorem fmtMonthTitle_names_month off monthKey Y M :
  fixed_offset off ->
  month_key_fields monthKey = (Some Y, Some M) ->
  0 <= Y <= 9999 ->
  1 <= M <= 12 ->
  fmtMonthTitle monthKey
    = nth (Z.to_nat (M - 1)) JsDate.month_long_en_US "" +:+ " " +:+ pretty Y.
Proof.
  intros Hoff Hf HY HM. unfold fmtMonthTitle. rewrite Hf.
  cbn [fmap option_fmap option_map print_number].
  pose proof (full_year_range Y HY) as Hfy.
  rewrite (new_Date_local_valid off Y (M - 1) Hoff)
    by (rewrite Z.div_small by lia; lia).
  unfold JsDate.toLocale_month_long, JsDate.getMonth.
  rewrite (first_instant_reads off _ _ Hoff). cbn [fst snd].
  by rewrite Z.mod_small by lia.
Qed.

End Program.

(** ** The properties at work on a concrete workspace *)

(** C1, as claimed, fails: with page zz not shared, resolving [a; zz; b]
    throws the error of the fetch instead of returning the names that
    resolve. *)
Lemma resolveRelationNames_fetch_failure_aborts :
  (resolveRelationNames (Demo.workspace []) (Some (Demo.rel ["a"; "zz"; "b"])) 2 Demo.s0).1
    = Throw (NotionApiError 404 "Could not find page") /\
  ~ exists names s',
      resolveRelationNames (Demo.workspace []) (Some (Demo.rel ["a"; "zz"; "b"])) 2 Demo.s0
        = (Ok names, s').
Proof.
  split; [vm_compute; reflexivity|].
  intros (names & s' & H). vm_compute in H. discriminate.
Qed.

(** The unshared page zz makes the call throw; the empty title of d is
    just left out. *)
Lemma resolveRelationNames_fetch_failure_propagates_witness :
  (exists s',
     resolveRelationNames (Demo.workspace []) (Some (Demo.rel ["a"; "zz"; "b"])) 2 Demo.s0
       = (Throw (NotionApiError 404 "Could not find page"), s')) /\
  (exists s',
     resolveRelationNames (Demo.workspace []) (Some (Demo.rel ["a"; "d"; "b"])) 2 Demo.s0
       = (Ok ["Aria"; "+1"], s')).
Proof.
  split.
  - apply (proj1 (resolveRelationNames_fetch_failure_propagates
                    (Demo.workspace []) (Some (Demo.rel ["a"; "zz"; "b"])) 2 Demo.s0)
             ["a"] "zz" [] (NotionApiError 404 "Could not find page")).
    + reflexivity.
    + intros k [<-|[]]. right. exists "Aria". reflexivity.
    + reflexivity.
    + reflexivity.
  - apply (proj2 (resolveRelationNames_fetch_failure_propagates
                    (Demo.workspace []) (Some (Demo.rel ["a"; "d"; "b"])) 2 Demo.s0)).
    intros k [<-|[<-|[]]]; right; [exists "Aria"|exists ""]; reflexivity.
Defined.

(** Five identifiers and a count of two: two names and the marker. *)
Lemma resolveRelationNames_bounded_witness :
  exists names s',
    resolveRelationNames (Demo.workspace [])
      (Some (Demo.rel ["a"; "b"; "c"; "d"; "e"])) 2 Demo.s0 = (Ok names, s') /\
    names = ["Aria"; "Bo"; "+3"] /\
    (length names <= 2 + 1)%nat /\
    last names = Some "+3".
Proof.
  destruct (resolveRelationNames_bounded (Demo.workspace [])
              (Some (Demo.rel ["a"; "b"; "c"; "d"; "e"])) 2%nat Demo.s0)
    as [Hret Hbound].
  destruct Hret as (names & s' & E).
  { intros pid [<-|[<-|[]]]; right; [exists "Aria"|exists "Bo"]; reflexivity. }
  exists names, s'. split; [exact E|].
  destruct (Hbound names s' E) as [Hlen Hfive].
  split; [vm_compute in E; congruence|].
  split; [exact Hlen|].
  exact (proj1 (proj2 (Hfive eq_refl eq_refl))).
Defined.

(** A page of results out of order comes back in order, records of the
    same instant in the order received. *)
Lemma queryNotionForMonth_sorted_witness :
  let r := queryNotionForMonth Demo.kst Demo.parse_ymd (Demo.workspace Demo.february)
             "db" "2026-02" Demo.s0 in
  r = (Ok (Demo.ok_items r.1), r.2) /\
  List.map title (Demo.ok_items r.1) = ["Fan meeting"; "Showcase"; "Album X"] /\
  StronglySorted date_le (Demo.ok_items r.1).
Proof.
  intros r.
  assert (r = (Ok (Demo.ok_items r.1), r.2)) as H by (vm_compute; reflexivity).
  split; [exact H|]. split; [vm_compute; reflexivity|].
  exact (queryNotionForMonth_sorted Demo.kst Demo.parse_ymd _ _ _ _ _ _ H).
Defined.

(** A draft without a date among the rows changes nothing. *)
Lemma undated_record_dropped_witness :
  undated (Demo.no_date "Draft") /\
  queryNotionForMonth Demo.kst Demo.parse_ymd
    (Demo.workspace (Demo.february ++ Demo.no_date "Draft" :: Demo.february_later))
    "db" "2026-02" Demo.s0 =
  queryNotionForMonth Demo.kst Demo.parse_ymd
    (Demo.workspace (Demo.february ++ Demo.february_later))
    "db" "2026-02" Demo.s0.
Proof.
  assert (undated (Demo.no_date "Draft")) as Hu by reflexivity.
  split; [exact Hu|].
  apply (undated_record_dropped Demo.kst Demo.parse_ymd
           (Demo.workspace (Demo.february ++ Demo.no_date "Draft" :: Demo.february_later))
           (Demo.workspace (Demo.february ++ Demo.february_later))
           "db" "2026-02" Demo.february (Demo.no_date "Draft") Demo.february_later Hu).
  - intros pid. reflexivity.
  - intros body. exists 200, "". split; reflexivity.
Defined.

(** A database that applies the filter honours it. *)
Lemma filtering_workspace_honours rows :
  honours_date_filter Demo.parse_ymd (Demo.filtering_workspace rows) "db".
Proof.
  intros body status answer message H page ds Hin Hds.
  simpl in H. inversion H; subst answer.
  apply filter_In in Hin as [_ Hp]. unfold Demo.passes in Hp.
  apply andb_prop in Hp as [_ Hp]. unfold NOTION_PROPS_date in Hds.
  rewrite Hds in Hp. apply andb_prop in Hp as [Hlo Hhi]. lia.
Qed.

(** December 2026, between a row of 30 November and one of 1 January:
    the window ends at local midnight of 1 January 2027. *)
Lemma queryNotionForMonth_in_window_witness :
  let r := queryNotionForMonth Demo.kst Demo.parse_ymd (Demo.filtering_workspace Demo.winter)
             "db" "2026-12" Demo.s0 in
  valid_month_key "2026-12" = true /\
  r = (Ok (Demo.ok_items r.1), r.2) /\
  List.map title (Demo.ok_items r.1) = ["Advent"; "Year-end stage"] /\
  JsDate.civil_from_days
    (JsDate.Day (JsDate.LocalTime Demo.kst (first_instant_of_month Demo.kst 2027 1)))
    = (2027, 0, 1) /\
  forall it, In it (Demo.ok_items r.1) ->
    first_instant_of_month Demo.kst 2026 12 <= dateObj it /\
    dateObj it < first_instant_of_month Demo.kst 2027 1.
Proof.
  intros r.
  assert (valid_month_key "2026-12" = true) as Hv by reflexivity.
  assert (r = (Ok (Demo.ok_items r.1), r.2)) as Hr by (vm_compute; reflexivity).
  split; [exact Hv|]. split; [exact Hr|].
  split; [vm_compute; reflexivity|]. split; [vm_compute; reflexivity|].
  destruct (queryNotionForMonth_in_window Demo.kst Demo.parse_ymd
              (Demo.filtering_workspace Demo.winter) "db" "2026-12" Demo.s0
              (Demo.ok_items r.1) r.2 Hv (filtering_workspace_honours Demo.winter) Hr)
    as (Y & M & Hf & _ & Hwin).
  vm_compute in Hf. inversion Hf; subst Y M.
  exact Hwin.
Defined.

(** The release of 3 February 2026, seen from Seoul. *)
Lemma buildEmbed_release_line_witness :
  JsDate.getDate Demo.kst (dateObj Demo.album_x) = 3 /\
  JsDate.getMonth Demo.kst (dateObj Demo.album_x) = 2 - 1 /\
  exists embed,
    buildEmbed Demo.kst "2026-02" [Demo.album_x] None = Ok embed /\
    description embed = "[FEB 03] 💿 Album X".
Proof.
  split; [reflexivity|]. split; [reflexivity|].
  assert (1 <= 2 <= 12) as HM by lia.
  exact (proj2 (buildEmbed_release_line Demo.kst "2026-02" None Demo.album_x 2026 2 "FEB"
                  eq_refl HM eq_refl eq_refl eq_refl eq_refl eq_refl eq_refl eq_refl
                  eq_refl eq_refl eq_refl) eq_refl).
Defined.

(** Two publications into an empty thread, the database having changed
    in between: one message is ever sent. *)
Lemma publishSchedule_twice_witness :
  let r1 := publishSchedule Demo.kst Demo.parse_ymd (Demo.workspace Demo.february)
              (Some "thread-1") "db" "2026-02" "guild-1:thisMonth" None Demo.s0 in
  let q2 := queryNotionForMonth Demo.kst Demo.parse_ymd (Demo.workspace Demo.february_later)
              "db" "2026-02" r1.2 in
  let r2 := publishSchedule Demo.kst Demo.parse_ymd (Demo.workspace Demo.february_later)
              (Some "thread-1") "db" "2026-02" "guild-1:thisMonth" None r1.2 in
  r1 = (Ok 3, r1.2) /\
  q2 = (Ok (Demo.ok_items q2.1), q2.2) /\
  r2.1 = Ok 1 /\
  meta_file r2.2 = meta_file r1.2 /\
  sent (trace r2.2) = [("thread-1", 1000%N)].
Proof.
  intros r1 q2 r2.
  assert (JsString.truthy "thread-1" = true) as Ht by reflexivity.
  assert (r1 = (Ok 3, r1.2)) as H1 by (vm_compute; reflexivity).
  assert (q2 = (Ok (Demo.ok_items q2.1), q2.2)) as H2 by (vm_compute; reflexivity).
  assert (exists embed2,
            buildEmbed Demo.kst "2026-02" (Demo.ok_items q2.1) None = Ok embed2)
    as (embed2 & Hb) by (eexists; vm_compute; reflexivity).
  split; [exact H1|]. split; [exact H2|].
  destruct (publishSchedule_twice Demo.kst Demo.parse_ymd
              (Demo.workspace Demo.february) (Demo.workspace Demo.february_later)
              "thread-1" "db" "2026-02" "guild-1:thisMonth" None
              Demo.s0 3 r1.2 (Demo.ok_items q2.1) q2.2 Ht H1 H2)
    as (msgId & msgs & res2 & s2 & _ & _ & _ & Hr2 & Hmeta & _ & _ & (t & Htr & Hsent) & Hcase).
  rewrite Hb in Hcase. destruct Hcase as (-> & _).
  fold r2 in Hr2. rewrite Hr2. simpl.
  split; [vm_compute; reflexivity|]. split; [exact Hmeta|].
  rewrite Htr, sent_app, Hsent, app_nil_r. vm_compute. reflexivity.
Defined.

(** C3, as claimed, fails.  The first publication shows three records;
    by the second the database answers with a full page of a hundred
    records, whose lines come to more than 4096 characters.  The second
    call finds the message and then throws the error of the builder:
    it does not edit the message, which still shows the render of the
    first call and not a fresh one. *)
Lemma publishSchedule_twice_render_rejected :
  let r1 := publishSchedule Demo.kst Demo.parse_ymd (Demo.workspace Demo.february)
              (Some "thread-1") "db" "2026-02" "guild-1:thisMonth" None Demo.s0 in
  let q2 := queryNotionForMonth Demo.kst Demo.parse_ymd (Demo.workspace Demo.overlong)
              "db" "2026-02" r1.2 in
  let r2 := publishSchedule Demo.kst Demo.parse_ymd (Demo.workspace Demo.overlong)
              (Some "thread-1") "db" "2026-02" "guild-1:thisMonth" None r1.2 in
  r1.1 = Ok 3 /\
  List.length (Demo.ok_items q2.1) = 100%nat /\
  r2.1 = Throw ValidationError /\
  channels (discord r2.2) !! "thread-1" = channels (discord r1.2) !! "thread-1" /\
  (forall payload, ~ In (EvEdit "thread-1" 1000%N payload)
                        (skipn (List.length (trace r1.2)) (trace r2.2))) /\
  ~ exists n s2,
      publishSchedule Demo.kst Demo.parse_ymd (Demo.workspace Demo.overlong)
        (Some "thread-1") "db" "2026-02" "guild-1:thisMonth" None r1.2 = (Ok n, s2).
Proof.
  intros r1 q2 r2.
  assert (r2.1 = Throw ValidationError) as Hr2 by (vm_compute; reflexivity).
  split; [vm_compute; reflexivity|]. split; [vm_compute; reflexivity|].
  split; [exact Hr2|]. split; [vm_compute; reflexivity|]. split.
  - intros payload Hin. vm_compute in Hin.
    repeat (destruct Hin as [Hin|Hin]; [discriminate Hin|]). exact Hin.
  - intros (n & s2 & H). fold r2 in H. rewrite H in Hr2. discriminate Hr2.
Qed.

(** Page a occurs three times in the rows and is requested once. *)
Lemma queryNotionForMonth_one_fetch_per_id_witness :
  let r := queryNotionForMonth Demo.kst Demo.parse_ymd (Demo.workspace Demo.february)
             "db" "2026-02" Demo.s0 in
  page_fetches (trace r.2) = ["a"; "d"] /\
  forall pid, (fetch_count pid (trace r.2) <= 1)%nat.
Proof.
  intros r. split; [vm_compute; reflexivity|].
  destruct (queryNotionForMonth_one_fetch_per_id Demo.kst Demo.parse_ymd
              (Demo.workspace Demo.february) "db" "2026-02" Demo.s0)
    as (_ & t & Htr & Hcount & _ & _).
  fold r in Htr. simpl in Htr. rewrite Htr. exact Hcount.
Defined.

(** A first publication for one guild keeps the entry of another. *)
Lemma publishSchedule_meta_frame_witness :
  let r := publishSchedule Demo.kst Demo.parse_ymd (Demo.workspace Demo.february)
             (Some "thread-1") "db" "2026-02" "guild-1:thisMonth" None Demo.s_shared in
  r.1 = Ok 3 /\
  meta_of r.2 !! "guild-1:thisMonth" = Some {| messageId := 1000%N |} /\
  meta_of r.2 !! "guild-2:thisMonth" = Some {| messageId := 7%N |}.
Proof.
  intros r. split; [vm_compute; reflexivity|]. split; [vm_compute; reflexivity|].
  destruct (publishSchedule_meta_frame Demo.kst Demo.parse_ymd (Demo.workspace Demo.february)
              (Some "thread-1") "db" "2026-02" "guild-1:thisMonth" None Demo.s_shared)
    as (Hother & _ & _).
  fold r in Hother. rewrite Hother; [reflexivity|discriminate].
Defined.

(** A share link and a dashed identifier. *)
Lemma extractNotionDbIdFromUrl_examples :
  extractNotionDbIdFromUrl
    "https://www.notion.so/workspace/2e9fa1e7c6198005a614f28220675577?v=0123"
    = Some "2e9fa1e7c6198005a614f28220675577" /\
  extractNotionDbIdFromUrl "2e9fa1e7-c619-8005-a614-f28220675577" = None.
Proof. split; vm_compute; reflexivity. Qed.

(** A guild set up with two of the optional threads left out, in both
    orders. *)
Lemma setup_and_notion_in_either_order_witness :
  let setup :=
    setup_patch "staff-1" "thread-1" (Some "") (Some "thread-3") (Some "thread-4") in
  let f12 := (setGuildCfg "guild-1" (notion_patch "db") (setGuildCfg "guild-1" setup None).2).2 in
  let f21 := (setGuildCfg "guild-1" setup (setGuildCfg "guild-1" (notion_patch "db") None).2).2 in
  f12 = f21 /\
  exists cfg,
    requireGuildCfg "guild-1" f12 = inr cfg /\
    staffChannelId cfg = Some "staff-1" /\
    thread_of (Some cfg) "thisMonth" = Some "thread-1" /\
    thread_of (Some cfg) "lastMonth" = None /\
    thread_of (Some cfg) "nextMonth" = Some "thread-3" /\
    thread_of (Some cfg) "archive" = Some "thread-4" /\
    databaseId_of (Some cfg) = Some "db".
Proof.
  exact (setup_and_notion_in_either_order "guild-1" None "staff-1" "thread-1"
           (Some "") (Some "thread-3") (Some "thread-4") "db" eq_refl eq_refl eq_refl).
Defined.

(** A new guild, step by step. *)
Lemma requireGuildCfg_guides_setup_witness :
  requireGuildCfg "guild-1" None = inl NotConfigured /\
  requireGuildCfg "guild-1"
    (setGuildCfg "guild-1" (setup_patch "staff-1" "thread-1" None None None) None).2
    = inl NotionDbNotConfigured /\
  requireGuildCfg "guild-1" (setGuildCfg "guild-1" (notion_patch "db") None).2
    = inl NotConfigured.
Proof.
  exact (requireGuildCfg_guides_setup "guild-1" None "staff-1" "thread-1"
           None None None "db" eq_refl eq_refl eq_refl).
Defined.

Lemma workspace_answers rows : answers_with (Demo.workspace rows) "db" rows.
Proof. intros body. exists 200, "". split; reflexivity. Qed.

(** Three rows and a draft without a date: three records. *)
Lemma queryNotionForMonth_one_record_per_dated_row_witness :
  let rows := Demo.february ++ [Demo.no_date "Draft"] in
  let r := queryNotionForMonth Demo.kst Demo.parse_ymd (Demo.workspace rows)
             "db" "2026-02" Demo.s0 in
  r = (Ok (Demo.ok_items r.1), r.2) /\
  length (Demo.ok_items r.1) = 3%nat /\
  Permutation (List.map item_key (Demo.ok_items r.1)) (omap (row_key Demo.parse_ymd) rows) /\
  Forall (fun it => title it <> "") (Demo.ok_items r.1).
Proof.
  intros rows r.
  assert (r = (Ok (Demo.ok_items r.1), r.2)) as H by (vm_compute; reflexivity).
  split; [exact H|]. split; [vm_compute; reflexivity|].
  exact (queryNotionForMonth_one_record_per_dated_row Demo.kst Demo.parse_ymd
           (Demo.workspace rows) "db" "2026-02" rows Demo.s0 _ _
           (workspace_answers rows) H).
Defined.

(** The two events of 1 February stay in the order of their rows. *)
Lemma queryNotionForMonth_keeps_order_of_ties_witness :
  let r := queryNotionForMonth Demo.kst Demo.parse_ymd (Demo.workspace Demo.february)
             "db" "2026-02" Demo.s0 in
  let d := Demo.parse_ymd "2026-02-01" in
  r = (Ok (Demo.ok_items r.1), r.2) /\
  at_instant d (List.map item_key (Demo.ok_items r.1))
    = [("Fan meeting", d); ("Showcase", d)] /\
  at_instant d (List.map item_key (Demo.ok_items r.1))
    = at_instant d (omap (row_key Demo.parse_ymd) Demo.february).
Proof.
  intros r d.
  assert (r = (Ok (Demo.ok_items r.1), r.2)) as H by (vm_compute; reflexivity).
  split; [exact H|]. split; [vm_compute; reflexivity|].
  exact (queryNotionForMonth_keeps_order_of_ties Demo.kst Demo.parse_ymd
           (Demo.workspace Demo.february) "db" "2026-02" Demo.february Demo.s0 _ _ d
           (workspace_answers Demo.february) H).
Defined.

(** A key without a month, a key whose month is a name, and a database
    that is not shared. *)
Lemma queryNotionForMonth_failures_witness :
  queryNotionForMonth Demo.kst Demo.parse_ymd (Demo.workspace Demo.february)
    "db" "2026" Demo.s0 = (Throw RangeError, set_cache ∅ Demo.s0) /\
  queryNotionForMonth Demo.kst Demo.parse_ymd (Demo.workspace Demo.february)
    "db" "2026-Feb" Demo.s0 = (Throw RangeError, set_cache ∅ Demo.s0) /\
  (queryNotionForMonth Demo.kst Demo.parse_ymd Demo.unshared "db" "2026-02" Demo.s0).1
    = Throw (NotionApiError 404 "Could not find database").
Proof.
  split; [|split].
  - exact (proj1 (queryNotionForMonth_failures Demo.kst Demo.parse_ymd
                    (Demo.workspace Demo.february) "db" "2026" Demo.s0)
             "2026" eq_refl).
  - exact (proj1 (proj2 (queryNotionForMonth_failures Demo.kst Demo.parse_ymd
                           (Demo.workspace Demo.february) "db" "2026-Feb" Demo.s0))
             "2026" "Feb" [] eq_refl (or_intror eq_refl)).
  - assert (monthStartEnd Demo.kst "2026-02"
            = (Some (first_instant_of_month Demo.kst 2026 2),
               Some (first_instant_of_month Demo.kst 2026 3))) as Hwin
      by (vm_compute; reflexivity).
    destruct (proj2 (proj2 (queryNotionForMonth_failures Demo.kst Demo.parse_ymd
                              Demo.unshared "db" "2026-02" Demo.s0)) _ _ Hwin)
      as [_ H404].
    rewrite (H404 404 None "Could not find database" eq_refl eq_refl). reflexivity.
Defined.

(** A database that is not shared: the publication throws Notion's 404
    and Discord is not touched. *)
Lemma publishSchedule_query_failure_witness :
  let q := queryNotionForMonth Demo.kst Demo.parse_ymd Demo.unshared
             "db" "2026-02" Demo.s0 in
  let r := publishSchedule Demo.kst Demo.parse_ymd Demo.unshared
             (Some "thread-1") "db" "2026-02" "guild-1:thisMonth" None Demo.s0 in
  q = (Throw (NotionApiError 404 "Could not find database"), q.2) /\
  r = (Throw (NotionApiError 404 "Could not find database"), q.2) /\
  discord q.2 = Demo.server /\
  meta_file q.2 = None.
Proof.
  intros q r.
  assert (q = (Throw (NotionApiError 404 "Could not find database"), q.2)) as H
    by (vm_compute; reflexivity).
  split; [exact H|].
  destruct (publishSchedule_query_failure Demo.kst Demo.parse_ymd Demo.unshared
              "thread-1" "db" "2026-02" "guild-1:thisMonth" None Demo.s0 _ _ eq_refl H)
    as (Hr & Hd & Hm & _).
  split; [exact Hr|]. split; [exact Hd|exact Hm].
Defined.

(** A thread that resolves to null, and one whose fetch rejects. *)
Lemma publishSchedule_thread_unreachable_witness :
  let q := queryNotionForMonth Demo.kst Demo.parse_ymd (Demo.workspace Demo.february)
             "db" "2026-02" Demo.s_stale in
  q = (Ok (Demo.ok_items q.1), q.2) /\
  (publishSchedule Demo.kst Demo.parse_ymd (Demo.workspace Demo.february)
     (Some "thread-0") "db" "2026-02" "guild-1:thisMonth" None Demo.s_stale).1
    = Throw (ThreadNotFound "thread-0") /\
  (publishSchedule Demo.kst Demo.parse_ymd (Demo.workspace Demo.february)
     (Some "thread-9") "db" "2026-02" "guild-1:thisMonth" None Demo.s_stale).1
    = Throw DiscordApiError.
Proof.
  intros q.
  assert (q = (Ok (Demo.ok_items q.1), q.2)) as H by (vm_compute; reflexivity).
  split; [exact H|]. split.
  - destruct (publishSchedule_thread_unreachable Demo.kst Demo.parse_ymd
                (Demo.workspace Demo.february) "thread-0" "db" "2026-02"
                "guild-1:thisMonth" None Demo.s_stale _ _ eq_refl H) as (Hnull & _ & _).
    rewrite Hnull; [reflexivity|]. vm_compute. reflexivity.
  - destruct (publishSchedule_thread_unreachable Demo.kst Demo.parse_ymd
                (Demo.workspace Demo.february) "thread-9" "db" "2026-02"
                "guild-1:thisMonth" None Demo.s_stale _ _ eq_refl H) as (_ & Hrej & _).
    rewrite Hrej; [reflexivity|]. vm_compute. reflexivity.
Defined.

(** A first publication of February into an empty thread. *)
Lemma publishSchedule_success_witness :
  let r := publishSchedule Demo.kst Demo.parse_ymd (Demo.workspace Demo.february)
             (Some "thread-1") "db" "2026-02" "guild-1:thisMonth" None Demo.s0 in
  r = (Ok 3, r.2) /\
  exists events msg msgs embed,
    3 = Z.of_nat (length events) /\
    meta_of r.2 !! "guild-1:thisMonth" = Some {| messageId := msg |} /\
    channels (discord r.2) !! "thread-1" = Some (Some msgs) /\
    buildEmbed Demo.kst "2026-02" events None = Ok embed /\
    msgs !! msg = Some {| content := ""; embeds := [embed] |}.
Proof.
  intros r.
  assert (r = (Ok 3, r.2)) as H by (vm_compute; reflexivity).
  split; [exact H|].
  destruct (publishSchedule_success Demo.kst Demo.parse_ymd (Demo.workspace Demo.february)
              "thread-1" "db" "2026-02" "guild-1:thisMonth" None Demo.s0 3 r.2 eq_refl H)
    as (events & sq & msg & msgs & embed & _ & Hn & Hmeta & Hch & Hb & Hmsg).
  exists events, msg, msgs, embed. auto.
Defined.

(** The pinned message of the thread survives a publication. *)
Lemma publishSchedule_touches_one_message_witness :
  let r := publishSchedule Demo.kst Demo.parse_ymd (Demo.workspace Demo.february)
             (Some "thread-1") "db" "2026-02" "guild-1:thisMonth" None Demo.s_stale in
  r = (Ok 3, r.2) /\
  channels (discord r.2) !! "thread-0" = Some None /\
  exists msg before after,
    meta_of r.2 !! "guild-1:thisMonth" = Some {| messageId := msg |} /\
    channels (discord Demo.s_stale) !! "thread-1" = Some (Some before) /\
    channels (discord r.2) !! "thread-1" = Some (Some after) /\
    forall m, m <> msg -> after !! m = before !! m.
Proof.
  intros r.
  assert (r = (Ok 3, r.2)) as H by (vm_compute; reflexivity).
  split; [exact H|].
  destruct (publishSchedule_touches_one_message Demo.kst Demo.parse_ymd
              (Demo.workspace Demo.february) "thread-1" "db" "2026-02"
              "guild-1:thisMonth" None Demo.s_stale 3 r.2 eq_refl H)
    as (Hother & Hone).
  split; [|exact Hone].
  rewrite (Hother "thread-0"); [vm_compute; reflexivity|discriminate].
Defined.

(** The stored message 7 is gone: message 1000 is created and the key
    rebound to it.  With the three records of February it then shows
    their render; with a full page of a hundred records the
    publication throws and it keeps the text it was created with. *)
Lemma publishSchedule_creates_message_witness :
  let pinned := {[ 5%N := {| content := "pinned"; embeds := [] |} ]} in
  let q := queryNotionForMonth Demo.kst Demo.parse_ymd (Demo.workspace Demo.february)
             "db" "2026-02" Demo.s_stale in
  let q' := queryNotionForMonth Demo.kst Demo.parse_ymd (Demo.workspace Demo.overlong)
              "db" "2026-02" Demo.s_stale in
  q = (Ok (Demo.ok_items q.1), q.2) /\
  q' = (Ok (Demo.ok_items q'.1), q'.2) /\
  (exists s',
     publishSchedule Demo.kst Demo.parse_ymd (Demo.workspace Demo.february)
       (Some "thread-1") "db" "2026-02" "guild-1:thisMonth" None Demo.s_stale
       = (Ok 3, s') /\
     meta_of s' !! "guild-1:thisMonth" = Some {| messageId := 1000%N |} /\
     exists t, trace s' = trace Demo.s_stale ++ t /\
       sent t = [("thread-1", 1000%N)] /\ meta_writes t = 1%nat) /\
  (exists s',
     publishSchedule Demo.kst Demo.parse_ymd (Demo.workspace Demo.overlong)
       (Some "thread-1") "db" "2026-02" "guild-1:thisMonth" None Demo.s_stale
       = (Throw ValidationError, s') /\
     meta_of s' !! "guild-1:thisMonth" = Some {| messageId := 1000%N |} /\
     channels (discord s') !! "thread-1"
       = Some (Some (<[1000%N := {| content := "Initializing schedule…"; embeds := [] |}]>
                       pinned))).
Proof.
  intros pinned q q'.
  assert (q = (Ok (Demo.ok_items q.1), q.2)) as H by (vm_compute; reflexivity).
  assert (q' = (Ok (Demo.ok_items q'.1), q'.2)) as H' by (vm_compute; reflexivity).
  assert (channels (discord Demo.s_stale) !! "thread-1" = Some (Some pinned)) as Hch
    by (vm_compute; reflexivity).
  assert (forall m, meta_of Demo.s_stale !! "guild-1:thisMonth" = Some m ->
                    pinned !! messageId m = None) as Hgone.
  { intros m Hm. vm_compute in Hm. inversion Hm; subst m. vm_compute. reflexivity. }
  assert (exists embed,
            buildEmbed Demo.kst "2026-02" (Demo.ok_items q.1) None = Ok embed)
    as (embed & Hb) by (eexists; vm_compute; reflexivity).
  assert (buildEmbed Demo.kst "2026-02" (Demo.ok_items q'.1) None = Throw ValidationError)
    as Hb' by (vm_compute; reflexivity).
  split; [exact H|]. split; [exact H'|]. split.
  - destruct (publishSchedule_creates_message Demo.kst Demo.parse_ymd
                (Demo.workspace Demo.february) "thread-1" "db" "2026-02"
                "guild-1:thisMonth" None Demo.s_stale (Demo.ok_items q.1) q.2
                pinned eq_refl H Hch Hgone)
      as (r & s' & Hr & Hmeta & _ & Htr & Hcase).
    rewrite Hb in Hcase. destruct Hcase as (-> & _).
    exists s'. split; [rewrite Hr; vm_compute; reflexivity|].
    split; [unfold meta_of; rewrite Hmeta; simpl; by rewrite lookup_insert_eq|].
    exact Htr.
  - destruct (publishSchedule_creates_message Demo.kst Demo.parse_ymd
                (Demo.workspace Demo.overlong) "thread-1" "db" "2026-02"
                "guild-1:thisMonth" None Demo.s_stale (Demo.ok_items q'.1) q'.2
                pinned eq_refl H' Hch Hgone)
      as (r & s' & Hr & Hmeta & _ & _ & Hcase).
    rewrite Hb' in Hcase. destruct Hcase as (-> & Hchs).
    exists s'. split; [exact Hr|].
    split; [unfold meta_of; rewrite Hmeta; simpl; by rewrite lookup_insert_eq|].
    rewrite Hchs. by rewrite lookup_insert_eq.
Defined.

(** The embed of the release of 3 February 2026. *)
Lemma buildEmbed_body_witness :
  exists embed,
    buildEmbed Demo.kst "2026-02" [Demo.album_x] None = Ok embed /\
    description embed <> "" /\
    (JsString.length (description embed) <= 4096)%nat /\
    (description embed = "_No upcoming entries._" <-> [Demo.album_x] = []) /\
    exists tail, description embed = line_head Demo.kst Demo.album_x +:+ tail.
Proof.
  assert (exists embed, buildEmbed Demo.kst "2026-02" [Demo.album_x] None = Ok embed)
    as (embed & Hb) by (eexists; vm_compute; reflexivity).
  exists embed. split; [exact Hb|].
  destruct (buildEmbed_body Demo.kst "2026-02" [Demo.album_x] None embed Hb)
    as (H1 & H2 & H3 & H4).
  split; [exact H1|]. split; [exact H2|]. split; [exact H3|].
  exact (H4 Demo.album_x [] eq_refl).
Defined.

Lemma kst_fixed_offset : fixed_offset Demo.kst (9 * 3600000).
Proof. split; [intros; reflexivity|apply Z.leb_le; vm_compute; reflexivity]. Qed.

(** The key of 15 December 2026. *)
Lemma monthKeyFromDate_fields_witness :
  monthKeyFromDate Demo.kst (Some Demo.mid_december) = "2026-12" /\
  month_key_fields (monthKeyFromDate Demo.kst (Some Demo.mid_december))
    = (Some 2026, Some 12) /\
  valid_month_key (monthKeyFromDate Demo.kst (Some Demo.mid_december)) = true.
Proof.
  split; [vm_compute; reflexivity|].
  assert (0 <= JsDate.getFullYear Demo.kst Demo.mid_december) as Hy
    by (apply Z.leb_le; vm_compute; reflexivity).
  assert (1000 <= JsDate.getFullYear Demo.kst Demo.mid_december <= 9999) as Hy4
    by (split; apply Z.leb_le; vm_compute; reflexivity).
  destruct (monthKeyFromDate_fields Demo.kst Demo.mid_december Hy) as (Hf & _ & Hv).
  split; [rewrite Hf; vm_compute; reflexivity|exact (Hv Hy4)].
Defined.

(** The window of December 2026 around the 15th. *)
Lemma month_window_contains_now_witness :
  exists s e,
    monthStartEnd Demo.kst (monthKeyFromDate Demo.kst (Some Demo.mid_december))
      = (Some s, Some e) /\
    s <= Demo.mid_december < e /\
    s = first_instant_of_month Demo.kst 2026 12 /\
    e = first_instant_of_month Demo.kst 2027 1.
Proof.
  assert (100 <= JsDate.getFullYear Demo.kst Demo.mid_december <= 9999) as Hy
    by (split; apply Z.leb_le; vm_compute; reflexivity).
  destruct (month_window_contains_now Demo.kst (9 * 3600000) Demo.mid_december
              kst_fixed_offset Hy) as (s & e & Hw & Hin & Hs & He).
  exists s, e. split; [exact Hw|]. split; [exact Hin|].
  split; [rewrite Hs|rewrite He]; vm_compute; reflexivity.
Defined.

(** From December 2026: November, December and January 2027. *)
Lemma sync_windows_adjacent_witness :
  sync_month_keys Demo.kst Demo.mid_december = ("2026-12", "2026-11", "2027-01") /\
  exists a b c d,
    monthStartEnd Demo.kst "2026-11" = (Some a, Some b) /\
    monthStartEnd Demo.kst "2026-12" = (Some b, Some c) /\
    monthStartEnd Demo.kst "2027-01" = (Some c, Some d) /\
    a < b /\ b <= Demo.mid_december < c /\ c < d.
Proof.
  assert (sync_month_keys Demo.kst Demo.mid_december = ("2026-12", "2026-11", "2027-01"))
    as Hk by (vm_compute; reflexivity).
  assert (101 <= JsDate.getFullYear Demo.kst Demo.mid_december <= 9998) as Hy
    by (split; apply Z.leb_le; vm_compute; reflexivity).
  split; [exact Hk|].
  destruct (sync_windows_adjacent Demo.kst (9 * 3600000) Demo.mid_december
              kst_fixed_offset Hy) as (Hw & _).
  rewrite Hk in Hw. exact Hw.
Defined.

(** February 2026. *)
Lemma fmtMonthTitle_names_month_witness :
  fmtMonthTitle Demo.kst "2026-02" = "February 2026".
Proof.
  rewrite (fmtMonthTitle_names_month Demo.kst (9 * 3600000) "2026-02" 2026 2
             kst_fixed_offset eq_refl ltac:(lia) ltac:(lia)).
  vm_compute. reflexivity.
Defined.
